(** * MHWorldData: weapon tree and armor series assembly, dataset validation

    A shallow embedding of [mhdata/merge/binary/load.py] and
    [mhdata/load/validate.py], and the properties of both that the
    design document states.

    Conventions of the embedding:
    - Python [int] is [Z]; positions in a table (list indices) are [nat].
    - Python [str] is [string]; comparison is by code unit, as Python's.
    - A [dict] whose iteration order is observed is an association list with
      Python's update discipline ([od_set]); a [dict] that is only probed
      with [.get]/[[]] is a [gmap].
    - A raised exception is [Raise e] in the [result] monad.
    - Text written by [print] and calls of [mhdata.util.ensure_warn] are
      recorded, in order, in the output of the [io] writer monad. *)

From stdpp Require Import base option list gmap strings pretty sorting.
From Stdlib Require Import ZArith Lia.

#[local] Open Scope Z_scope.

(* ================================================================== *)
(** * Python building blocks *)
(* ================================================================== *)

Module Py.

(** ** Exceptions *)

Inductive exn := KeyError | IndexError | ValueError.

Inductive result (A : Type) : Type :=
| Ok (a : A)
| Raise (e : exn).
Arguments Ok {A} a.
Arguments Raise {A} e.

#[global] Instance result_ret : MRet result := @Ok.
#[global] Instance result_bind : MBind result := λ A B f m,
  match m with
  | Ok a => f a
  | Raise e => Raise e
  end.

#[global] Instance result_fmap : FMap result := λ A B f m,
  match m with
  | Ok a => Ok (f a)
  | Raise e => Raise e
  end.

(** [d[k]] on a dict that is only probed. *)
Definition getitem `{Countable K} {V} (d : gmap K V) (k : K) : result V :=
  match d !! k with
  | Some v => Ok v
  | None => Raise KeyError
  end.

(** [l[i]] on a sequence, for a position [i]. *)
Definition index {A} (l : list A) (i : nat) : result A :=
  match l !! i with
  | Some v => Ok v
  | None => Raise IndexError
  end.

(** A [for] loop whose body may raise. *)
Fixpoint foldlM {A S} (body : S → A → result S) (s : S) (l : list A) : result S :=
  match l with
  | [] => Ok s
  | x :: r => s' ← body s x; foldlM body s' r
  end.

Fixpoint forM {A B} (body : A → result B) (l : list A) : result (list B) :=
  match l with
  | [] => Ok []
  | x :: r => y ← body x; ys ← forM body r; Ok (y :: ys)
  end.

(** ** Insertion-ordered dicts *)

Section odict.
Context {K V : Type} `{EqDecision K}.

Fixpoint od_get (k : K) (d : list (K * V)) : option V :=
  match d with
  | [] => None
  | (k', v) :: r => if decide (k = k') then Some v else od_get k r
  end.

(** [d[k] = v]: an existing key keeps its position, a new one goes last. *)
Fixpoint od_set (k : K) (v : V) (d : list (K * V)) : list (K * V) :=
  match d with
  | [] => [(k, v)]
  | (k', v') :: r =>
      if decide (k = k') then (k, v) :: r else (k', v') :: od_set k v r
  end.

(** In-place mutation of the object stored under [k]. *)
Fixpoint od_alter (f : V → V) (k : K) (d : list (K * V)) : list (K * V) :=
  match d with
  | [] => []
  | (k', v) :: r =>
      if decide (k = k') then (k', f v) :: r else (k', v) :: od_alter f k r
  end.

Definition od_keys (d : list (K * V)) : list K := d.*1.
Definition od_values (d : list (K * V)) : list V := d.*2.

Definition od_getitem (d : list (K * V)) (k : K) : result V :=
  match od_get k d with
  | Some v => Ok v
  | None => Raise KeyError
  end.
End odict.

(** ** [sorted(l, key=...)] and [list.sort(key=...)]

    Python's sort is stable and compares keys with [<] only; a stable
    insertion sort computes the same list. *)

Section sorting.
Context {A K : Type} (ltb : K → K → bool) (key : A → K).

Fixpoint insert_sorted (x : A) (l : list A) : list A :=
  match l with
  | [] => [x]
  | y :: r => if ltb (key y) (key x) then y :: insert_sorted x r else x :: y :: r
  end.

(** Elements are inserted from the right and stop in front of the first
    key that is not smaller, so equal keys keep their order. *)
Definition sorted : list A → list A := foldr insert_sorted [].

(** [itertools.groupby(l, key)]: maximal runs of equal keys. *)
Context `{EqDecision K}.

Fixpoint groupby (l : list A) : list (K * list A) :=
  match l with
  | [] => []
  | x :: r =>
      match groupby r with
      | (k, items) :: gs =>
          if decide (key x = k) then (k, x :: items) :: gs
          else (key x, [x]) :: (k, items) :: gs
      | [] => [(key x, [x])]
      end
  end.
End sorting.

(** [min(l, key=...)]: the first element whose key is least. *)
Fixpoint min_by {A} (key : A → Z) (l : list A) : result A :=
  match l with
  | [] => Raise ValueError
  | x :: r =>
      match min_by key r with
      | Ok m => Ok (if bool_decide (key m < key x) then m else x)
      | Raise _ => Ok x
      end
  end.

(** ** Strings *)

Fixpoint startswith (p s : string) : bool :=
  match p, s with
  | EmptyString, _ => true
  | String a p', String b s' => bool_decide (a = b) && startswith p' s'
  | String _ _, EmptyString => false
  end.

(** [sub in s] for two strings: [sub] occurs in [s] as a contiguous run. *)
Fixpoint str_contains (s sub : string) : bool :=
  startswith sub s ||
  match s with
  | EmptyString => false
  | String _ s' => str_contains s' sub
  end.

(** [<] on strings. *)
Definition str_ltb (s t : string) : bool :=
  match String.compare s t with Lt => true | _ => false end.

(** [<] on pairs, as on Python tuples. *)
Definition pair_ltb {A B} `{EqDecision A}
    (lta : A → A → bool) (ltb : B → B → bool) (x y : A * B) : bool :=
  if decide (x.1 = y.1) then ltb x.2 y.2 else lta x.1 y.1.

(** What the sort relies on: [<] is a strict total order. *)
Class TotalLtb {K} (ltb : K → K → bool) : Prop := {
  ltb_irrefl a : ltb a a = false;
  ltb_asym a b : ltb a b = true → ltb b a = false;
  ltb_le_trans a b c : ltb b a = false → ltb c b = false → ltb c a = false;
  ltb_le_antisym a b : ltb a b = false → ltb b a = false → a = b;
}.

Definition Z_sum (l : list Z) : Z := foldr Z.add 0 l.

(** ** Output *)

Inductive event :=
| Print (line : string)
| EnsureWarn (condition : bool) (message : string).

Definition io (A : Type) : Type := A * list event.

#[global] Instance io_ret : MRet io := λ A a, (a, []).
#[global] Instance io_bind : MBind io := λ A B f m,
  let '(b, out) := f m.1 in (b, m.2 ++ out).

Definition print (line : string) : io unit := ((), [Print line]).

(** [mhdata.util.ensure_warn(condition, message)]. The helper is outside
    the validated sources; a call is recorded with its two arguments. It is
    handed no collection of the caller, so it cannot add an error to one. *)
Definition ensure_warn (condition : bool) (message : string) : io unit :=
  ((), [EnsureWarn condition message]).

Fixpoint for_each {A} (body : A → io unit) (l : list A) : io unit :=
  match l with
  | [] => mret ()
  | x :: r => _ ← body x; for_each body r
  end.

End Py.

(* ================================================================== *)
(** * mhdata/merge/binary/load.py *)
(* ================================================================== *)

Module Load.
Import Py.

(** The fourteen weapon-type constants of [cfg]; they key [weapon_files],
    so they are pairwise distinct. *)
Inductive weapon_type :=
| GREAT_SWORD | LONG_SWORD | SWORD_AND_SHIELD | DUAL_BLADES | HAMMER
| HUNTING_HORN | LANCE | GUNLANCE | SWITCH_AXE | CHARGE_BLADE
| INSECT_GLAIVE | LIGHT_BOWGUN | HEAVY_BOWGUN | BOW.

#[global] Instance weapon_type_eq_dec : EqDecision weapon_type.
Proof. solve_decision. Defined.

(** Position in the list is the binary equip type. *)
Definition weapon_types : list weapon_type :=
  [ GREAT_SWORD; SWORD_AND_SHIELD; DUAL_BLADES; LONG_SWORD;
    HAMMER; HUNTING_HORN; LANCE; GUNLANCE; SWITCH_AXE;
    CHARGE_BLADE; INSECT_GLAIVE; BOW; HEAVY_BOWGUN; LIGHT_BOWGUN ].

Definition weapon_type_code (w : weapon_type) : nat :=
  match w with
  | GREAT_SWORD => 0 | SWORD_AND_SHIELD => 1 | DUAL_BLADES => 2
  | LONG_SWORD => 3 | HAMMER => 4 | HUNTING_HORN => 5 | LANCE => 6
  | GUNLANCE => 7 | SWITCH_AXE => 8 | CHARGE_BLADE => 9
  | INSECT_GLAIVE => 10 | BOW => 11 | HEAVY_BOWGUN => 12
  | LIGHT_BOWGUN => 13
  end%nat.

#[global] Instance weapon_type_countable : Countable weapon_type.
Proof.
  apply (inj_countable' weapon_type_code (λ n, default GREAT_SWORD (weapon_types !! n))).
  by intros [].
Defined.

(** [load_text]: index -> language -> text. *)
Abbreviation name_dict := (gmap string string).
Abbreviation text_table := (gmap Z (gmap string string)).

(** ** Decoded binary records (the fields this module reads) *)

Record EqCrtEntry := {
  crt_equip_type : nat;
  crt_equip_id : Z;
  crt_item1_qty : Z;
}.

Record EqCusEntry := {
  equip_type : nat;
  equip_id : Z;
  item1_qty : Z;
  descendant1_idx : nat;
  descendant2_idx : nat;
  descendant3_idx : nat;
  descendant4_idx : nat;
}.

Record WpDatEntry := {
  wp_id : Z;
  wp_gmd_name_index : Z;
  wp_tree_id : Z;
}.

Record AmDatEntry := {
  am_id : Z;
  am_gmd_name_index : Z;
  am_set_id : Z;
  am_type : Z;
  am_gender : Z;
  am_order : Z;
  am_variant : Z;
  am_equip_slot : nat;
}.

#[global] Instance EqCrtEntry_eq_dec : EqDecision EqCrtEntry.
Proof. solve_decision. Defined.
#[global] Instance EqCusEntry_eq_dec : EqDecision EqCusEntry.
Proof. solve_decision. Defined.
#[global] Instance WpDatEntry_eq_dec : EqDecision WpDatEntry.
Proof. solve_decision. Defined.
#[global] Instance AmDatEntry_eq_dec : EqDecision AmDatEntry.
Proof. solve_decision. Defined.

(** ** WeaponDataNode

    Nodes are mutable objects that [weapon_map] holds by id; [parent] and
    [children] refer to other nodes of the same map, so they are ids into it. *)

Record WeaponDataNode := {
  binary : WpDatEntry;
  wtype : weapon_type;
  name : gmap string string;
  tree : option string;
  craft : option EqCrtEntry;
  upgrade : option EqCusEntry;
  parent : option Z;
  children : list Z;
}.

Definition new_node (b : WpDatEntry) (wt : weapon_type) (nm : gmap string string)
    (tr : option string) (cr : option EqCrtEntry) (up : option EqCusEntry)
    : WeaponDataNode :=
  {| binary := b; wtype := wt; name := nm; tree := tr; craft := cr;
     upgrade := up; parent := None; children := [] |}.

Definition node_id (n : WeaponDataNode) : Z := wp_id (binary n).

Definition set_parent (p : Z) (n : WeaponDataNode) : WeaponDataNode :=
  {| binary := binary n; wtype := wtype n; name := name n; tree := tree n;
     craft := craft n; upgrade := upgrade n;
     parent := Some p; children := children n |}.

Definition append_child (c : Z) (n : WeaponDataNode) : WeaponDataNode :=
  {| binary := binary n; wtype := wtype n; name := name n; tree := tree n;
     craft := craft n; upgrade := upgrade n;
     parent := parent n; children := children n ++ [c] |}.

Definition set_tree (t : option string) (n : WeaponDataNode) : WeaponDataNode :=
  {| binary := binary n; wtype := wtype n; name := name n; tree := t;
     craft := craft n; upgrade := upgrade n;
     parent := parent n; children := children n |}.

(** The node store: [weapon_map], id -> node, in insertion order. *)
Abbreviation store := (list (Z * WeaponDataNode)).

(** [weapon.add_child(descendant)], with [weapon] and [descendant] given by
    id: first [child.parent = self], then [self.children.append(child)]. *)
Definition add_child (weapon descendant : Z) (m : store) : store :=
  od_alter (append_child descendant) weapon
    (od_alter (set_parent weapon) descendant m).

(** ** WeaponTree *)

Record WeaponTree := {
  weapon_map : list (Z * WeaponDataNode);
  weapon_map_by_name : list (string * Z);
  roots : list Z;
  _isolated : list Z;
}.

Definition WeaponTree_init (m : store) : result WeaponTree :=
  by_name ← foldlM (λ acc weapon,
      en ← getitem (name weapon) "en";
      Ok (od_set en (node_id weapon) acc)) [] (od_values m);
  let free := filter (λ weapon, parent weapon = None) (od_values m) in
  Ok {| weapon_map := m;
        weapon_map_by_name := by_name;
        roots := node_id <$> filter (λ weapon, tree weapon ≠ None) free;
        _isolated := node_id <$> filter (λ weapon, tree weapon = None) free |}.

(** ** WeaponDataLoader *)

Record WeaponDataLoader := {
  weapon_trees : gmap Z (gmap string string);
  crafting_data_map : gmap (weapon_type * Z) EqCrtEntry;
  upgrade_data : list EqCusEntry;
  upgrade_data_map : gmap (weapon_type * Z) EqCusEntry;
}.

(** The loops of [__init__]: one entry into [crafting_data_map], and one
    into [upgrade_data_map]. Later entries replace earlier ones. *)
Definition index_craft (acc : gmap (weapon_type * Z) EqCrtEntry)
    (entry : EqCrtEntry) : result (gmap (weapon_type * Z) EqCrtEntry) :=
  wtype ← index weapon_types (crt_equip_type entry);
  Ok (<[(wtype, crt_equip_id entry) := entry]> acc).

Definition index_upgrade (acc : gmap (weapon_type * Z) EqCusEntry)
    (entry : EqCusEntry) : result (gmap (weapon_type * Z) EqCusEntry) :=
  wtype ← index weapon_types (equip_type entry);
  Ok (<[(wtype, equip_id entry) := entry]> acc).

(** [__init__], from the decoded files. *)
Definition WeaponDataLoader_init (trees : gmap Z (gmap string string))
    (crt : list EqCrtEntry) (cus : list EqCusEntry) : result WeaponDataLoader :=
  cmap ← foldlM index_craft ∅ crt;
  umap ← foldlM index_upgrade ∅ cus;
  Ok {| weapon_trees := trees; crafting_data_map := cmap;
        upgrade_data := cus; upgrade_data_map := umap |}.

Abbreviation slots := (nat * nat * nat * nat)%type.

Definition slot_list (d : slots) : list nat :=
  let '(d1, d2, d3, d4) := d in [d1; d2; d3; d4].

Definition descendant_slots (u : EqCusEntry) : slots :=
  (descendant1_idx u, descendant2_idx u, descendant3_idx u, descendant4_idx u).

(** First pass of [load_tree]: one weapon record. *)
Definition create_node (L : WeaponDataLoader) (weapon_type : weapon_type)
    (weapon_text : gmap Z (gmap string string))
    (st : list (Z * WeaponDataNode) * gmap Z slots) (b : WpDatEntry)
    : result (list (Z * WeaponDataNode) * gmap Z slots) :=
  let '(weapon_map, weapon_descendants) := st in
  name ← getitem weapon_text (wp_gmd_name_index b);
  let recipe_key := (weapon_type, wp_id b) in
  let craft_recipe := crafting_data_map L !! recipe_key in
  let upgrade_recipe := upgrade_data_map L !! recipe_key in
  (* Remove craft recipe if invalid *)
  let craft_recipe :=
    match craft_recipe with
    | Some c => if bool_decide (crt_item1_qty c = 0) then None else Some c
    | None => None
    end in
  (* Pull descendants from upgrade recipe and then clear if there are no
     ingredients *)
  let weapon_descendants :=
    match upgrade_recipe with
    | Some u => <[wp_id b := descendant_slots u]> weapon_descendants
    | None => weapon_descendants
    end in
  let upgrade_recipe :=
    match upgrade_recipe with
    | Some u => if bool_decide (item1_qty u = 0) then None else Some u
    | None => None
    end in
  en ← getitem name "en";
  if bool_decide (en = EmptyString) || bool_decide (en = "Invalid Message")
  then Ok (weapon_map, weapon_descendants)
  else
    treename ←
      (if bool_decide (wp_tree_id b = 0) then Ok None
       else t ← getitem (weapon_trees L) (wp_tree_id b);
            s ← getitem t "en";
            Ok (Some s));
    Ok (od_set (wp_id b)
          (new_node b weapon_type name treename craft_recipe upgrade_recipe)
          weapon_map,
        weapon_descendants).

(** The inner loop of the second pass: one descendant slot of [weapon]. *)
Definition attach_descendant (L : WeaponDataLoader) (weapon : Z)
    (m : store) (descendant_idx : nat) : result store :=
  if bool_decide (descendant_idx = 0%nat) then Ok m
  else
    entry ← index (upgrade_data L) descendant_idx;
    let descendant_id := equip_id entry in
    _ ← od_getitem m descendant_id;
    Ok (add_child weapon descendant_id m).

(** Second pass of [load_tree]: one node of [weapon_map], given by id. *)
Definition connect_node (L : WeaponDataLoader) (weapon_descendants : gmap Z slots)
    (m : store) (weapon : Z) : result store :=
  let descendants := from_option slot_list [] (weapon_descendants !! weapon) in
  if forallb (λ d, bool_decide (d = 0%nat)) descendants then Ok m
  else
    (* if the first entry is 0, this is the last upgrade on the tree line *)
    let is_last := bool_decide (descendants !! 0%nat = Some 0%nat) in
    m ← foldlM (attach_descendant L weapon) m descendants;
    if is_last then Ok m
    else
      (* override tree name for first descendants *)
      w ← od_getitem m weapon;
      first ← index (children w) 0;
      Ok (od_alter (set_tree (tree w)) first m).

Definition load_weapon_map (L : WeaponDataLoader) (weapon_type : weapon_type)
    (weapon_text : gmap Z (gmap string string)) (entries : list WpDatEntry)
    : result store :=
  '(weapon_map, weapon_descendants) ←
    foldlM (create_node L weapon_type weapon_text) ([], ∅) entries;
  foldlM (connect_node L weapon_descendants) weapon_map (od_keys weapon_map).

(** The fields of the node stored under [id]. *)
Definition tree_of (m : store) (id : Z) : option (option string) :=
  tree <$> od_get id m.
Definition children_of (m : store) (id : Z) : option (list Z) :=
  children <$> od_get id m.
Definition parent_of (m : store) (id : Z) : option (option Z) :=
  parent <$> od_get id m.

(** The node ids that the nonzero slots of [ds] name, in slot order. *)
Definition slot_targets (L : WeaponDataLoader) (ds : list nat) : list Z :=
  omap (λ d, if bool_decide (d = 0%nat) then None
             else equip_id <$> upgrade_data L !! d) ds.

Definition load_tree (L : WeaponDataLoader) (weapon_type : weapon_type)
    (weapon_text : gmap Z (gmap string string)) (entries : list WpDatEntry)
    : result WeaponTree :=
  m ← load_weapon_map L weapon_type weapon_text entries;
  WeaponTree_init m.

(** [WeaponDataLoader().load_tree(weapon_type)], up to the node map. *)
Definition load_weapons (trees : gmap Z (gmap string string))
    (crt : list EqCrtEntry) (cus : list EqCusEntry) (weapon_type : weapon_type)
    (weapon_text : gmap Z (gmap string string)) (entries : list WpDatEntry)
    : result store :=
  L ← WeaponDataLoader_init trees crt cus;
  load_weapon_map L weapon_type weapon_text entries.

(** A node without its upgrade recipe, and an upgrade entry without its
    primary ingredient quantity. *)
Definition forget_upgrade (n : WeaponDataNode) : WeaponDataNode :=
  {| binary := binary n; wtype := wtype n; name := name n; tree := tree n;
     craft := craft n; upgrade := None;
     parent := parent n; children := children n |}.

Definition forget_upgrades (m : store) : store := prod_map id forget_upgrade <$> m.

Definition clear_quantity (u : EqCusEntry) : EqCusEntry :=
  {| equip_type := equip_type u; equip_id := equip_id u; item1_qty := 0;
     descendant1_idx := descendant1_idx u; descendant2_idx := descendant2_idx u;
     descendant3_idx := descendant3_idx u; descendant4_idx := descendant4_idx u |}.

(** The loader built from the upgrade table without its quantities. *)
Definition clear_quantities (L : WeaponDataLoader) : WeaponDataLoader :=
  {| weapon_trees := weapon_trees L;
     crafting_data_map := crafting_data_map L;
     upgrade_data := clear_quantity <$> upgrade_data L;
     upgrade_data_map := clear_quantity <$> upgrade_data_map L |}.

(** ** Armor series *)

Record ArmorData := {
  a_binary : AmDatEntry;
  a_name : gmap string string;
  a_recipe : EqCrtEntry;
}.

Definition order (a : ArmorData) : Z := am_order (a_binary a).

(** Returns the armor part that this armor is part of. *)
Definition part (a : ArmorData) : result string :=
  index ["head"; "chest"; "arms"; "waist"; "legs"; "charm"]
        (am_equip_slot (a_binary a)).

Definition rank (a : ArmorData) : string :=
  if bool_decide (am_variant (a_binary a) = 0) then "LR" else "HR".

Record ArmorSetData := {
  s_name : gmap string string;
  armors : list ArmorData;
  s_order : Z;
  _armor_by_part : list (string * ArmorData);
}.

Definition ArmorSetData_init (name : gmap string string) (armors : list ArmorData)
    : result ArmorSetData :=
  least ← min_by order armors;
  by_part ← foldlM (λ acc a, p ← part a; Ok (od_set p a acc)) [] armors;
  Ok {| s_name := name; armors := armors; s_order := order least;
        _armor_by_part := by_part |}.

Definition get_part (s : ArmorSetData) (partname : string) : option ArmorData :=
  od_get partname (_armor_by_part s).

Definition s_rank (s : ArmorSetData) : result string :=
  a ← index (armors s) 0; Ok (rank a).

Definition rank_order (s : ArmorSetData) : result Z :=
  r ← s_rank s; Ok (if bool_decide (r = "LR") then 0 else 1).

(** The decoded inputs of [load_armor_series]. *)
Record ArmorFiles := {
  armor_text : gmap Z (gmap string string);
  armorset_text : gmap Z (gmap string string);
  armor_crt : list EqCrtEntry;
  armor_dat : list AmDatEntry;
}.

(** The first loop: one armor record into [armor_by_setid]. *)
Definition collect_armor (armor_text : gmap Z (gmap string string))
    (armor_craft_data : gmap Z EqCrtEntry)
    (armor_by_setid : list (Z * list ArmorData)) (armor_binary : AmDatEntry)
    : result (list (Z * list ArmorData)) :=
  name_dict ← getitem armor_text (am_gmd_name_index armor_binary);
  if bool_decide (name_dict = ∅) then Ok armor_by_setid else
  en ← getitem name_dict "en";
  if bool_decide (en = EmptyString) then Ok armor_by_setid else
  if bool_decide (am_set_id armor_binary = 0) then Ok armor_by_setid else
  if bool_decide (am_type armor_binary ≠ 0) then Ok armor_by_setid else
  if bool_decide (am_gender armor_binary = 0) then Ok armor_by_setid else
  if bool_decide (am_order armor_binary = 0) then Ok armor_by_setid else
  match armor_craft_data !! am_id armor_binary with
  | None => Ok armor_by_setid
  | Some craft_recipe =>
      let armor_data :=
        {| a_binary := armor_binary; a_name := name_dict;
           a_recipe := craft_recipe |} in
      let set_id := am_set_id armor_binary in
      let members := default [] (od_get set_id armor_by_setid) in
      Ok (od_set set_id (members ++ [armor_data]) armor_by_setid)
  end.

Definition lt_pair (x y : Z * Z) : bool :=
  pair_ltb Z.ltb Z.ltb x y.

(** [load_armor_series] up to and including [armor_sets.sort]. Each
    element is paired with its sort key [(rank_order, order)]. *)
Definition sorted_armor_sets (F : ArmorFiles) : result (list ArmorSetData) :=
  let armor_craft_data :=
    foldl (λ acc craft_entry, <[crt_equip_id craft_entry := craft_entry]> acc)
          ∅ (armor_crt F) in
  armor_by_setid ←
    foldlM (collect_armor (armor_text F) armor_craft_data) [] (armor_dat F);
  armor_sets ← forM (λ '(set_id, armors),
      series_name_dict ← getitem (armorset_text F) set_id;
      ArmorSetData_init series_name_dict armors) armor_by_setid;
  keyed ← forM (λ a, ro ← rank_order a; Ok ((ro, s_order a), a)) armor_sets;
  Ok ((sorted lt_pair fst keyed).*2).

(** The order of the final sort, read on the sets: rank first, low before
    high, then the derived order. *)
Definition by_rank_then_order (s1 s2 : ArmorSetData) : Prop :=
  ∃ r1 r2, rank_order s1 = Ok r1 ∧ rank_order s2 = Ok r2
           ∧ (r1 < r2 ∨ (r1 = r2 ∧ s_order s1 ≤ s_order s2)).

(** One step of the final dict comprehension. *)
Definition index_by_name (acc : list (string * ArmorSetData))
    (aset : ArmorSetData) : result (list (string * ArmorSetData)) :=
  en ← getitem (s_name aset) "en"; Ok (od_set en aset acc).

(** The returned dict, English set name -> set. *)
Definition load_armor_series (F : ArmorFiles)
    : result (list (string * ArmorSetData)) :=
  armor_sets ← sorted_armor_sets F;
  foldlM index_by_name [] armor_sets.

End Load.

(** ** WeaponTree: lookups and iteration *)

(* ================================================================== *)
(** * mhdata/merge/binary/load.py: the operations of a weapon tree *)
(* ================================================================== *)

Module Tree.
Import Py Load.

(** [WeaponTree.by_id] *)
Definition by_id (t : WeaponTree) (entry_id : Z) : result WeaponDataNode :=
  od_getitem (weapon_map t) entry_id.

(** [WeaponTree.by_name]; the by-name dict holds nodes of [weapon_map]. *)
Definition by_name (t : WeaponTree) (name_en : string) : option WeaponDataNode :=
  od_get name_en (weapon_map_by_name t) ≫= λ id, od_get id (weapon_map t).

(** [WeaponTree.crafted], the depth-first iteration. The stack is kept top
    first: [stack.pop()] takes the head, and [stack.extend(reversed(l))]
    puts [l] in front. The result is the sequence of yielded nodes, or
    [None] when the loop is still running after [fuel] iterations. *)
Fixpoint crafted_loop (fuel : nat) (m : store) (stack : list Z)
    : option (list Z) :=
  match stack with
  | [] => Some []
  | current_item :: stack =>
      match fuel with
      | O => None
      | S fuel =>
          let children := default [] (children_of m current_item) in
          (current_item ::.) <$> crafted_loop fuel m (children ++ stack)
      end
  end.

Definition crafted (fuel : nat) (t : WeaponTree) : option (list Z) :=
  crafted_loop fuel (weapon_map t) (roots t).

(** [WeaponTree.isolated] *)
Definition isolated (t : WeaponTree) : list Z := _isolated t.

(** A finite tree of node ids, to describe the shape of a store. *)
#[warnings="-register-all"]
Inductive rtree := Node (root : Z) (subtrees : list rtree).

Definition root (t : rtree) : Z := let 'Node r _ := t in r.
Definition subtrees (t : rtree) : list rtree := let 'Node _ ts := t in ts.

Fixpoint preorder (t : rtree) : list Z :=
  let 'Node r ts := t in r :: mjoin (preorder <$> ts).

Fixpoint nodes (t : rtree) : nat :=
  let 'Node _ ts := t in S (sum_list (nodes <$> ts)).

(** The children lists of the store are those of the tree, all the way
    down. *)
Fixpoint has_shape (m : store) (t : rtree) : Prop :=
  let 'Node r ts := t in
  children_of m r = Some (root <$> ts)
  ∧ foldr (λ t' rest, has_shape m t' ∧ rest) True ts.

End Tree.

(** ** ItemTextHandler and convert_recipe *)

Module Items.
Import Py.

(** A class that loads item text and tracks encountered items. The
    [OrderedSet] of [mhdata.util] is outside these sources: [encountered]
    holds the ids handed to its [add], in call order. *)
Record ItemTextHandler := {
  _item_text : gmap Z (gmap string string);
  encountered : list Z;
}.

Definition add (item_id : Z) (h : ItemTextHandler) : ItemTextHandler :=
  {| _item_text := _item_text h; encountered := encountered h ++ [item_id] |}.

(** The methods mutate the handler before they look the text up, so the
    handler is returned also when the lookup raises. *)
Definition name_for (h : ItemTextHandler) (item_id : Z)
    : result (gmap string string) * ItemTextHandler :=
  let h := add item_id h in
  (getitem (_item_text h) (item_id * 2), h).

Definition description_for (h : ItemTextHandler) (item_id : Z)
    : result (gmap string string) * ItemTextHandler :=
  let h := add item_id h in
  (getitem (_item_text h) (item_id * 2 + 1), h).

Definition text_for (h : ItemTextHandler) (item_id : Z)
    : result (gmap string string * gmap string string) * ItemTextHandler :=
  let h := add item_id h in
  (name ← getitem (_item_text h) (item_id * 2);
   description ← getitem (_item_text h) (item_id * 2 + 1);
   Ok (name, description), h).

(** The ingredient fields of a recipe binary (of type eq_cus/eq_crt). *)
Record RecipeBinary := {
  item1_id : Z; item1_qty : Z;
  item2_id : Z; item2_qty : Z;
  item3_id : Z; item3_qty : Z;
  item4_id : Z; item4_qty : Z;
}.

(** [getattr(recipe_binary, f'item{i}_id')] and [f'item{i}_qty'] for
    [i] = 1, ..., 4. *)
Definition ingredients (r : RecipeBinary) : list (Z * Z) :=
  [ (item1_id r, item1_qty r); (item2_id r, item2_qty r);
    (item3_id r, item3_qty r); (item4_id r, item4_qty r) ].

(** A value of the converted recipe: a name or a quantity, or [None]. *)
Inductive cell :=
| CName (item_name : option string)
| CQty (item_qty : option Z).

(** The loop of [convert_recipe], from slot [i] on. *)
Fixpoint convert_slots (i : nat) (slots : list (Z * Z))
    (new_data : list (string * cell)) (h : ItemTextHandler)
    : result (list (string * cell)) * ItemTextHandler :=
  match slots with
  | [] => (Ok new_data, h)
  | (item_id, item_qty) :: slots =>
      let '(item_name, h) :=
        if bool_decide (item_qty = 0) then (Ok None, h)
        else
          let '(name, h) := name_for h item_id in
          (name ← name; en ← getitem name "en"; Ok (Some en), h) in
      match item_name with
      | Raise e => (Raise e, h)
      | Ok item_name =>
          let new_data :=
            od_set ("item" +:+ pretty i +:+ "_name") (CName item_name) new_data in
          let new_data :=
            od_set ("item" +:+ pretty i +:+ "_qty")
                   (CQty (if bool_decide (item_qty ≠ 0) then Some item_qty else None))
                   new_data in
          convert_slots (S i) slots new_data h
      end
  end.

(** Converts a recipe binary to a dictionary. *)
Definition convert_recipe (item_text_handler : ItemTextHandler)
    (recipe_binary : RecipeBinary)
    : result (list (string * cell)) * ItemTextHandler :=
  convert_slots 1 (ingredients recipe_binary) [] item_text_handler.
End Items.

(* ================================================================== *)
(** * mhdata/load/validate.py *)
(* ================================================================== *)

Module Validate.
Import Py.

(** ** Values of the merged dataset *)

(** A field value whose Python type the rules inspect at run time. [PyObj]
    is a list or mapping of which only emptiness is observed. *)
Inductive pyval :=
| PyNone
| PyBool (b : bool)
| PyInt (z : Z)
| PyStr (s : string)
| PyObj (nonempty : bool).

#[global] Instance pyval_eq_dec : EqDecision pyval.
Proof. solve_decision. Defined.

(** [bool(v)] *)
Definition truthy (v : pyval) : bool :=
  match v with
  | PyNone => false
  | PyBool b => b
  | PyInt z => negb (bool_decide (z = 0))
  | PyStr s => negb (bool_decide (s = EmptyString))
  | PyObj nonempty => nonempty
  end.

(** [v == w]; [True] and [False] compare as [1] and [0]. *)
Definition py_eqb (v w : pyval) : bool :=
  match v, w with
  | PyBool a, PyInt z | PyInt z, PyBool a => bool_decide (z = if a then 1 else 0)
  | _, _ => bool_decide (v = w)
  end.

(** [v or w] *)
Definition py_or (v w : pyval) : pyval := if truthy v then v else w.

(** ** [cfg] and [datafn]

    Neither module is part of the validated sources; the constants and
    helpers that the rules read are parameters of the rules. *)

Record Cfg := {
  supported_ranks : list string;
  armor_parts : list string;
  weapon_types_melee : list string;
  weapon_types_gun : list string;
  HUNTING_HORN : string;
  BOW : string;
  (** [int(t) != t] for [t = attack / weapon_multiplier[weapon_type]],
      a floating-point quotient *)
  true_attack_suspicious : string → Z → bool;
  (** the text of that quotient in an f-string *)
  true_attack_text : string → Z → string;
}.

(** ** Entries *)

Record ItemCombination := {
  result : option string;
  first : option string;
  second : option string;
}.

Record LocationItem := { item_lang : string; item : string }.

Record Reward := {
  condition_en : string;
  rank : string;
  item_en : string;
  percentage : Z;
}.

Record Monster := {
  monster_name : gmap string string;
  has_hitzones : bool;                    (* 'hitzones' in entry *)
  monster_size : string;                  (* entry['size'] *)
  weaknesses : option (list string);      (* the keys of entry['weaknesses'] *)
  rewards : option (list Reward);
}.

Record Skill := {
  skill_name : gmap string string;
  levels : list Z;                        (* level['level'] of each level *)
}.

Record ArmorSet := {
  armorset_name : gmap string string;
  monster : option string;
  pieces : gmap string string;            (* part -> armor name, when set *)
}.

Record Armor := {
  armor_name : gmap string string;
  armor_recipe : list (string * Z);
  armor_skills : list (string * Z);
}.

Record Weapon := {
  weapon_name : gmap string string;
  weapon_type : string;
  category : string;
  craft : option (list (list (string * Z)));
  sharpness : pyval;
  notes : pyval;
  bow : pyval;
  ammo_config : pyval;
  element1 : pyval;
  element1_attack : pyval;
  element2 : pyval;
  phial : pyval;
  elderseal : pyval;
  attack : Z;
}.

(** A value of an ammo entry: a bullet mapping, or anything else. *)
Inductive AmmoValue :=
| AmmoOther
| AmmoMapping (data : gmap string pyval).

Record Charm := {
  charm_name : gmap string string;
  previous_en : option string;
}.

Record Named := { named : gmap string string }.

Record Datafn := {
  iter_armor_recipe : Armor → list (string * Z);
  iter_skill_points : Armor → list (string * Z);
  iter_setbonus_skills : list (string * Z) → list (string * Z);
  iter_weapon_recipe : list (string * Z) → list (string * Z);
}.

(** ** DataMap *)

(** Modelled from the spec: [mhdata.io.DataMap], the Localized Record Index,
    is not among the validated sources. It is "a bidirectional id<->name
    index per entity type, queryable by language, with stable
    insertion-order iteration": the entries by id in insertion order, each
    with its localized name. *)
Record DataMap (E : Type) := {
  entries : list (Z * E);
  name_of : E → gmap string string;
}.
Arguments entries {E} _.
Arguments name_of {E} _ _.

Section datamap.
Context {E : Type} (m : DataMap E).

Definition values : list E := (entries m).*2.
Definition items : list (Z * E) := entries m.

(** [entry.name(lang)] *)
Definition name (e : E) (lang : string) : string :=
  default EmptyString (name_of m e !! lang).

(** [m.names(lang)] *)
Definition names (lang : string) : list string :=
  omap (λ e, name_of m e !! lang) values.

(** [m.id_of(lang, name)]; [None] when no entry has that name. *)
Definition id_of (lang : string) (n : string) : option Z :=
  (λ found, found.2.1) <$>
    list_find (λ ie, name_of m ie.2 !! lang = Some n) (entries m).
End datamap.

Definition inb (x : string) (l : list string) : bool := bool_decide (x ∈ l).

Record MHData := {
  item_combinations : list ItemCombination;
  item_map : DataMap Named;
  location_map : DataMap (list LocationItem);        (* entry['items'] *)
  monster_map : DataMap Monster;
  monster_reward_conditions_map : DataMap Named;
  skill_map : DataMap Skill;
  armorset_map : DataMap ArmorSet;
  armor_map : DataMap Armor;
  armorset_bonus_map : DataMap (list (string * Z));
  weapon_map : DataMap Weapon;
  weapon_ammo_map : list (string * list (string * AmmoValue));
  charm_map : DataMap Charm;
}.

(** A [for] loop that threads local variables and writes output. *)
Fixpoint foldl_io {A S} (body : S → A → io S) (s : S) (l : list A) : io S :=
  match l with
  | [] => mret s
  | x :: r => s' ← body s x; foldl_io body s' r
  end.

(** [filter(None, names)] on optional names: drops [None] and the empty
    string. *)
Definition filter_none (l : list (option string)) : list string :=
  omap (λ o, o ≫= λ s, if bool_decide (s = EmptyString) then None else Some s) l.

(** ** validate_items *)

Definition validate_items (mhdata : MHData) : list string :=
  combo ← item_combinations mhdata;
  item ← filter_none [result combo; first combo; second combo];
  if inb item (names (item_map mhdata) "en") then []
  else [item +:+ " in combinations doesn't exist"].

(** ** validate_locations *)

Definition validate_locations (mhdata : MHData) : list string :=
  location_entry ← values (location_map mhdata);
  item_entry ← location_entry;
  let item_name := item item_entry in
  if inb item_name (names (item_map mhdata) (item_lang item_entry)) then []
  else [item_name +:+ " in location items doesn't exist"].

(** ** validate_monsters *)

Definition validate_monsters (mhdata : MHData) : io (list string) :=
  let monsters := monster_map mhdata in
  (* Check that all monsters have hitzones *)
  _ ← for_each (λ entry,
        ensure_warn (has_hitzones entry)
          ("Monster " +:+ name monsters entry "en" +:+ " missing hitzones"))
      (values monsters);
  (* Check that large monsters have weakness and normal is included *)
  foldl_io (λ errors entry,
      if bool_decide (monster_size entry = "small") then mret errors
      else
        let name := name monsters entry "en" in
        match weaknesses entry with
        | None =>
            _ ← print ("Warning: Large monster " +:+ name +:+
                       " does not contain a weakness entry");
            mret errors
        | Some states =>
            if inb "normal" states then mret errors
            else mret (errors ++ ["Invalid weaknesses in " +:+ name +:+
                                  ", normal is a required state"])
        end)
    [] (values monsters).

(** ** validate_monster_rewards *)

(** [("Quest Reward (Bronze)")]: parentheses without a comma, so a string. *)
Definition uncapped_conditions : string := "Quest Reward (Bronze)".

Definition rank_reward_key_fn (r : Reward) : string * string :=
  (rank r, condition_en r).

Definition key_ltb : string * string → string * string → bool :=
  pair_ltb str_ltb str_ltb.

(** The body of the loop over [entry['rewards']]; [st] is [(errors, valid)]. *)
Definition check_reward (C : Cfg) (mhdata : MHData) (monster_name : string)
    (st : gset string * bool) (reward : Reward) : gset string * bool :=
  let condition := condition_en reward in
  let rank := rank reward in
  (* ensure condition exists *)
  let st :=
    if inb condition (names (monster_reward_conditions_map mhdata) "en") then st
    else (st.1 ∪ {["Invalid condition " +:+ condition +:+ " in monster " +:+
                   monster_name]}, false) in
  let st :=
    if inb (item_en reward) (names (item_map mhdata) "en") then st
    else (st.1 ∪ {["Monster reward item " +:+ item_en reward +:+
                   " doesn't exist"]}, false) in
  if inb rank (supported_ranks C) then st
  else (st.1 ∪ {["Unsupported rank " +:+ rank +:+ " in " +:+ monster_name +:+
                 " rewards"]}, false).

Definition error_start (monster_name rank condition : string) : string :=
  let key_str := "(rank " +:+ rank +:+ " condition " +:+ condition +:+ ")" in
  "Rewards %'s for monster " +:+ monster_name +:+ " " +:+ key_str.

(** The body of the loop over the groups of [itertools.groupby]. *)
Definition check_percentage (monster_name : string)
    (group : (string * string) * list Reward) : io unit :=
  let '((rank, condition), items) := group in
  let percentage_sum := Z_sum (percentage <$> items) in
  if negb (str_contains uncapped_conditions condition) then
    ensure_warn (bool_decide (percentage_sum = 100))
      (error_start monster_name rank condition +:+ " does not sum to 100")
  else
    ensure_warn (bool_decide (100 ≤ percentage_sum))
      (error_start monster_name rank condition +:+
       " does not sum to at least 100").

Definition reward_groups (rewards : list Reward)
    : list ((string * string) * list Reward) :=
  groupby rank_reward_key_fn (sorted key_ltb rank_reward_key_fn rewards).

(** The body of the loop over [mhdata.monster_map.items()]. *)
Definition check_monster_rewards (C : Cfg) (mhdata : MHData)
    (errors : gset string) (entry : Monster) : io (gset string) :=
  match rewards entry with
  | None => mret errors
  | Some rewards =>
      let monster_name := name (monster_map mhdata) entry "en" in
      let '(errors, valid) :=
        foldl (check_reward C mhdata monster_name) (errors, true) rewards in
      if negb valid then mret errors
      else
        (* Ensure percentage is correct (at or greater than 100) *)
        _ ← for_each (check_percentage monster_name) (reward_groups rewards);
        mret errors
  end.

Definition validate_monster_rewards (C : Cfg) (mhdata : MHData)
    : io (gset string) :=
  foldl_io (check_monster_rewards C mhdata) ∅ (values (monster_map mhdata)).

(** ** validate_skills *)

(** The loop over [skill['levels']]; [st] is [(errors, encountered_levels)]. *)
Definition check_level (skill_name : string) (expected_max : Z)
    (st : list string * gset Z) (level_value : Z) : list string * gset Z :=
  if bool_decide (level_value < 0) || bool_decide (level_value > expected_max)
  then (st.1 ++ ["Skill " +:+ skill_name +:+ " has out of range effect " +:+
                 pretty level_value], st.2)
  else (st.1, st.2 ∪ {[level_value]}).

Definition skill_errors (skill : Skill) : list string :=
  let skill_name := default EmptyString (skill_name skill !! "en") in
  let expected_max := length (levels skill) in
  let '(errors, encountered_levels) :=
    foldl (check_level skill_name (Z.of_nat expected_max)) ([], ∅) (levels skill) in
  if bool_decide (size encountered_levels ≠ expected_max)
  then errors ++ ["Skill " +:+ skill_name +:+ " is missing effect levels"]
  else errors.

Definition validate_skills (mhdata : MHData) : list string :=
  skill ← values (skill_map mhdata); skill_errors skill.

(** ** validate_armor *)

(** The loop over the armor names of one set; [st] is
    [(errors, encountered_armors)]. *)
Definition check_set_armor (mhdata : MHData) (setname : string)
    (st : list string * gset Z) (armor_name : string) : list string * gset Z :=
  match id_of (armor_map mhdata) "en" armor_name with
  | Some armor_id =>
      if bool_decide (armor_id = 0) then
        (st.1 ++ ["Armorset " +:+ setname +:+ " has invalid armor " +:+ armor_name],
         st.2)
      else if bool_decide (armor_id ∈ st.2) then
        (st.1 ++ ["Armorset " +:+ setname +:+ " has duplicated armor " +:+
                  armor_name], st.2)
      else (st.1, st.2 ∪ {[armor_id]})
  | None =>
      (st.1 ++ ["Armorset " +:+ setname +:+ " has invalid armor " +:+ armor_name],
       st.2)
  end.

Definition check_armorset (C : Cfg) (mhdata : MHData)
    (st : list string * gset Z) (setentry : ArmorSet) : io (list string * gset Z) :=
  let setname := name (armorset_map mhdata) setentry "en" in
  let errors :=
    match monster setentry with
    | Some monster_name =>
        if negb (bool_decide (monster_name = EmptyString)) &&
           negb (inb monster_name (names (monster_map mhdata) "en"))
        then st.1 ++ ["Armorset " +:+ setname +:+ " has invalid monster " +:+
                      monster_name]
        else st.1
    | None => st.1
    end in
  (* All armor pieces in the set *)
  let armor_names :=
    filter_none ((λ part, pieces setentry !! part) <$> armor_parts C) in
  _ ← (if bool_decide (armor_names = [])
       then print ("Warning: " +:+ setname +:+ " has no armor entries")
       else mret ());
  mret (foldl (check_set_armor mhdata setname) (errors, st.2) armor_names).

Definition armor_errors (D : Datafn) (mhdata : MHData)
    (encountered_armors : gset Z) (ie : Z * Armor) : list string :=
  let '(id, armor_entry) := ie in
  (* Ensure that all armor items were encountered *)
  (if bool_decide (id ∈ encountered_armors) then []
   else ["Armor " +:+ name (armor_map mhdata) armor_entry "en" +:+
         " is not in an armor set"]) ++
  (* Ensure items exist *)
  ('(item_name, _) ← iter_armor_recipe D armor_entry;
   if inb item_name (names (item_map mhdata) "en") then []
   else ["Item " +:+ item_name +:+ " in armors does not exist"]) ++
  (* Ensure skills exist *)
  ('(skill_name, _) ← iter_skill_points D armor_entry;
   if inb skill_name (names (skill_map mhdata) "en") then []
   else ["Skill " +:+ skill_name +:+ " in armors does not exist"]).

Definition validate_armor (C : Cfg) (D : Datafn) (mhdata : MHData)
    : io (list string) :=
  (* Validate armorsets *)
  '(errors, encountered_armors) ←
    foldl_io (check_armorset C mhdata) ([], ∅) (values (armorset_map mhdata));
  (* Validate Armor *)
  let errors :=
    errors ++ (ie ← items (armor_map mhdata);
               armor_errors D mhdata encountered_armors ie) in
  (* Validate Armorset bonuses *)
  mret (errors ++
    (bonus_entry ← values (armorset_bonus_map mhdata);
     '(skill_name, _) ← iter_setbonus_skills D bonus_entry;
     if inb skill_name (names (skill_map mhdata) "en") then []
     else ["Skill " +:+ skill_name +:+ " in set bonuses does not exist"])).

(** ** validate_weapons *)

Definition recipe_errors (D : Datafn) (mhdata : MHData) (name : string)
    (entry : Weapon) : list string :=
  if bool_decide (category entry ≠ "Kulve") then
    match craft entry with
    | None | Some [] => ["Weapon " +:+ name +:+ " does not have any recipes"]
    | Some recipes =>
        (* Check if items in the recipe exist *)
        recipe ← recipes;
        '(item, quantity) ← iter_weapon_recipe D recipe;
        if inb item (names (item_map mhdata) "en") then []
        else ["Weapon " +:+ name +:+ " has invalid item " +:+ item +:+
              " in a recipe"]
    end
  else [].

Definition ammo_config_errors (C : Cfg) (mhdata : MHData) (name : string)
    (entry : Weapon) : list string :=
  if inb (weapon_type entry) (weapon_types_gun C) then
    if negb (truthy (ammo_config entry)) then
      ["Weapon " +:+ name +:+ " is missing ammo config"]
    else if negb (bool_decide (ammo_config entry ∈
                    PyStr <$> (weapon_ammo_map mhdata).*1)) then
      ["Weapon " +:+ name +:+ " has invalid ammo config"]
    else []
  else [].

Definition is_dragon (entry : Weapon) : bool :=
  bool_decide (element1 entry = PyStr "Dragon") ||
  bool_decide (element2 entry = PyStr "Dragon") ||
  bool_decide (phial entry = PyStr "dragon").

(** The sharpness, notes and bow checks. *)
Definition weapon_kind_errors (C : Cfg) (name : string) (entry : Weapon)
    : list string :=
  let weapon_type := weapon_type entry in
  (if inb weapon_type (weapon_types_melee C) && negb (truthy (sharpness entry))
   then ["Melee weapon " +:+ name +:+ " does not have a sharpness value"]
   else []) ++
  (if bool_decide (weapon_type = HUNTING_HORN C) && negb (truthy (notes entry))
   then ["Hunting horn " +:+ name +:+ " is missing a notes value"]
   else []) ++
  (if bool_decide (weapon_type = BOW C) && negb (truthy (bow entry))
   then ["Weapon " +:+ name +:+ " is missing bow data"]
   else []).

(** The element and elderseal checks. *)
Definition element_errors (name : string) (entry : Weapon) : list string :=
  (if truthy (element1 entry) &&
      py_eqb (py_or (element1_attack entry) (PyInt 0)) (PyInt 0)
   then ["Weapon " +:+ name +:+ " has an element but is missing an attack value"]
   else []) ++
  (* Test that dragon has elderseal and vice versa *)
  (let has_elderseal := negb (bool_decide (elderseal entry = PyNone)) in
   (if has_elderseal && negb (is_dragon entry)
    then ["Weapon " +:+ name +:+ " has elderseal but no dragon element"]
    else []) ++
   (if is_dragon entry && negb has_elderseal
    then ["Weapon " +:+ name +:+ " has a dragon element but no elderseal"]
    else [])).

(** The errors appended by one iteration of the loop over the weapons. *)
Definition weapon_errors (C : Cfg) (D : Datafn) (mhdata : MHData)
    (entry : Weapon) : list string :=
  let name := name (weapon_map mhdata) entry "en" in
  recipe_errors D mhdata name entry ++
  weapon_kind_errors C name entry ++
  ammo_config_errors C mhdata name entry ++
  element_errors name entry.

Definition check_weapon (C : Cfg) (D : Datafn) (mhdata : MHData)
    (errors : list string) (entry : Weapon) : io (list string) :=
  let errors := errors ++ weapon_errors C D mhdata entry in
  _ ← (if true_attack_suspicious C (weapon_type entry) (attack entry)
       then print ("WARNING: Weapon " +:+ name (weapon_map mhdata) entry "en" +:+
                   " has a suspicious true attack value " +:+
                   true_attack_text C (weapon_type entry) (attack entry))
       else mret ());
  mret errors.

(** One bullet type of one ammo entry. *)
Definition bullet_errors (name key : string) (value : AmmoValue) : list string :=
  match value with
  | AmmoOther => []
  | AmmoMapping data =>
      match data !! "clip" with
      | None => []
      | Some clip =>
          if py_eqb clip (PyInt 0) then
            (* This bullet exists, so make sure other parameters make sense *)
            (if py_eqb (default (PyBool false) (data !! "rapid")) (PyBool true)
             then [name +:+ " has invalid rapid value for " +:+ key] else []) ++
            (if truthy (default PyNone (data !! "recoil"))
             then [name +:+ " has invalid recoil value for " +:+ key] else []) ++
            (if truthy (default PyNone (data !! "reload"))
             then [name +:+ " has invalid reload value for " +:+ key] else [])
          else
            (if bool_decide (is_Some (data !! "recoil")) &&
                negb (truthy (default PyNone (data !! "recoil")))
             then [name +:+ " is missing recoil value for " +:+ key] else []) ++
            (if negb (truthy (default PyNone (data !! "reload")))
             then [name +:+ " is missing reload value for " +:+ key] else [])
      end
  end.

Definition validate_weapons (C : Cfg) (D : Datafn) (mhdata : MHData)
    : io (list string) :=
  errors ← foldl_io (check_weapon C D mhdata) [] (values (weapon_map mhdata));
  (* Validate weapon ammo settings *)
  mret (errors ++
    ('(name, ammo_entry) ← weapon_ammo_map mhdata;
     '(key, data) ← ammo_entry;
     bullet_errors name key data)).

(** ** validate_charms *)

Definition validate_charms (mhdata : MHData) : list string :=
  let names := names (charm_map mhdata) "en" in
  entry ← values (charm_map mhdata);
  match previous_en entry with
  | Some previous_entry =>
      if inb previous_entry names then []
      else ["Charm " +:+ previous_entry +:+ " for previous_en does not exist"]
  | None => []
  end.

(** ** validate *)

(** The list [errors] that [validate] collects from the eight rules, in the
    order of the calls. [validate_monster_rewards] returns a set, which
    [extend] walks in an order that Python leaves open; [elements] fixes
    one, and nothing below depends on it. *)
Definition collect_errors (C : Cfg) (D : Datafn) (mhdata : MHData)
    : io (list string) :=
  let errors := [] in
  let errors := errors ++ validate_items mhdata in
  let errors := errors ++ validate_locations mhdata in
  found ← validate_monsters mhdata;
  let errors := errors ++ found in
  found ← validate_monster_rewards C mhdata;
  let errors := errors ++ elements found in
  let errors := errors ++ validate_skills mhdata in
  found ← validate_armor C D mhdata;
  let errors := errors ++ found in
  found ← validate_weapons C D mhdata;
  let errors := errors ++ found in
  let errors := errors ++ validate_charms mhdata in
  mret errors.

(** Perform all validations, print out the errors, and return if it
    succeeded or not. *)
Definition validate (C : Cfg) (D : Datafn) (mhdata : MHData) : io bool :=
  errors ← collect_errors C D mhdata;
  if bool_decide (errors ≠ []) then
    _ ← for_each (λ error, print ("ERROR: " +:+ error)) errors;
    mret false
  else mret true.
End Validate.

(* ================================================================== *)
(** * Sample data *)
(* ================================================================== *)

Module Samples.
Import Py Validate.

Definition en (s : string) : gmap string string := {[ "en" := s ]}.

Definition named_map (l : list string) : DataMap Named :=
  {| entries := imap (λ i s, (Z.of_nat (S i), {| named := en s |})) l;
     name_of := named |}.

Definition cfg : Cfg :=
  {| supported_ranks := ["LR"; "HR"];
     armor_parts := ["head"; "chest"; "arms"; "waist"; "legs"];
     weapon_types_melee := ["great-sword"; "long-sword"];
     weapon_types_gun := ["light-bowgun"; "heavy-bowgun"];
     HUNTING_HORN := "hunting-horn";
     BOW := "bow";
     true_attack_suspicious := λ _ _, false;
     true_attack_text := λ _ _, EmptyString |}.

Definition datafn : Datafn :=
  {| iter_armor_recipe := armor_recipe;
     iter_skill_points := armor_skills;
     iter_setbonus_skills := λ l, l;
     iter_weapon_recipe := λ l, l |}.

(** A dataset with items and reward conditions only. *)
Definition empty_data : MHData :=
  {| item_combinations := [];
     item_map := named_map ["Iron Ore"; "Monster Bone S"; "Rath Scale"];
     location_map := {| entries := []; name_of := λ _, ∅ |};
     monster_map := {| entries := []; name_of := monster_name |};
     monster_reward_conditions_map :=
       named_map ["Capture"; "Carve"; "Bronze"; "Quest Reward (Bronze)"];
     skill_map := {| entries := []; name_of := skill_name |};
     armorset_map := {| entries := []; name_of := armorset_name |};
     armor_map := {| entries := []; name_of := armor_name |};
     armorset_bonus_map := {| entries := []; name_of := λ _, ∅ |};
     weapon_map := {| entries := []; name_of := weapon_name |};
     weapon_ammo_map := [];
     charm_map := {| entries := []; name_of := charm_name |} |}.

Definition with_skills (l : list Skill) (d : MHData) : MHData :=
  {| item_combinations := item_combinations d; item_map := item_map d;
     location_map := location_map d; monster_map := monster_map d;
     monster_reward_conditions_map := monster_reward_conditions_map d;
     skill_map := {| entries := imap (λ i s, (Z.of_nat (S i), s)) l;
                     name_of := skill_name |};
     armorset_map := armorset_map d; armor_map := armor_map d;
     armorset_bonus_map := armorset_bonus_map d; weapon_map := weapon_map d;
     weapon_ammo_map := weapon_ammo_map d; charm_map := charm_map d |}.

Definition with_monsters (l : list Monster) (d : MHData) : MHData :=
  {| item_combinations := item_combinations d; item_map := item_map d;
     location_map := location_map d;
     monster_map := {| entries := imap (λ i s, (Z.of_nat (S i), s)) l;
                       name_of := monster_name |};
     monster_reward_conditions_map := monster_reward_conditions_map d;
     skill_map := skill_map d;
     armorset_map := armorset_map d; armor_map := armor_map d;
     armorset_bonus_map := armorset_bonus_map d; weapon_map := weapon_map d;
     weapon_ammo_map := weapon_ammo_map d; charm_map := charm_map d |}.

Definition with_weapons (l : list Weapon) (d : MHData) : MHData :=
  {| item_combinations := item_combinations d; item_map := item_map d;
     location_map := location_map d; monster_map := monster_map d;
     monster_reward_conditions_map := monster_reward_conditions_map d;
     skill_map := skill_map d;
     armorset_map := armorset_map d; armor_map := armor_map d;
     armorset_bonus_map := armorset_bonus_map d;
     weapon_map := {| entries := imap (λ i s, (Z.of_nat (S i), s)) l;
                      name_of := weapon_name |};
     weapon_ammo_map := weapon_ammo_map d; charm_map := charm_map d |}.

Definition skill (n : string) (l : list Z) : Skill :=
  {| skill_name := en n; levels := l |}.

Definition reward (r c i : string) (p : Z) : Reward :=
  {| condition_en := c; rank := r; item_en := i; percentage := p |}.

Definition large_monster (n : string) (rs : list Reward) : Monster :=
  {| monster_name := en n; has_hitzones := true; monster_size := "large";
     weaknesses := Some ["normal"]; rewards := Some rs |}.

(** Capture rewards 40/35/25, and the same group summing to 90. *)
Definition rathalos_100 : Monster :=
  large_monster "Rathalos"
    [reward "LR" "Capture" "Rath Scale" 40;
     reward "LR" "Capture" "Monster Bone S" 35;
     reward "LR" "Capture" "Iron Ore" 25].


(** A light bowgun that declares no ammo configuration. *)
Definition bowgun_without_ammo : Weapon :=
  {| weapon_name := en "Chain Blitz I"; weapon_type := "light-bowgun";
     category := "Ore"; craft := Some [[("Iron Ore", 1)]];
     sharpness := PyNone; notes := PyNone; bow := PyNone;
     ammo_config := PyNone;
     element1 := PyNone; element1_attack := PyNone; element2 := PyNone;
     phial := PyNone; elderseal := PyNone; attack := 130 |}.



(** *** Weapons: eight great swords and their upgrade table *)

Definition cus (id : Z) (qty : Z) (d1 d2 d3 d4 : nat) : Load.EqCusEntry :=
  {| Load.equip_type := 0; Load.equip_id := id; Load.item1_qty := qty;
     Load.descendant1_idx := d1; Load.descendant2_idx := d2;
     Load.descendant3_idx := d3; Load.descendant4_idx := d4 |}.

(** Position in the table is what a descendant slot names. Weapon 101 has
    slots [5,0,0,0] and a zero-quantity recipe, 102 has [0,0,0,0], 104 has
    [3,7,0,0], and 105 is a final tier with a second-slot descendant. *)
Definition upgrade_table : list Load.EqCusEntry :=
  [ cus 100 2 0 0 0 0; cus 101 0 5 0 0 0; cus 102 3 0 0 0 0;
    cus 103 1 0 0 0 0; cus 104 4 3 7 0 0; cus 105 2 0 6 0 0;
    cus 106 1 0 0 0 0; cus 107 1 0 0 0 0 ].

(** The same table with other quantities. *)
Definition upgrade_table' : list Load.EqCusEntry :=
  [ cus 100 2 0 0 0 0; cus 101 9 5 0 0 0; cus 102 0 0 0 0 0;
    cus 103 1 0 0 0 0; cus 104 0 3 7 0 0; cus 105 2 0 6 0 0;
    cus 106 1 0 0 0 0; cus 107 1 0 0 0 0 ].

Definition sword (id tree_id : Z) : Load.WpDatEntry :=
  {| Load.wp_id := id; Load.wp_gmd_name_index := id; Load.wp_tree_id := tree_id |}.

Definition swords : list Load.WpDatEntry :=
  [ sword 100 0; sword 101 1; sword 102 0; sword 103 0;
    sword 104 2; sword 105 0; sword 106 0; sword 107 0 ].

Definition sword_text : gmap Z (gmap string string) :=
  list_to_map [ (100, en "Buster Sword"); (101, en "Iron Sword I");
                (102, en "Iron Sword II"); (103, en "Bone Blade I");
                (104, en "Bone Blade II"); (105, en "Steel Sword");
                (106, en "Chrome Razor"); (107, en "Bone Slasher") ].

Definition tree_text : gmap Z (gmap string string) :=
  list_to_map [ (1, en "Ore Tree"); (2, en "Bone Tree") ].

Definition sword_loader : Load.WeaponDataLoader :=
  {| Load.weapon_trees := tree_text;
     Load.crafting_data_map := ∅;
     Load.upgrade_data := upgrade_table;
     Load.upgrade_data_map :=
       list_to_map ((λ u, ((Load.GREAT_SWORD, Load.equip_id u), u)) <$> upgrade_table) |}.

(** The nodes and the slots after the first pass. *)
Definition sword_nodes : list (Z * Load.WeaponDataNode) :=
  (λ b : Load.WpDatEntry,
     (Load.wp_id b,
      Load.new_node b Load.GREAT_SWORD (en (default EmptyString
          (sword_text !! Load.wp_id b ≫= λ n, n !! "en")))
        (tree_text !! Load.wp_tree_id b ≫= λ n, n !! "en") None
        (upgrade_table !! Z.to_nat (Load.wp_id b - 100)
           ≫= λ u, if bool_decide (Load.item1_qty u = 0) then None else Some u)))
  <$> swords.

Definition sword_slots : gmap Z (nat * nat * nat * nat) :=
  list_to_map ((λ u, (Load.equip_id u, Load.descendant_slots u)) <$> upgrade_table).

(** *** Armor: three one-piece sets *)

Definition armor (id set_id order variant : Z) : Load.AmDatEntry :=
  {| Load.am_id := id; Load.am_gmd_name_index := id; Load.am_set_id := set_id;
     Load.am_type := 0; Load.am_gender := 3; Load.am_order := order;
     Load.am_variant := variant; Load.am_equip_slot := 0 |}.

Definition armor_recipe_of (id : Z) : Load.EqCrtEntry :=
  {| Load.crt_equip_type := 0; Load.crt_equip_id := id; Load.crt_item1_qty := 1 |}.

(** A high-rank set decoded first, then two low-rank sets. *)
Definition armor_files (third_series : string) : Load.ArmorFiles :=
  {| Load.armor_text :=
       list_to_map [ (1, en "Leather Headgear"); (2, en "Chainmail Headgear");
                     (3, en "Hunter's Headgear") ];
     Load.armorset_text :=
       list_to_map [ (1, en "Leather"); (2, en "Chainmail"); (3, en third_series) ];
     Load.armor_crt := armor_recipe_of <$> [1; 2; 3];
     Load.armor_dat := [ armor 3 3 30 1; armor 2 2 20 0; armor 1 1 10 0 ] |}.

(** *** Weapon trees: a child that precedes its parent in the file *)

(** Weapon 101 upgrades into 102 and 102 into 103; the record of 102 comes
    first, and only 101 has a tree id. *)
Definition chain_table : list Load.EqCusEntry :=
  [ cus 101 1 1 0 0 0; cus 102 1 2 0 0 0; cus 103 1 0 0 0 0 ].

Definition chain_loader : Load.WeaponDataLoader :=
  {| Load.weapon_trees := tree_text;
     Load.crafting_data_map := ∅;
     Load.upgrade_data := chain_table;
     Load.upgrade_data_map :=
       list_to_map ((λ u, ((Load.GREAT_SWORD, Load.equip_id u), u)) <$> chain_table) |}.

Definition chain_swords : list Load.WpDatEntry :=
  [ sword 102 0; sword 101 1; sword 103 0 ].
End Samples.

Module MoreSamples.

(** *** Weapon trees: further upgrade tables *)

Import Py Load Tree Samples.

Definition loader_of (table : list EqCusEntry) : WeaponDataLoader :=
  {| weapon_trees := tree_text;
     crafting_data_map := ∅;
     upgrade_data := table;
     upgrade_data_map :=
       list_to_map ((λ u, ((GREAT_SWORD, equip_id u), u)) <$> table) |}.

(** Slot 1 of weapon 100 names position 1 of the table, the entry of weapon
    200, which has no weapon record. *)
Definition dangling_table : list EqCusEntry :=
  [ cus 100 2 1 0 0 0; cus 200 1 0 0 0 0 ].

(** Weapon 100 upgrades into 101, 101 into 102 and 102 back into 101. *)
Definition cyclic_table : list EqCusEntry :=
  [ cus 100 1 1 0 0 0; cus 101 1 2 0 0 0; cus 102 1 1 0 0 0 ].

Definition cyclic_swords : list WpDatEntry :=
  [ sword 100 1; sword 101 0; sword 102 0 ].

(** The two trees below the roots of the eight great swords. *)
Definition sword_forest : list rtree :=
  [ Node 101 [ Node 105 [ Node 106 [] ] ];
    Node 104 [ Node 103 []; Node 107 [] ] ].

(** *** Armor: records that the loader skips *)

Definition piece (id set_id order : Z) (slot : nat) (gender : Z) : AmDatEntry :=
  {| am_id := id; am_gmd_name_index := id; am_set_id := set_id; am_type := 0;
     am_gender := gender; am_order := order; am_variant := 0;
     am_equip_slot := slot |}.

(** Two pieces of set 1; a charm without set, a piece without order, one
    without gender and one without crafting entry; then two helmets of
    set 2. *)
Definition mixed_armor : ArmorFiles :=
  {| armor_text :=
       list_to_map [ (1, en "Leather Headgear"); (2, en "Leather Mail");
                     (3, en "Poison Charm"); (4, en "Chainmail Vest");
                     (5, en "Chainmail Gloves"); (6, en "Chainmail Belt");
                     (7, en "Chainmail Headgear"); (8, en "Chainmail Hood") ];
     armorset_text := list_to_map [ (1, en "Leather"); (2, en "Chainmail") ];
     armor_crt := armor_recipe_of <$> [1; 2; 3; 4; 5; 7; 8];
     armor_dat := [ piece 1 1 10 0 3; piece 2 1 11 1 3; piece 3 0 12 5 3;
                    piece 4 2 0 1 3; piece 5 2 20 2 0; piece 6 2 21 3 3;
                    piece 7 2 22 0 3; piece 8 2 23 0 3 ] |}.

Definition helmet (id : Z) (n : string) : ArmorData :=
  {| a_binary := piece id 2 (15 + id) 0 3; a_name := en n;
     a_recipe := armor_recipe_of id |}.

(** *** Recipes *)

(** Item texts: the name of item [i] is at index [2 i]. *)
Definition item_handler : Items.ItemTextHandler :=
  {| Items._item_text := list_to_map [ (2, en "Iron Ore"); (4, en "Monster Bone S") ];
     Items.encountered := [] |}.

(** Two ingredients with a quantity; item 9 has no text. *)
Definition recipe (second_qty : Z) : Items.RecipeBinary :=
  {| Items.item1_id := 1; Items.item1_qty := 2;
     Items.item2_id := 9; Items.item2_qty := second_qty;
     Items.item3_id := 2; Items.item3_qty := 1;
     Items.item4_id := 0; Items.item4_qty := 0 |}.
End MoreSamples.

(* ================================================================== *)
(** * Properties *)
(* ================================================================== *)

Import Py.
Import Load Validate.

(** ** The output monad *)

Lemma io_bind_fst {A B} (m : io A) (f : A → io B) : (m ≫= f).1 = (f m.1).1.
Proof. unfold mbind, io_bind. by destruct (f m.1). Qed.

Lemma io_bind_snd {A B} (m : io A) (f : A → io B) :
  (m ≫= f).2 = m.2 ++ (f m.1).2.
Proof. unfold mbind, io_bind. by destruct (f m.1). Qed.

Lemma io_ret_fst {A} (a : A) : (mret a : io A).1 = a.
Proof. reflexivity. Qed.

Lemma io_ret_snd {A} (a : A) : (mret a : io A).2 = [].
Proof. reflexivity. Qed.

Lemma for_each_snd {A} (body : A → io unit) (l : list A) :
  (for_each body l).2 = l ≫= λ x, (body x).2.
Proof.
  induction l as [|x l IH]; [done|].
  cbn [for_each]. by rewrite io_bind_snd, IH.
Qed.

Ltac io_simpl := rewrite ?io_bind_fst, ?io_bind_snd, ?io_ret_fst, ?io_ret_snd.

(** ** Strings *)

Lemma append_nil (s : string) : EmptyString +:+ s = s.
Proof. reflexivity. Qed.

Lemma append_cons (c : Ascii.ascii) (s t : string) :
  String c s +:+ t = String c (s +:+ t).
Proof. reflexivity. Qed.

(** Normalises a concatenation whose left operands are literals. *)
Ltac str_norm := rewrite ?append_cons, ?append_nil.
Ltac str_norm_in H := rewrite ?append_cons, ?append_nil in H.

Lemma append_assoc (a b c : string) : (a +:+ b) +:+ c = a +:+ (b +:+ c).
Proof. induction a as [|x a IH]; str_norm; [done | by rewrite IH]. Qed.

Lemma append_inv_head (p a b : string) : p +:+ a = p +:+ b → a = b.
Proof. apply (inj (String.app p)). Qed.

Lemma startswith_spec (p s : string) :
  startswith p s = true ↔ ∃ post, s = p +:+ post.
Proof.
  revert s. induction p as [|a p IH]; intros s; simpl.
  - split; [intros _; by exists s | done].
  - destruct s as [|b s].
    + split; [done | intros [post [=]]].
    + rewrite andb_true_iff, bool_decide_eq_true, IH. split.
      * intros [-> [post ->]]. by exists post.
      * intros [post [= -> ->]]. eauto.
Qed.

(** [str_contains] is Python's substring test. *)
Lemma str_contains_spec (s sub : string) :
  str_contains s sub = true ↔ ∃ pre post, s = pre +:+ sub +:+ post.
Proof.
  induction s as [|a s IH].
  - simpl. rewrite orb_false_r, startswith_spec. split.
    + intros [post ->]. by exists EmptyString, post.
    + intros [[|x pre] [post Heq]]; [by exists post | done].
  - cbn [str_contains]. rewrite orb_true_iff, startswith_spec, IH. split.
    + intros [[post ->] | (pre & post & ->)].
      * by exists EmptyString, post.
      * by exists (String a pre), post.
    + intros [[|x pre] [post Heq]].
      * left. by exists post.
      * right. injection Heq as -> ->. by exists pre, post.
Qed.

(** ** Orders *)

#[global] Instance Z_ltb_total : TotalLtb Z.ltb.
Proof. split; intros *; rewrite ?Z.ltb_lt, ?Z.ltb_ge; lia. Qed.

Lemma str_ltb_leb (s t : string) : str_ltb s t = negb (String.leb t s).
Proof.
  unfold str_ltb, String.leb. rewrite (String.compare_antisym t s).
  by destruct (String.compare s t).
Qed.

#[global] Instance str_ltb_total : TotalLtb str_ltb.
Proof.
  split; intros *; rewrite !str_ltb_leb, ?negb_true_iff, ?negb_false_iff.
  - apply Is_true_true_1. apply (reflexivity (R := String.le)).
  - intros Hba. destruct (String.leb_total a b) as [H|H]; [done | congruence].
  - intros H1%Is_true_true_2 H2%Is_true_true_2. apply Is_true_true_1.
    exact (transitivity (R := String.le) H1 H2).
  - intros H1%Is_true_true_2 H2%Is_true_true_2.
    exact (anti_symm String.le _ _ H2 H1).
Qed.

#[global] Instance pair_ltb_total {A B} `{EqDecision A}
    (lta : A → A → bool) (ltb : B → B → bool)
    `{!TotalLtb lta, !TotalLtb ltb} : TotalLtb (pair_ltb lta ltb).
Proof.
  split; unfold pair_ltb.
  - intros [a b]. cbn. rewrite decide_True by done. apply ltb_irrefl.
  - intros [a b] [a' b']; cbn. repeat case_decide; try congruence; apply ltb_asym.
  - intros [a b] [a' b'] [a'' b'']; cbn.
    repeat case_decide; subst; try congruence; intros Hle1 Hle2;
      try (by eapply ltb_le_trans).
    + exfalso. by apply (ltb_le_antisym (ltb := lta)) in Hle1.
  - intros [a b] [a' b']; cbn. repeat case_decide; subst; try congruence.
    + intros Hle1 Hle2. f_equal. by apply (ltb_le_antisym (ltb := ltb)).
    + intros Hle1 Hle2. exfalso. by apply (ltb_le_antisym (ltb := lta)) in Hle1.
Qed.

#[global] Instance key_ltb_total : TotalLtb key_ltb.
Proof. apply pair_ltb_total; apply _. Qed.

#[global] Instance lt_pair_total : TotalLtb Load.lt_pair.
Proof. apply pair_ltb_total; apply _. Qed.

(** ** Sorting and grouping *)

Lemma filter_none_of {A} (P : A → Prop) `{∀ x, Decision (P x)} (l : list A) :
  (∀ x, x ∈ l → ¬ P x) → filter P l = [].
Proof.
  induction l as [|y l IH]; [done|]. intros Hall.
  rewrite filter_cons_False by (apply Hall; by left).
  apply IH. intros x Hx. apply Hall. by right.
Qed.

Section sorting_facts.
Context {A K : Type} (ltb : K → K → bool) (key : A → K).
Context `{!TotalLtb ltb} `{EqDecision K}.

#[local] Abbreviation key_le := (λ x y : A, ltb (key y) (key x) = false).

Lemma insert_sorted_Permutation (x : A) (l : list A) :
  insert_sorted ltb key x l ≡ₚ x :: l.
Proof.
  induction l as [|y l IH]; [done|]. cbn [insert_sorted].
  destruct (ltb (key y) (key x)); [|done].
  rewrite IH. apply Permutation_swap.
Qed.

Lemma sorted_Permutation (l : list A) : sorted ltb key l ≡ₚ l.
Proof.
  induction l as [|x l IH]; [done|]. cbn [sorted foldr].
  rewrite insert_sorted_Permutation. by f_equiv.
Qed.

Lemma insert_sorted_StronglySorted (x : A) (l : list A) :
  StronglySorted key_le l → StronglySorted key_le (insert_sorted ltb key x l).
Proof.
  induction 1 as [|y l Hl IH Hy]; cbn [insert_sorted].
  - repeat constructor.
  - destruct (ltb (key y) (key x)) eqn:Hyx.
    + constructor; [done|]. rewrite insert_sorted_Permutation.
      constructor; [by apply ltb_asym | done].
    + constructor; [by constructor|]. constructor; [done|].
      eapply Forall_impl; [exact Hy|]. intros z Hz. cbn in *.
      by apply (ltb_le_trans (ltb := ltb) _ (key y)).
Qed.

Lemma sorted_StronglySorted (l : list A) :
  StronglySorted key_le (sorted ltb key l).
Proof.
  induction l as [|x l IH]; [constructor|].
  by apply insert_sorted_StronglySorted.
Qed.





End sorting_facts.

(** ** validate_skills *)

Section skills.
Variables (skill_name : string) (expected_max : Z).

#[local] Abbreviation level_in_range :=
  (λ level_value : Z, 0 ≤ level_value ≤ expected_max).

Lemma check_level_errors (levels : list Z) (errors : list string) (seen : gset Z) :
  (foldl (check_level skill_name expected_max) (errors, seen) levels).1 = []
  ↔ errors = [] ∧ Forall level_in_range levels.
Proof.
  revert errors seen. induction levels as [|l levels IH]; intros errors seen.
  - simpl. split; [by intros -> | by intros [-> _]].
  - cbn [foldl]. unfold check_level at 2. cbn [fst snd].
    destruct (bool_decide (l < 0) || bool_decide (l > expected_max)) eqn:Hout.
    + rewrite IH. split.
      * intros [Hnil _]. by destruct errors.
      * intros [_ Hall]. inversion_clear Hall as [|? ? [? ?]].
        apply orb_true_iff in Hout as [?%bool_decide_eq_true|?%bool_decide_eq_true]; lia.
    + rewrite IH. apply orb_false_iff in Hout as [H1%bool_decide_eq_false H2%bool_decide_eq_false].
      split.
      * intros [-> Hall]. split; [done|]. constructor; [lia | done].
      * intros [-> Hall]. by inversion_clear Hall.
Qed.

Lemma check_level_seen (levels : list Z) (errors : list string) (seen : gset Z) :
  Forall level_in_range levels →
  (foldl (check_level skill_name expected_max) (errors, seen) levels).2
  = seen ∪ list_to_set levels.
Proof.
  revert errors seen. induction levels as [|l levels IH]; intros errors seen Hall.
  - simpl. set_solver.
  - inversion_clear Hall as [|? ? [? ?] Hrest].
    cbn [foldl]. unfold check_level at 2. cbn [fst snd].
    rewrite !bool_decide_eq_false_2 by lia. cbn [orb].
    rewrite IH by done. set_solver.
Qed.
End skills.

Lemma size_list_to_set_le (l : list Z) :
  (size (list_to_set (C := gset Z) l) ≤ length l)%nat.
Proof.
  induction l as [|x l IH].
  - by rewrite list_to_set_nil, size_empty.
  - rewrite list_to_set_cons. cbn [length].
    destruct (decide (x ∈ (list_to_set l : gset Z))) as [Hin|Hnin].
    + replace ({[x]} ∪ list_to_set l) with (list_to_set (C := gset Z) l) by set_solver. lia.
    + rewrite size_union by set_solver. rewrite size_singleton. lia.
Qed.

Lemma size_list_to_set_NoDup (l : list Z) :
  size (list_to_set (C := gset Z) l) = length l ↔ NoDup l.
Proof.
  split; [|apply size_list_to_set].
  induction l as [|x l IH]; [constructor|].
  rewrite list_to_set_cons. cbn [length].
  intros Hsize. pose proof (size_list_to_set_le l) as Hle.
  destruct (decide (x ∈ (list_to_set l : gset Z))) as [Hin|Hnin].
  - replace ({[x]} ∪ list_to_set l) with (list_to_set (C := gset Z) l) in Hsize
      by set_solver. lia.
  - rewrite size_union, size_singleton in Hsize by set_solver.
    constructor; [set_solver | apply IH; lia].
Qed.

(** What [validate_skills] accepts: [N] pairwise different levels, each
    between 0 and [N]. *)
Lemma skill_errors_nil_iff (skill : Skill) :
  skill_errors skill = []
  ↔ NoDup (levels skill)
    ∧ Forall (λ l, 0 ≤ l ≤ Z.of_nat (length (levels skill))) (levels skill).
Proof.
  unfold skill_errors.
  set (n := default EmptyString (Validate.skill_name skill !! "en")).
  set (N := Z.of_nat (length (levels skill))).
  pose proof (check_level_errors n N (levels skill) [] ∅) as Herr.
  pose proof (check_level_seen n N (levels skill) [] ∅) as Hseen.
  destruct (foldl (check_level n N) ([], ∅) (levels skill)) as [errors seen].
  cbn [fst snd] in *. case_bool_decide as Hsize.
  - split; [by destruct errors|]. intros [Hnd Hall]. exfalso. apply Hsize.
    rewrite Hseen by done. rewrite (left_id_L ∅ (∪)). by apply size_list_to_set.
  - rewrite Herr. split.
    + intros [_ Hall]. split; [|done]. apply size_list_to_set_NoDup.
      rewrite Hseen, (left_id_L ∅ (∪)) in Hsize; done.
    + by intros [_ Hall].
Qed.

(** A skill whose levels are exactly 1..N, in any order, has no issue. *)
Lemma skill_errors_contiguous (skill : Skill) :
  levels skill ≡ₚ seqZ 1 (Z.of_nat (length (levels skill))) →
  skill_errors skill = [].
Proof.
  intros Hperm. apply skill_errors_nil_iff. split.
  - rewrite Hperm. apply NoDup_seqZ.
  - apply Forall_forall. intros l Hl. rewrite Hperm in Hl.
    apply elem_of_seqZ in Hl. lia.
Qed.

(** With level 0 ruled out, the accepted skills are those whose levels
    are exactly 1..N. *)
Lemma skill_errors_nil_positive (skill : Skill) :
  skill_errors skill = [] ∧ 0 ∉ levels skill
  ↔ levels skill ≡ₚ seqZ 1 (Z.of_nat (length (levels skill))).
Proof.
  split.
  - intros [[Hnd Hall]%skill_errors_nil_iff H0].
    apply submseteq_length_Permutation.
    + apply NoDup_submseteq; [done|]. intros l Hl.
      apply elem_of_seqZ. rewrite Forall_forall in Hall. specialize (Hall l Hl).
      assert (l ≠ 0) by (intros ->; done). lia.
    + rewrite length_seqZ. lia.
  - intros Hperm. split; [by apply skill_errors_contiguous|].
    rewrite Hperm. intros ?%elem_of_seqZ. lia.
Qed.

Lemma validate_skills_single (d : MHData) (s : Skill) :
  validate_skills (Samples.with_skills [s] d) = skill_errors s.
Proof. unfold validate_skills. simpl. apply app_nil_r. Qed.

(** C3 (the code at the failing input). A skill that declares the levels
    0 and 1 (N = 2) does not declare exactly the levels 1..2, and
    [validate_skills] reports nothing for it. *)
Theorem validate_skills_accepts_level_zero :
  validate_skills
    (Samples.with_skills [Samples.skill "Attack Boost" [0; 1]] Samples.empty_data) = []
  ∧ ¬ ([0; 1] ≡ₚ seqZ 1 2).
Proof.
  split; [by vm_compute|].
  intros Hperm. assert (0 ∈ seqZ 1 2) as Hin by (rewrite <- Hperm; set_solver).
  apply elem_of_seqZ in Hin. lia.
Qed.

(** C4 (counterexample). For the levels [1,3] the report is not the single
    missing-effect-levels error. *)
Lemma validate_skills_1_3_not_single :
  validate_skills
    (Samples.with_skills [Samples.skill "Attack Boost" [1; 3]] Samples.empty_data)
  ≠ ["Skill Attack Boost is missing effect levels"].
Proof. by vm_compute. Qed.

(** C4 (amended). Levels [1,2,3] give no issue; levels [1,3] give two
    errors, the out-of-range error for level 3 and then the
    missing-effect-levels error. *)
Theorem validate_skills_examples (d : MHData) (n : string) :
  validate_skills (Samples.with_skills [Samples.skill n [1; 2; 3]] d) = []
  ∧ validate_skills (Samples.with_skills [Samples.skill n [1; 3]] d)
    = ["Skill " +:+ n +:+ " has out of range effect 3";
       "Skill " +:+ n +:+ " is missing effect levels"].
Proof.
  rewrite !validate_skills_single. split.
  - apply skill_errors_contiguous. by vm_compute.
  - unfold skill_errors, Samples.skill, Samples.en. cbn [levels Validate.skill_name].
    rewrite lookup_singleton_eq. by vm_compute.
Qed.

(** ** validate_weapons *)

Lemma check_weapon_errors (C : Cfg) (D : Datafn) (mhdata : MHData)
    (errors : list string) (w : Weapon) :
  (check_weapon C D mhdata errors w).1 = errors ++ weapon_errors C D mhdata w.
Proof. unfold check_weapon. by io_simpl. Qed.

Lemma foldl_io_check_weapon (C : Cfg) (D : Datafn) (mhdata : MHData)
    (errors : list string) (l : list Weapon) :
  (foldl_io (check_weapon C D mhdata) errors l).1
  = errors ++ (l ≫= weapon_errors C D mhdata).
Proof.
  revert errors. induction l as [|w l IH]; intros errors.
  - simpl. by rewrite app_nil_r.
  - cbn [foldl_io]. rewrite io_bind_fst, IH, check_weapon_errors.
    by rewrite bind_cons, app_assoc.
Qed.

(** The errors of the weapon loop are those of each weapon, in order. *)
Lemma validate_weapons_errors (C : Cfg) (D : Datafn) (mhdata : MHData) :
  ∃ ammo, (validate_weapons C D mhdata).1
          = (values (Validate.weapon_map mhdata) ≫= weapon_errors C D mhdata) ++ ammo.
Proof.
  unfold validate_weapons. rewrite io_bind_fst, io_ret_fst, foldl_io_check_weapon.
  eauto.
Qed.

Ltac msg_neq :=
  let H := fresh in
  intros H; str_norm_in H;
  first [ discriminate H
        | injection H as H; apply append_inv_head in H; str_norm_in H; discriminate H ].

Section ammo_config.
Variables (C : Cfg) (D : Datafn) (mhdata : MHData) (entry : Weapon).

#[local] Abbreviation name := (Validate.name (Validate.weapon_map mhdata) entry "en").
#[local] Abbreviation missing := ("Weapon " +:+ name +:+ " is missing ammo config").
#[local] Abbreviation invalid := ("Weapon " +:+ name +:+ " has invalid ammo config").

Ltac single_message Hin :=
  match type of Hin with
  | _ ∈ (if ?b then _ else _) =>
      destruct b; [|by apply elem_of_nil in Hin];
      apply list_elem_of_singleton in Hin; revert Hin; msg_neq
  end.

Lemma recipe_errors_no_ammo_message (e : string) :
  e = missing ∨ e = invalid → e ∉ recipe_errors D mhdata name entry.
Proof.
  intros He Hin. unfold recipe_errors in Hin.
  case_bool_decide; [|by apply elem_of_nil in Hin].
  destruct (craft entry) as [[|r rs]|].
  - apply list_elem_of_singleton in Hin. subst e.
    destruct He as [He|He]; revert He; msg_neq.
  - apply list_elem_of_bind in Hin as (recipe & Hin & _).
    apply list_elem_of_bind in Hin as ([item q] & Hin & _).
    destruct (inb item _); [by apply elem_of_nil in Hin|].
    apply list_elem_of_singleton in Hin. subst e.
    destruct He as [He|He]; revert He; msg_neq.
  - apply list_elem_of_singleton in Hin. subst e.
    destruct He as [He|He]; revert He; msg_neq.
Qed.

Lemma weapon_kind_errors_no_ammo_message (e : string) :
  e = missing ∨ e = invalid → e ∉ weapon_kind_errors C name entry.
Proof.
  intros He Hin. unfold weapon_kind_errors in Hin.
  rewrite !elem_of_app in Hin.
  destruct He as [-> | ->]; destruct Hin as [Hin|[Hin|Hin]]; single_message Hin.
Qed.

Lemma element_errors_no_ammo_message (e : string) :
  e = missing ∨ e = invalid → e ∉ element_errors name entry.
Proof.
  intros He Hin. unfold element_errors in Hin.
  rewrite !elem_of_app in Hin.
  destruct He as [-> | ->]; destruct Hin as [Hin|[Hin|Hin]]; single_message Hin.
Qed.

(** Every error of a weapon that mentions its ammo configuration comes
    from the bowgun check. *)
Lemma ammo_message_origin (e : string) :
  e = missing ∨ e = invalid →
  e ∈ weapon_errors C D mhdata entry →
  e ∈ ammo_config_errors C mhdata name entry.
Proof.
  intros He. unfold weapon_errors. rewrite !elem_of_app.
  intros [Hin|[Hin|[Hin|Hin]]]; [| |done|].
  - by apply recipe_errors_no_ammo_message in Hin.
  - by apply weapon_kind_errors_no_ammo_message in Hin.
  - by apply element_errors_no_ammo_message in Hin.
Qed.

Lemma ammo_messages_of_weapon :
  filter (λ e, e = missing ∨ e = invalid) (weapon_errors C D mhdata entry)
  = filter (λ e, e = missing ∨ e = invalid) (ammo_config_errors C mhdata name entry).
Proof.
  unfold weapon_errors. rewrite !filter_app.
  rewrite (filter_none_of _ (recipe_errors _ _ _ _)),
          (filter_none_of _ (weapon_kind_errors _ _ _)),
          (filter_none_of _ (element_errors _ _)).
  - by rewrite app_nil_r.
  - intros x Hx He. by apply element_errors_no_ammo_message in Hx.
  - intros x Hx He. by apply weapon_kind_errors_no_ammo_message in Hx.
  - intros x Hx He. by apply recipe_errors_no_ammo_message in Hx.
Qed.
End ammo_config.

(** C5. Take any weapon of the weapon map, by its position. The errors of
    [validate_weapons] are those that the weapon loop has collected when it
    reaches the weapon, then those that the iteration of the weapon appends,
    then those of the later weapons, then those of the loop over the ammo
    table. When the weapon is of a bowgun type and its [ammo_config] is
    absent or empty, exactly one of the errors that its iteration appends is
    about its ammo configuration, the missing-ammo-config one, and the
    invalid-ammo-config error is not among them; and whenever the iteration
    of a weapon appends the invalid-ammo-config error, the weapon is a bowgun
    with an [ammo_config] that is present and is not a key of the ammo
    table. *)
Theorem missing_ammo_config_reported_once
    (C : Cfg) (D : Datafn) (mhdata : MHData) (i : nat) (entry : Weapon) :
  values (Validate.weapon_map mhdata) !! i = Some entry →
  let name := Validate.name (Validate.weapon_map mhdata) entry "en" in
  let missing := "Weapon " +:+ name +:+ " is missing ammo config" in
  let invalid := "Weapon " +:+ name +:+ " has invalid ammo config" in
  ∃ before segment rest,
    (foldl_io (check_weapon C D mhdata) []
       (take i (values (Validate.weapon_map mhdata)))).1 = before
    ∧ (check_weapon C D mhdata before entry).1 = before ++ segment
    ∧ (foldl_io (check_weapon C D mhdata) (before ++ segment)
         (drop (S i) (values (Validate.weapon_map mhdata)))).1
      = before ++ segment ++ rest
    ∧ (validate_weapons C D mhdata).1
      = before ++ segment ++ rest ++
        ('(name, ammo_entry) ← weapon_ammo_map mhdata;
         '(key, data) ← ammo_entry;
         bullet_errors name key data)
    ∧ (weapon_type entry ∈ weapon_types_gun C →
       truthy (ammo_config entry) = false →
       filter (λ e, e = missing ∨ e = invalid) segment = [missing]
       ∧ invalid ∉ segment)
    ∧ (invalid ∈ segment →
       weapon_type entry ∈ weapon_types_gun C
       ∧ truthy (ammo_config entry) = true
       ∧ ammo_config entry ∉ PyStr <$> (weapon_ammo_map mhdata).*1).
Proof.
  intros Hentry name missing invalid.
  assert (missing ≠ invalid) as Hne by (subst missing invalid; msg_neq).
  exists (take i (values (Validate.weapon_map mhdata)) ≫= weapon_errors C D mhdata),
         (weapon_errors C D mhdata entry),
         (drop (S i) (values (Validate.weapon_map mhdata)) ≫= weapon_errors C D mhdata).
  split; [by rewrite foldl_io_check_weapon|].
  split; [by rewrite check_weapon_errors|].
  split; [by rewrite foldl_io_check_weapon, <- (assoc_L (++))|].
  split.
  { unfold validate_weapons. rewrite io_bind_fst, io_ret_fst, foldl_io_check_weapon.
    cbn [app]. rewrite <- (take_drop_middle _ _ _ Hentry) at 1.
    rewrite bind_app, bind_cons. by rewrite <- !(assoc_L (++)). }
  assert (ammo_config_errors C mhdata name entry
          = if inb (weapon_type entry) (weapon_types_gun C) then
              if negb (truthy (ammo_config entry)) then [missing]
              else if negb (bool_decide (ammo_config entry ∈
                              PyStr <$> (weapon_ammo_map mhdata).*1)) then [invalid]
              else []
            else []) as Hammo by done.
  split.
  - intros Hgun Hfalsy.
    unfold inb in Hammo. rewrite bool_decide_eq_true_2, Hfalsy in Hammo by done.
    cbn [negb] in Hammo. split.
    + subst name missing invalid. rewrite ammo_messages_of_weapon, Hammo.
      by rewrite filter_cons_True, filter_nil by (by left).
    + intros Hin. subst name missing invalid.
      apply ammo_message_origin in Hin; [|by right].
      rewrite Hammo in Hin. apply list_elem_of_singleton in Hin. congruence.
  - intros Hin. subst name missing invalid.
    apply ammo_message_origin in Hin; [|by right].
    rewrite Hammo in Hin. unfold inb in Hin.
    case_bool_decide as Hgun; [|by apply elem_of_nil in Hin].
    split; [done|].
    destruct (truthy (ammo_config entry)); cbn [negb] in Hin.
    + split; [done|]. case_bool_decide as Hkey; cbn [negb] in Hin; [|done].
      by apply elem_of_nil in Hin.
    + apply list_elem_of_singleton in Hin. congruence.
Qed.

(** A light bowgun without ammo configuration is the only weapon: the rule
    reports one error, the missing one. *)
Lemma missing_ammo_config_sample :
  (validate_weapons Samples.cfg Samples.datafn
     (Samples.with_weapons [Samples.bowgun_without_ammo] Samples.empty_data)).1
  = ["Weapon Chain Blitz I is missing ammo config"].
Proof.
  destruct (missing_ammo_config_reported_once Samples.cfg Samples.datafn
              (Samples.with_weapons [Samples.bowgun_without_ammo] Samples.empty_data)
              0 Samples.bowgun_without_ammo eq_refl)
    as (before & segment & rest & Hbefore & Hsegment & Hrest & -> & Hmissing & _).
  destruct Hmissing as [Hone _]; [by left | reflexivity |].
  vm_compute in Hbefore. subst before.
  vm_compute in Hsegment. subst segment.
  vm_compute in Hrest. by injection Hrest as <-.
Defined.

(** ** validate *)

(** C2. [validate] runs the eight rules one after the other whatever the
    earlier ones found: the errors it collects are those of all eight rules
    and its output holds the output of every rule. It returns [False]
    exactly when some rule produced an error; what the rules only print or
    pass to [ensure_warn] has no part in the result. *)
Theorem validate_fails_iff_some_error (C : Cfg) (D : Datafn) (mhdata : MHData) :
  (collect_errors C D mhdata).1
  = validate_items mhdata ++ validate_locations mhdata ++
    (validate_monsters mhdata).1 ++
    elements (validate_monster_rewards C mhdata).1 ++
    validate_skills mhdata ++ (validate_armor C D mhdata).1 ++
    (validate_weapons C D mhdata).1 ++ validate_charms mhdata
  ∧ (collect_errors C D mhdata).2
    = (validate_monsters mhdata).2 ++ (validate_monster_rewards C mhdata).2 ++
      (validate_armor C D mhdata).2 ++ (validate_weapons C D mhdata).2
  ∧ ((validate C D mhdata).1 = false
     ↔ ∃ e, e ∈ validate_items mhdata ∨ e ∈ validate_locations mhdata
            ∨ e ∈ (validate_monsters mhdata).1
            ∨ e ∈ (validate_monster_rewards C mhdata).1
            ∨ e ∈ validate_skills mhdata ∨ e ∈ (validate_armor C D mhdata).1
            ∨ e ∈ (validate_weapons C D mhdata).1
            ∨ e ∈ validate_charms mhdata)
  ∧ ((validate C D mhdata).1 = true ↔ (collect_errors C D mhdata).1 = []).
Proof.
  assert ((collect_errors C D mhdata).1
          = validate_items mhdata ++ validate_locations mhdata ++
            (validate_monsters mhdata).1 ++
            elements (validate_monster_rewards C mhdata).1 ++
            validate_skills mhdata ++ (validate_armor C D mhdata).1 ++
            (validate_weapons C D mhdata).1 ++ validate_charms mhdata) as Herrors.
  { unfold collect_errors. io_simpl. cbn [app]. by rewrite <- !app_assoc. }
  assert ((validate C D mhdata).1
          = bool_decide ((collect_errors C D mhdata).1 = [])) as Hresult.
  { unfold validate. rewrite io_bind_fst.
    destruct (collect_errors C D mhdata).1 as [|e errors]; [done|].
    rewrite bool_decide_eq_true_2 by done. by io_simpl. }
  split; [done|]. split.
  { unfold collect_errors. io_simpl. by rewrite app_nil_r. }
  split.
  - rewrite Hresult, bool_decide_eq_false, Herrors. split.
    + intros Hne.
      destruct (_ ++ _) as [|e errors] eqn:Heq in Hne; [done|].
      exists e. assert (e ∈ e :: errors) as Hin by left. rewrite <- Heq in Hin.
      rewrite !elem_of_app, elem_of_elements in Hin. tauto.
    + intros [e He] Hnil.
      assert (e ∈ ([] : list string)) as Hin; [|by apply elem_of_nil in Hin].
      rewrite <- Hnil, !elem_of_app, elem_of_elements. tauto.
  - by rewrite Hresult, bool_decide_eq_true.
Qed.

(** ** validate_monster_rewards *)

Section monster_rewards.
Variables (C : Cfg) (mhdata : MHData).

(** The three references of a reward entry resolve. *)
#[local] Abbreviation resolves := (λ r : Reward,
  condition_en r ∈ names (monster_reward_conditions_map mhdata) "en"
  ∧ item_en r ∈ names (item_map mhdata) "en"
  ∧ rank r ∈ supported_ranks C).














(** Every other condition is checked against "exactly 100". *)
Lemma other_condition_is_capped
    (n rank condition : string) (members : list Reward) :
  ¬ (∃ pre post, uncapped_conditions = pre +:+ condition +:+ post) →
  check_percentage n ((rank, condition), members)
  = ensure_warn (bool_decide (Z_sum (percentage <$> members) = 100))
      (error_start n rank condition +:+ " does not sum to 100").
Proof.
  intros Hsub. unfold check_percentage.
  destruct (str_contains _ _) eqn:Hc; [|done].
  by apply str_contains_spec in Hc.
Qed.

End monster_rewards.

(** Capture rewards of 40, 35 and 25 percent: the group's check passes. *)
Lemma percentage_sum_100_passes :
  validate_monster_rewards Samples.cfg
    (Samples.with_monsters [Samples.rathalos_100] Samples.empty_data)
  = (∅, [EnsureWarn true
           "Rewards %'s for monster Rathalos (rank LR condition Capture) does not sum to 100"]).
Proof. by vm_compute. Qed.






(** ** Insertion-ordered dicts *)

Section odict_facts.
Context {K V : Type} `{EqDecision K}.

Lemma od_get_alter (f : V → V) (k k' : K) (d : list (K * V)) :
  od_get k (od_alter f k' d)
  = if decide (k = k') then f <$> od_get k d else od_get k d.
Proof.
  induction d as [|[k0 v] d IH]; cbn [od_alter od_get].
  - by case_decide.
  - destruct (decide (k' = k0)) as [->|Hne]; cbn [od_get].
    + by repeat case_decide.
    + rewrite IH. repeat case_decide; subst; done.
Qed.

Lemma od_keys_alter (f : V → V) (k : K) (d : list (K * V)) :
  od_keys (od_alter f k d) = od_keys d.
Proof.
  unfold od_keys. induction d as [|[k0 v] d IH]; [done|].
  cbn [od_alter]. case_decide; cbn; by rewrite ?IH.
Qed.

Lemma od_alter_fmap {W} (g : V → W) (f : V → V) (f' : W → W) (k : K)
    (d : list (K * V)) :
  (∀ v, g (f v) = f' (g v)) →
  prod_map id g <$> od_alter f k d = od_alter f' k (prod_map id g <$> d).
Proof.
  intros Hcomm. induction d as [|[k0 v] d IH]; [done|].
  cbn [od_alter fmap list_fmap prod_map fst snd id].
  case_decide; cbn; by rewrite ?Hcomm, ?IH.
Qed.

Lemma od_get_fmap {W} (g : V → W) (k : K) (d : list (K * V)) :
  od_get k (prod_map id g <$> d) = g <$> od_get k d.
Proof.
  induction d as [|[k0 v] d IH]; [done|]. cbn. by case_decide.
Qed.

Lemma od_set_fmap {W} (g : V → W) (k : K) (v : V) (d : list (K * V)) :
  prod_map id g <$> od_set k v d = od_set k (g v) (prod_map id g <$> d).
Proof.
  induction d as [|[k0 v0] d IH]; [done|]. cbn.
  case_decide; cbn; by rewrite ?IH.
Qed.
End odict_facts.

(** ** Weapon trees: connecting a node *)

Section connect.
Variable L : WeaponDataLoader.

Lemma tree_of_add_child (weapon descendant id : Z) (m : store) :
  tree_of (add_child weapon descendant m) id = tree_of m id.
Proof.
  unfold tree_of, add_child. rewrite !od_get_alter.
  repeat case_decide; by destruct (od_get id m).
Qed.

Lemma children_of_add_child (weapon descendant id : Z) (m : store) :
  children_of (add_child weapon descendant m) id
  = if decide (id = weapon) then (.++ [descendant]) <$> children_of m id
    else children_of m id.
Proof.
  unfold children_of, add_child. rewrite !od_get_alter.
  repeat case_decide; by destruct (od_get id m).
Qed.

Lemma parent_of_add_child (weapon descendant id : Z) (m : store) :
  parent_of (add_child weapon descendant m) id
  = if decide (id = descendant) then (λ _, Some weapon) <$> parent_of m id
    else parent_of m id.
Proof.
  unfold parent_of, add_child. rewrite !od_get_alter.
  repeat case_decide; by destruct (od_get id m).
Qed.

(** A slot resolves: it is empty, or it names an upgrade entry whose weapon
    has a node. *)
#[local] Abbreviation resolves := (λ (m : store) (d : nat),
  d ≠ 0%nat → ∃ entry, upgrade_data L !! d = Some entry
                       ∧ is_Some (od_get (equip_id entry) m)).

Lemma is_Some_add_child (weapon descendant id : Z) (m : store) :
  is_Some (od_get id (add_child weapon descendant m)) ↔ is_Some (od_get id m).
Proof.
  unfold add_child. rewrite !od_get_alter.
  repeat case_decide; rewrite ?fmap_is_Some; done.
Qed.

(** The inner loop attaches the targets of the nonzero slots, in slot
    order, and leaves every tree label as it was. *)
Lemma attach_descendants (weapon : Z) (ds : list nat) (m : store) :
  Forall (resolves m) ds →
  ∃ m', foldlM (attach_descendant L weapon) m ds = Ok m'
        ∧ (∀ id, tree_of m' id = tree_of m id)
        ∧ (∀ id, is_Some (od_get id m') ↔ is_Some (od_get id m))
        ∧ (∀ id, children_of m' id
                 = if decide (id = weapon)
                   then (.++ slot_targets L ds) <$> children_of m id
                   else children_of m id)
        ∧ od_keys m' = od_keys m.
Proof.
  revert m. induction ds as [|d ds IH]; intros m Hall.
  - exists m. split_and!; try done. intros id. unfold slot_targets. cbn.
    case_decide; [|done]. destruct (children_of m id); cbn; by rewrite ?app_nil_r.
  - inversion_clear Hall as [|? ? Hd Hds]. cbn [foldlM]. unfold attach_descendant at 2.
    unfold slot_targets. cbn [omap list_omap].
    case_bool_decide as Hzero.
    + destruct (IH m Hds) as (m' & Hrun & Htree & Hsome & Hchildren & Hkeys).
      exists m'. cbn. by split_and!.
    + destruct (Hd Hzero) as (entry & Hentry & [node Hnode]).
      unfold index. rewrite Hentry. cbn. unfold od_getitem. rewrite Hnode. cbn.
      destruct (IH (add_child weapon (equip_id entry) m)) as
        (m' & Hrun & Htree & Hsome & Hchildren & Hkeys).
      { eapply Forall_impl; [exact Hds|]. intros d' Hres Hnz.
        destruct (Hres Hnz) as (e' & ? & ?). exists e'. split; [done|].
        by apply is_Some_add_child. }
      exists m'. split; [done|]. split; [|split; [|split]].
      * intros id. by rewrite Htree, tree_of_add_child.
      * intros id. by rewrite Hsome, is_Some_add_child.
      * intros id. rewrite Hchildren, children_of_add_child.
        case_decide; [|done]. destruct (children_of m id); cbn; [|done].
        by rewrite <- app_assoc.
      * rewrite Hkeys. unfold add_child. by rewrite !od_keys_alter.
Qed.

Lemma tree_of_set_tree (t : option string) (k id : Z) (m : store) :
  tree_of (od_alter (set_tree t) k m) id
  = if decide (id = k) then (λ _, t) <$> tree_of m id else tree_of m id.
Proof.
  unfold tree_of. rewrite od_get_alter.
  case_decide; by destruct (od_get id m).
Qed.

Lemma children_of_set_tree (t : option string) (k id : Z) (m : store) :
  children_of (od_alter (set_tree t) k m) id = children_of m id.
Proof.
  unfold children_of. rewrite od_get_alter.
  case_decide; by destruct (od_get id m).
Qed.

(** One node of the second pass, not yet connected, whose nonzero slots
    resolve. If slot 0 is zero - in particular if all four slots are - no
    tree label changes. If slot 0 is nonzero, the node's children start with
    the weapon that slot 0 names, that child's label becomes the node's
    label, and no other node's label changes. *)
Lemma connect_node_propagation
    (weapon_descendants : gmap Z (nat * nat * nat * nat)) (m : store)
    (weapon : Z) (node : WeaponDataNode) (d1 d2 d3 d4 : nat) :
  weapon_descendants !! weapon = Some (d1, d2, d3, d4) →
  od_get weapon m = Some node →
  children node = [] →
  Forall (resolves m) [d1; d2; d3; d4] →
  ∃ m', connect_node L weapon_descendants m weapon = Ok m'
    ∧ (d1 = 0%nat → ∀ id, tree_of m' id = tree_of m id)
    ∧ (d1 ≠ 0%nat →
       ∃ first rest,
         equip_id <$> upgrade_data L !! d1 = Some first
         ∧ children_of m' weapon = Some (first :: rest)
         ∧ tree_of m' first = Some (tree node)
         ∧ ∀ id, id ≠ first → tree_of m' id = tree_of m id)
    ∧ ((d1, d2, d3, d4) = (0, 0, 0, 0)%nat → m' = m).
Proof.
  intros Hslots Hnode Hfresh Hres. unfold connect_node.
  rewrite Hslots. cbn [from_option slot_list].
  destruct (forallb _ _) eqn:Hzero.
  { exists m. split; [done|]. split; [done|]. split; [|done].
    intros Hd1. cbn in Hzero. by rewrite bool_decide_eq_false_2 in Hzero. }
  destruct (attach_descendants weapon [d1; d2; d3; d4] m Hres)
    as (m1 & Hrun & Htree & Hsome & Hchildren & _).
  rewrite Hrun. cbn [mbind result_bind].
  change ([d1; d2; d3; d4] !! 0%nat) with (Some d1).
  case_bool_decide as Hlast.
  - injection Hlast as ->. exists m1. split; [done|]. split; [done|].
    split; [done|]. intros [= -> -> ->]. by cbn in Hzero.
  - assert (d1 ≠ 0%nat) as Hd1 by congruence.
    inversion_clear Hres as [|? ? Hres1 _].
    destruct (Hres1 Hd1) as (entry & Hentry & Hfirst).
    assert (children_of m1 weapon
            = Some (equip_id entry :: slot_targets L [d2; d3; d4])) as Hkids.
    { rewrite Hchildren, decide_True by done. unfold children_of.
      rewrite Hnode. cbn [fmap option_fmap option_map]. rewrite Hfresh.
      unfold slot_targets. cbn [omap list_omap].
      rewrite bool_decide_eq_false_2 by done. by rewrite Hentry. }
    pose proof (Htree weapon) as Hlabel. unfold tree_of in Hlabel at 2.
    rewrite Hnode in Hlabel.
    unfold children_of in Hkids. unfold tree_of in Hlabel.
    unfold od_getitem.
    destruct (od_get weapon m1) as [node1|] eqn:Hnode1; [|done].
    injection Hkids as Hkids. injection Hlabel as Hlabel.
    cbn [mbind result_bind]. rewrite Hkids. cbn [index lookup list_lookup].
    cbn [mbind result_bind]. eexists. split; [done|].
    split; [done|]. split; [|by intros [=]]. intros _.
    eexists _, _. rewrite Hentry. split; [done|]. split; [|split].
    + rewrite children_of_set_tree. unfold children_of.
      rewrite Hnode1. cbn [fmap option_fmap option_map]. by rewrite Hkids.
    + rewrite tree_of_set_tree, decide_True, Hlabel by done.
      apply Hsome in Hfirst as [n1 Hn1]. unfold tree_of. by rewrite Hn1.
    + intros id Hid. by rewrite tree_of_set_tree, decide_False, Htree.
Qed.
End connect.

(** ** Weapon trees: the nodes that the second pass visits *)

Lemma od_get_od_set {K V} `{EqDecision K} (k k' : K) (v : V) (d : list (K * V)) :
  od_get k (od_set k' v d) = if decide (k = k') then Some v else od_get k d.
Proof.
  induction d as [|[k0 v0] d IH]; cbn [od_set od_get].
  - by case_decide.
  - destruct (decide (k' = k0)) as [->|Hne]; cbn [od_get].
    + by repeat case_decide.
    + rewrite IH. repeat case_decide; subst; done.
Qed.

Lemma od_keys_od_set {K V} `{EqDecision K} (k : K) (v : V) (d : list (K * V)) :
  od_keys (od_set k v d)
  = if decide (k ∈ od_keys d) then od_keys d else od_keys d ++ [k].
Proof.
  unfold od_keys. induction d as [|[k0 v0] d IH]; cbn [od_set fmap list_fmap fst].
  - rewrite decide_False; [done | apply not_elem_of_nil].
  - destruct (decide (k = k0)) as [->|Hne]; cbn [fmap list_fmap fst].
    + rewrite decide_True; [done | by left].
    + rewrite IH. case_decide as Hin.
      * rewrite decide_True; [done | by right].
      * rewrite decide_False; [done|]. by intros [?|?]%elem_of_cons.
Qed.

Lemma od_get_is_Some {K V} `{EqDecision K} (k : K) (d : list (K * V)) :
  is_Some (od_get k d) ↔ k ∈ od_keys d.
Proof.
  unfold od_keys. induction d as [|[k0 v0] d IH]; cbn [od_get fmap list_fmap fst].
  - split; [by intros [? ?] | by intros ?%elem_of_nil].
  - rewrite elem_of_cons. case_decide; [by split; eauto|].
    rewrite IH. tauto.
Qed.

(** After the first pass the keys are pairwise different and no node has
    a child. *)
Lemma create_nodes_fresh (L : WeaponDataLoader) (wt : Load.weapon_type)
    (text : gmap Z (gmap string string)) (entries : list WpDatEntry)
    (m0 m : store) (wd0 wd : gmap Z (nat * nat * nat * nat)) :
  foldlM (create_node L wt text) (m0, wd0) entries = Ok (m, wd) →
  NoDup (od_keys m0) → (∀ id, children_of m0 id ≠ None → children_of m0 id = Some []) →
  NoDup (od_keys m) ∧ ∀ id, children_of m id ≠ None → children_of m id = Some [].
Proof.
  revert m0 wd0. induction entries as [|b entries IH]; intros m0 wd0; cbn [foldlM].
  - by intros [= <- <-].
  - destruct (create_node L wt text (m0, wd0) b) as [[m1 wd1]|e] eqn:Hstep; [|done].
    cbn [mbind result_bind]. intros Hrun Hnd Hfresh.
    apply (IH _ _ Hrun); clear IH Hrun; unfold create_node in Hstep;
      (destruct (getitem text _) as [nm|?]; [|done]); cbn [mbind result_bind] in Hstep;
      (destruct (getitem nm "en") as [en|?]; [|done]); cbn [mbind result_bind] in Hstep;
      (destruct (_ || _); [by injection Hstep as <- <-|]);
      (destruct (if bool_decide (wp_tree_id b = 0) then _ else _) as [tr|?]; [|done]);
      cbn [mbind result_bind] in Hstep; injection Hstep as <- <-.
    + rewrite od_keys_od_set. case_decide as Hin; [done|].
      apply NoDup_app. split; [done|]. split; [|apply NoDup_singleton].
      by intros x Hx ->%list_elem_of_singleton.
    + intros id. unfold children_of. rewrite od_get_od_set.
      case_decide; [done | apply Hfresh].
Qed.

Section visits.
Variables (L : WeaponDataLoader) (wd : gmap Z (nat * nat * nat * nat)).

Lemma attach_descendant_children (weapon id : Z) (m m' : store) (d : nat) :
  attach_descendant L weapon m d = Ok m' → id ≠ weapon →
  children_of m' id = children_of m id.
Proof.
  unfold attach_descendant. case_bool_decide; [by intros [= <-]|].
  destruct (index _ d) as [entry|?]; [|done]. cbn [mbind result_bind].
  destruct (od_getitem m _) as [?|?]; [|done]. cbn [mbind result_bind].
  intros [= <-] Hne. by rewrite children_of_add_child, decide_False.
Qed.

Lemma connect_node_children (weapon id : Z) (m m' : store) :
  connect_node L wd m weapon = Ok m' → id ≠ weapon →
  children_of m' id = children_of m id.
Proof.
  unfold connect_node. destruct (forallb _ _); [by intros [= <-]|].
  destruct (foldlM _ m _) as [m1|?] eqn:Hrun; [|done]. cbn [mbind result_bind].
  intros Hend Hne.
  assert (children_of m1 id = children_of m id) as Hkept.
  { clear Hend. revert m Hrun.
    generalize (from_option slot_list [] (wd !! weapon)).
    intros ds. induction ds as [|d ds IH]; intros m; cbn [foldlM].
    - by intros [= <-].
    - destruct (attach_descendant L weapon m d) as [m2|?] eqn:Hstep; [|done].
      cbn [mbind result_bind]. intros Hrun. rewrite (IH _ Hrun).
      by eapply attach_descendant_children. }
  case_bool_decide; [by injection Hend as <-|].
  destruct (od_getitem m1 weapon) as [node|?]; [|done]. cbn [mbind result_bind] in Hend.
  destruct (index (children node) 0) as [first|?]; [|done].
  cbn [mbind result_bind] in Hend. injection Hend as <-.
  by rewrite children_of_set_tree.
Qed.

Lemma connect_nodes_children (weapons : list Z) (id : Z) (m m' : store) :
  foldlM (connect_node L wd) m weapons = Ok m' → id ∉ weapons →
  children_of m' id = children_of m id.
Proof.
  revert m. induction weapons as [|w weapons IH]; intros m; cbn [foldlM].
  - by intros [= <-].
  - destruct (connect_node L wd m w) as [m1|?] eqn:Hstep; [|done].
    cbn [mbind result_bind]. intros Hrun [Hne Hnin]%not_elem_of_cons.
    rewrite (IH _ Hrun Hnin). by eapply connect_node_children.
Qed.
End visits.

(** Every node that the second pass visits has no children yet: the pass
    reaches it with the store in which only earlier nodes were connected. *)
Lemma second_pass_visits_fresh_nodes (L : WeaponDataLoader)
    (wt : Load.weapon_type) (text : gmap Z (gmap string string))
    (entries : list WpDatEntry) (m0 m : store)
    (wd : gmap Z (nat * nat * nat * nat)) (visited rest : list Z) (weapon : Z) :
  foldlM (create_node L wt text) ([], ∅) entries = Ok (m0, wd) →
  od_keys m0 = visited ++ weapon :: rest →
  foldlM (connect_node L wd) m0 visited = Ok m →
  ∃ node, od_get weapon m = Some node ∧ children node = [].
Proof.
  intros Hfirst Hkeys Hrun.
  destruct (create_nodes_fresh _ _ _ _ _ _ _ _ Hfirst) as [Hnd Hfresh];
    [constructor | done |].
  rewrite Hkeys in Hnd. apply NoDup_app in Hnd as (_ & Hdisj & _).
  assert (weapon ∉ visited) as Hnew by (intros Hin; apply (Hdisj _ Hin); by left).
  pose proof (connect_nodes_children L wd visited weapon m0 m Hrun Hnew) as Hkept.
  assert (is_Some (od_get weapon m0)) as [node0 Hnode0].
  { apply od_get_is_Some. rewrite Hkeys. apply elem_of_app. right. by left. }
  specialize (Hfresh weapon). unfold children_of in Hfresh, Hkept.
  rewrite Hnode0 in Hfresh, Hkept. cbn in Hfresh, Hkept.
  destruct (od_get weapon m) as [node|]; [|done].
  exists node. split; [done|]. cbn in Hkept. injection Hkept as ->.
  by injection (Hfresh ltac:(done)).
Qed.

(** ** Weapon trees: upgrade quantities *)

Lemma foldlM_fmap {A S T} (g : S → T) (body : S → A → Py.result S)
    (body' : T → A → Py.result T) (s : S) (l : list A) :
  (∀ s x, body' (g s) x = g <$> body s x) →
  foldlM body' (g s) l = g <$> foldlM body s l.
Proof.
  intros Hstep. revert s. induction l as [|x l IH]; intros s; [done|].
  cbn [foldlM]. rewrite Hstep. destruct (body s x) as [s'|e]; [|done].
  cbn. apply IH.
Qed.

Lemma od_get_forget_upgrades (id : Z) (m : store) :
  od_get id (forget_upgrades m) = forget_upgrade <$> od_get id m.
Proof. apply od_get_fmap. Qed.

Lemma od_keys_forget_upgrades (m : store) :
  od_keys (forget_upgrades m) = od_keys m.
Proof.
  unfold od_keys, forget_upgrades. rewrite <- list_fmap_compose.
  apply list_fmap_ext. by intros _ [id n] _.
Qed.

Lemma index_upgrade_clear (acc : gmap (Load.weapon_type * Z) EqCusEntry)
    (u : EqCusEntry) :
  index_upgrade (clear_quantity <$> acc) (clear_quantity u)
  = (λ umap : gmap (Load.weapon_type * Z) EqCusEntry, clear_quantity <$> umap)
    <$> index_upgrade acc u.
Proof.
  unfold index_upgrade. cbn [clear_quantity equip_type equip_id].
  destruct (index weapon_types (equip_type u)) as [wt|e]; [|done].
  cbn [mbind result_bind fmap result_fmap]. by rewrite fmap_insert.
Qed.

Lemma WeaponDataLoader_init_clear (trees : gmap Z (gmap string string))
    (crt : list EqCrtEntry) (cus : list EqCusEntry) :
  WeaponDataLoader_init trees crt (clear_quantity <$> cus)
  = clear_quantities <$> WeaponDataLoader_init trees crt cus.
Proof.
  unfold WeaponDataLoader_init.
  destruct (foldlM index_craft ∅ crt) as [cmap|e]; [|done].
  cbn [mbind result_bind].
  assert (∀ acc : gmap (Load.weapon_type * Z) EqCusEntry,
            foldlM index_upgrade (clear_quantity <$> acc) (clear_quantity <$> cus)
            = (λ umap : gmap (Load.weapon_type * Z) EqCusEntry, clear_quantity <$> umap)
              <$> foldlM index_upgrade acc cus) as Hfold.
  { induction cus as [|u cus IH]; intros acc; [done|].
    cbn [fmap list_fmap foldlM]. rewrite index_upgrade_clear.
    destruct (index_upgrade acc u) as [acc'|e]; [|done].
    cbn [mbind result_bind fmap result_fmap]. apply IH. }
  specialize (Hfold ∅). rewrite fmap_empty in Hfold. rewrite Hfold.
  by destruct (foldlM index_upgrade ∅ cus).
Qed.

Section clear.
Variable L : WeaponDataLoader.

Lemma create_node_clear (wt : Load.weapon_type) (text : gmap Z (gmap string string))
    (m : store) (wd : gmap Z (nat * nat * nat * nat)) (b : WpDatEntry) :
  create_node (clear_quantities L) wt text (forget_upgrades m, wd) b
  = prod_map forget_upgrades id <$> create_node L wt text (m, wd) b.
Proof.
  unfold create_node. destruct (getitem text _) as [nm|e]; [|done].
  cbn [mbind result_bind]. cbn [clear_quantities upgrade_data_map crafting_data_map weapon_trees].
  rewrite lookup_fmap.
  destruct (upgrade_data_map L !! (wt, wp_id b)) as [u|];
    cbn [fmap option_fmap option_map];
    (destruct (getitem nm "en") as [en|e]; [|done]); cbn [mbind result_bind];
    (destruct (_ || _); [done|]);
    (destruct (if bool_decide (wp_tree_id b = 0) then _ else _) as [tr|e]; [|done]);
    cbn [mbind result_bind fmap result_fmap prod_map fst snd id];
    unfold forget_upgrades; rewrite od_set_fmap; repeat f_equal;
    unfold new_node, forget_upgrade; cbn; by repeat case_bool_decide.
Qed.

Lemma add_child_forget (weapon descendant : Z) (m : store) :
  add_child weapon descendant (forget_upgrades m)
  = forget_upgrades (add_child weapon descendant m).
Proof.
  unfold add_child, forget_upgrades.
  rewrite <- (od_alter_fmap forget_upgrade (set_parent weapon) (set_parent weapon))
    by done.
  by rewrite <- (od_alter_fmap forget_upgrade (append_child descendant)
                   (append_child descendant)) by done.
Qed.

Lemma attach_descendant_clear (weapon : Z) (m : store) (d : nat) :
  attach_descendant (clear_quantities L) weapon (forget_upgrades m) d
  = forget_upgrades <$> attach_descendant L weapon m d.
Proof.
  unfold attach_descendant. case_bool_decide; [done|].
  unfold index. cbn [clear_quantities upgrade_data]. rewrite list_lookup_fmap.
  destruct (upgrade_data L !! d) as [entry|]; [|done].
  cbn [fmap option_fmap option_map mbind result_bind clear_quantity equip_id].
  unfold od_getitem. rewrite od_get_forget_upgrades.
  destruct (od_get (equip_id entry) m); [|done].
  cbn [fmap option_fmap option_map mbind result_bind result_fmap].
  by rewrite add_child_forget.
Qed.

Lemma connect_node_clear (wd : gmap Z (nat * nat * nat * nat)) (m : store)
    (weapon : Z) :
  connect_node (clear_quantities L) wd (forget_upgrades m) weapon
  = forget_upgrades <$> connect_node L wd m weapon.
Proof.
  unfold connect_node. destruct (forallb _ _); [done|].
  rewrite (foldlM_fmap forget_upgrades (attach_descendant L weapon))
    by (intros; apply attach_descendant_clear).
  destruct (foldlM (attach_descendant L weapon) m _) as [m1|e]; [|done].
  cbn [fmap result_fmap mbind result_bind]. case_bool_decide; [done|].
  unfold od_getitem. rewrite od_get_forget_upgrades.
  destruct (od_get weapon m1) as [node|]; [|done].
  cbn [fmap option_fmap option_map mbind result_bind forget_upgrade children tree].
  destruct (index (children node) 0) as [first|e]; [|done].
  cbn [mbind result_bind fmap result_fmap]. f_equal.
  unfold forget_upgrades.
  by rewrite <- (od_alter_fmap forget_upgrade (set_tree (tree node))
                   (set_tree (tree node))) by done.
Qed.

Lemma load_weapon_map_clear (wt : Load.weapon_type)
    (text : gmap Z (gmap string string)) (entries : list WpDatEntry) :
  load_weapon_map (clear_quantities L) wt text entries
  = forget_upgrades <$> load_weapon_map L wt text entries.
Proof.
  unfold load_weapon_map.
  change ([], ∅) with (prod_map forget_upgrades id
                         (([], ∅) : store * gmap Z (nat * nat * nat * nat))).
  rewrite (foldlM_fmap (prod_map forget_upgrades id) (create_node L wt text))
    by (intros [m wd] b; apply create_node_clear).
  destruct (foldlM (create_node L wt text) _ entries) as [[m wd]|e]; [|done].
  cbn [fmap result_fmap mbind result_bind prod_map fst snd id].
  rewrite od_keys_forget_upgrades.
  apply foldlM_fmap. intros. apply connect_node_clear.
Qed.
End clear.

Lemma load_weapons_clear (trees : gmap Z (gmap string string))
    (crt : list EqCrtEntry) (cus : list EqCusEntry) (wt : Load.weapon_type)
    (text : gmap Z (gmap string string)) (entries : list WpDatEntry) :
  load_weapons trees crt (clear_quantity <$> cus) wt text entries
  = forget_upgrades <$> load_weapons trees crt cus wt text entries.
Proof.
  unfold load_weapons. rewrite WeaponDataLoader_init_clear.
  destruct (WeaponDataLoader_init trees crt cus) as [L|e]; [|done].
  cbn [fmap result_fmap mbind result_bind]. apply load_weapon_map_clear.
Qed.

(** The slots of a weapon are recorded whatever the quantity of its
    upgrade recipe. *)
Lemma create_node_captures_slots (L : WeaponDataLoader) (wt : Load.weapon_type)
    (text : gmap Z (gmap string string)) (m m' : store)
    (wd wd' : gmap Z (nat * nat * nat * nat)) (b : WpDatEntry) (u : EqCusEntry) :
  upgrade_data_map L !! (wt, wp_id b) = Some u →
  create_node L wt text (m, wd) b = Ok (m', wd') →
  wd' = <[wp_id b := descendant_slots u]> wd.
Proof.
  intros Hu. unfold create_node. rewrite Hu.
  destruct (getitem text _) as [nm|e]; [|done]. cbn [mbind result_bind].
  destruct (getitem nm "en") as [en|e]; [|done]. cbn [mbind result_bind].
  destruct (_ || _); [by intros [= _ <-]|].
  destruct (if bool_decide (wp_tree_id b = 0) then _ else _) as [tr|e]; [|done].
  cbn [mbind result_bind]. by intros [= _ <-].
Qed.

(** C10. Two upgrade tables that differ at most in the primary ingredient
    quantities of their entries give the same outcome of the assembly and,
    when it succeeds, the same nodes with the same parents, children and
    tree labels: only the attached upgrade recipes can differ. *)
Theorem children_independent_of_upgrade_quantity
    (trees : gmap Z (gmap string string)) (crt : list EqCrtEntry)
    (cus cus' : list EqCusEntry) (wt : Load.weapon_type)
    (text : gmap Z (gmap string string)) (entries : list WpDatEntry) :
  clear_quantity <$> cus = clear_quantity <$> cus' →
  forget_upgrades <$> load_weapons trees crt cus wt text entries
  = forget_upgrades <$> load_weapons trees crt cus' wt text entries.
Proof.
  intros Heq. by rewrite <- !load_weapons_clear, Heq.
Qed.

(** Two tables that differ in quantities only; weapon 101 has quantity 0,
    no upgrade recipe attached, and its child attached. *)
Lemma zero_quantity_upgrade_sample :
  forget_upgrades <$>
    load_weapons Samples.tree_text [] Samples.upgrade_table GREAT_SWORD
      Samples.sword_text Samples.swords
  = forget_upgrades <$>
      load_weapons Samples.tree_text [] Samples.upgrade_table' GREAT_SWORD
        Samples.sword_text Samples.swords
  ∧ ∃ m, load_weapons Samples.tree_text [] Samples.upgrade_table GREAT_SWORD
           Samples.sword_text Samples.swords = Ok m
         ∧ upgrade <$> od_get 101 m = Some None
         ∧ children_of m 101 = Some [105]
         ∧ parent_of m 105 = Some (Some 101).
Proof.
  split.
  - apply children_independent_of_upgrade_quantity. reflexivity.
  - eexists. split; [by vm_compute|]. by vm_compute.
Defined.


(** ** Armor series *)

Lemma min_by_spec {A} (key : A → Z) (l : list A) (m : A) :
  min_by key l = Ok m → m ∈ l ∧ ∀ a, a ∈ l → key m ≤ key a.
Proof.
  revert m. induction l as [|x l IH]; intros m; [done|]. cbn [min_by].
  destruct (min_by key l) as [m'|e] eqn:Hrest.
  - destruct (IH m' eq_refl) as [Hin Hle]. intros [= <-].
    case_bool_decide as Hlt.
    + split; [by right|]. intros a [->|Ha]%elem_of_cons; [lia | by apply Hle].
    + split; [by left|]. intros a [->|Ha]%elem_of_cons; [lia|].
      specialize (Hle a Ha). lia.
  - intros [= <-].
    destruct l as [|y l']; [|exfalso; cbn in Hrest; by destruct (min_by key l')].
    split; [by left|]. by intros a ->%list_elem_of_singleton.
Qed.

Lemma min_by_nonempty {A} (key : A → Z) (x : A) (l : list A) :
  ∃ m, min_by key (x :: l) = Ok m.
Proof. cbn [min_by]. destruct (min_by key l); eauto. Qed.

Lemma forM_Forall2 {A B} (f : A → Py.result B) (l : list A) (ys : list B) :
  forM f l = Ok ys → Forall2 (λ x y, f x = Ok y) l ys.
Proof.
  revert ys. induction l as [|x l IH]; intros ys; cbn [forM].
  - intros [= <-]. constructor.
  - destruct (f x) as [y|e] eqn:Hx; [|done]. cbn [mbind result_bind].
    destruct (forM f l) as [ys'|e]; [|done]. cbn [mbind result_bind].
    intros [= <-]. constructor; [done | by apply IH].
Qed.

(** An assembled set: its members are not empty, its order is the least
    order of a member, and its rank is that of its first member. *)
#[local] Abbreviation well_formed := (λ s : ArmorSetData,
  ∃ first rest, armors s = first :: rest
                ∧ s_order s ∈ order <$> armors s
                ∧ (∀ a, a ∈ armors s → s_order s ≤ order a)
                ∧ s_rank s = Ok (Load.rank first)).

Lemma ArmorSetData_init_spec (name : gmap string string)
    (members : list ArmorData) (s : ArmorSetData) :
  ArmorSetData_init name members = Ok s →
  s_name s = name ∧ armors s = members ∧ well_formed s.
Proof.
  unfold ArmorSetData_init.
  destruct (min_by order members) as [least|e] eqn:Hmin; [|done].
  cbn [mbind result_bind].
  destruct (foldlM _ [] members) as [by_part|e]; [|done].
  cbn [mbind result_bind]. intros [= <-]. cbn.
  split; [done|]. split; [done|].
  destruct (min_by_spec _ _ _ Hmin) as [Hin Hle].
  destruct members as [|first rest]; [by apply elem_of_nil in Hin|].
  exists first, rest. split; [done|]. split; [|split; [|done]].
  - apply list_elem_of_fmap. eauto.
  - done.
Qed.

Lemma lt_pair_false (k1 o1 k2 o2 : Z) :
  lt_pair (k2, o2) (k1, o1) = false ↔ k1 < k2 ∨ (k1 = k2 ∧ o1 ≤ o2).
Proof.
  unfold lt_pair, pair_ltb. cbn [fst snd].
  case_decide; rewrite Z.ltb_ge; lia.
Qed.

Lemma StronglySorted_fmap_Forall {A B} (P : A → Prop) (R1 : relation A)
    (R2 : relation B) (f : A → B) (l : list A) :
  (∀ x y, P x → P y → R1 x y → R2 (f x) (f y)) →
  Forall P l → StronglySorted R1 l → StronglySorted R2 (f <$> l).
Proof.
  intros Himpl HP. induction 1 as [|x l Hl IH Hx]; [constructor|].
  inversion_clear HP as [|? ? Px Pl]. cbn [fmap list_fmap].
  constructor; [by apply IH|]. apply Forall_fmap.
  rewrite Forall_forall in Hx, Pl |- *. intros y Hy.
  apply Himpl; auto.
Qed.

(** The list that [armor_sets.sort] leaves is sorted, and its elements are
    assembled sets. *)
Lemma sorted_armor_sets_spec (F : ArmorFiles) (sets : list ArmorSetData) :
  sorted_armor_sets F = Ok sets →
  Forall well_formed sets ∧ StronglySorted by_rank_then_order sets.
Proof.
  unfold sorted_armor_sets.
  destruct (foldlM _ [] (armor_dat F)) as [by_setid|e]; [|done].
  cbn [mbind result_bind].
  destruct (forM _ by_setid) as [armor_sets|e] eqn:Hsets; [|done].
  cbn [mbind result_bind].
  destruct (forM _ armor_sets) as [keyed|e] eqn:Hkeyed; [|done].
  cbn [mbind result_bind]. intros [= <-].
  apply forM_Forall2 in Hsets, Hkeyed.
  assert (Forall well_formed armor_sets) as Hwf.
  { apply Forall2_Forall_r with (1 := Hsets). apply Forall_true.
    intros [set_id members] s. destruct (getitem _ set_id); [|done].
    cbn [mbind result_bind]. by intros (_ & _ & Hs)%ArmorSetData_init_spec. }
  assert (Forall (λ ka : (Z * Z) * ArmorSetData,
                    rank_order ka.2 = Ok ka.1.1 ∧ s_order ka.2 = ka.1.2
                    ∧ well_formed ka.2) keyed) as Hkeys.
  { clear Hsets. induction Hkeyed as [|a ka l l' Ha _ IH]; [constructor|].
    inversion_clear Hwf as [|? ? Hwfa Hwfl].
    constructor; [|by apply IH].
    destruct (rank_order a) as [ro|e] eqn:Hro; cbn in Ha; [|done].
    injection Ha as <-. by cbn [fst snd]. }
  assert (Forall (λ ka : (Z * Z) * ArmorSetData,
                    rank_order ka.2 = Ok ka.1.1 ∧ s_order ka.2 = ka.1.2
                    ∧ well_formed ka.2) (sorted lt_pair fst keyed)) as Hsorted.
  { by rewrite (sorted_Permutation lt_pair fst keyed). }
  split.
  - apply Forall_fmap. eapply Forall_impl; [exact Hsorted|].
    by intros ka (_ & _ & Hka).
  - eapply StronglySorted_fmap_Forall;
      [|exact Hsorted|apply (sorted_StronglySorted lt_pair fst)].
    intros [[k1 o1] s1] [[k2 o2] s2] (Hr1 & Ho1 & _) (Hr2 & Ho2 & _) Hle.
    cbn [fst snd] in *. subst o1 o2. exists k1, k2.
    split; [done|]. split; [done|]. by apply lt_pair_false.
Qed.

Lemma od_set_fresh {K V} `{EqDecision K} (k : K) (v : V) (d : list (K * V)) :
  k ∉ od_keys d → od_set k v d = d ++ [(k, v)].
Proof.
  unfold od_keys. induction d as [|[k0 v0] d IH]; [done|].
  cbn [od_set fmap list_fmap fst]. rewrite not_elem_of_cons. intros [Hne Hnin].
  rewrite decide_False by done. cbn [app]. by rewrite IH.
Qed.

Lemma od_values_od_set {K V} `{EqDecision K} (k : K) (v x : V) (d : list (K * V)) :
  x ∈ od_values (od_set k v d) → x = v ∨ x ∈ od_values d.
Proof.
  unfold od_values. induction d as [|[k0 v0] d IH]; cbn [od_set].
  - cbn [fmap list_fmap snd]. intros ->%list_elem_of_singleton. by left.
  - case_decide; cbn [fmap list_fmap snd]; rewrite !elem_of_cons.
    + intros [->|Hx]; auto.
    + intros [->|Hx]; [auto|]. destruct (IH Hx); auto.
Qed.

Lemma index_by_name_unfold (acc : list (string * ArmorSetData))
    (s : ArmorSetData) :
  index_by_name acc s
  = match s_name s !! "en" with
    | Some en => Ok (od_set en s acc)
    | None => Raise KeyError
    end.
Proof. unfold index_by_name, getitem. by destruct (s_name s !! "en"). Qed.

(** The dict holds only sets of the sorted list; when their English names
    are pairwise different it holds all of them, in that order. *)
Lemma index_by_name_spec (sets : list ArmorSetData)
    (acc d : list (string * ArmorSetData)) :
  foldlM index_by_name acc sets = Ok d →
  (∀ s, s ∈ od_values d → s ∈ od_values acc ∨ s ∈ sets)
  ∧ (NoDup ((Some <$> od_keys acc) ++ ((λ s, s_name s !! "en") <$> sets)) →
     od_values d = od_values acc ++ sets).
Proof.
  revert acc. induction sets as [|s sets IH]; intros acc; cbn [foldlM].
  - intros [= <-]. split; [auto|]. intros _. by rewrite app_nil_r.
  - rewrite index_by_name_unfold.
    destruct (s_name s !! "en") as [en|] eqn:Hen; cbn [mbind result_bind]; [|done].
    intros Hrun.
    destruct (IH _ Hrun) as [Hsub Hall]. split.
    + intros x Hx. destruct (Hsub x Hx) as [Hacc|Hin]; [|right; by right].
      apply od_values_od_set in Hacc as [->|Hacc]; [right; by left | by left].
    + cbn [fmap list_fmap]. rewrite Hen. intros Hnd.
      assert (en ∉ od_keys acc) as Hfresh.
      { apply NoDup_app in Hnd as (_ & Hdisj & _). intros Hin.
        apply (Hdisj (Some en)); [by apply list_elem_of_fmap_2 | by left]. }
      rewrite od_set_fresh in Hall by done.
      unfold od_keys, od_values in *. rewrite !fmap_app in Hall.
      cbn [fmap list_fmap fst snd] in Hall.
      rewrite Hall, <- (assoc_L (++)); [done|].
      rewrite <- (assoc_L (++)). exact Hnd.
Qed.

(** C7 (amended). When [load_armor_series] returns, the list it sorted is
    ordered by rank, low before high, and then by order; every set in it has
    a first member that gives its rank and an order that is the least order
    of its members. The returned dict holds only sets of that list, and when
    the English names of the sets are pairwise different it holds all of
    them in the sorted order. *)
Theorem load_armor_series_sorted (F : ArmorFiles)
    (d : list (string * ArmorSetData)) :
  load_armor_series F = Ok d →
  ∃ sets, sorted_armor_sets F = Ok sets
    ∧ Forall well_formed sets
    ∧ StronglySorted by_rank_then_order sets
    ∧ (∀ s, s ∈ od_values d → s ∈ sets)
    ∧ (NoDup ((λ s, s_name s !! "en") <$> sets) → od_values d = sets).
Proof.
  unfold load_armor_series.
  destruct (sorted_armor_sets F) as [sets|e] eqn:Hsets; [|done].
  cbn [mbind result_bind]. intros Hrun. exists sets. split; [done|].
  destruct (sorted_armor_sets_spec F sets Hsets) as [Hwf Hsorted].
  destruct (index_by_name_spec sets [] d Hrun) as [Hsub Hall].
  split; [done|]. split; [done|]. split.
  - intros s Hs. destruct (Hsub s Hs) as [Hnil|Hin]; [|done].
    by apply elem_of_nil in Hnil.
  - intros Hnd. by apply Hall.
Qed.

(** C7 (counterexample). Two of three sets share the English name
    "Leather": the high-rank one takes the place of the low-rank one, so the
    returned sets are a high-rank set followed by a low-rank set. *)
Lemma load_armor_series_duplicate_names :
  ∃ d high low,
    load_armor_series (Samples.armor_files "Leather") = Ok d
    ∧ od_values d = [high; low]
    ∧ rank_order high = Ok 1 ∧ rank_order low = Ok 0
    ∧ ¬ by_rank_then_order high low.
Proof.
  eexists _, _, _. split; [by vm_compute|]. split; [reflexivity|].
  split; [reflexivity|]. split; [reflexivity|].
  intros (r1 & r2 & [= <-] & [= <-] & Hle). lia.
Qed.

(** Three sets with different names, decoded high rank first. *)
Lemma load_armor_series_sample :
  ∃ d sets,
    load_armor_series (Samples.armor_files "Hunter") = Ok d
    ∧ od_values d = sets
    ∧ StronglySorted by_rank_then_order sets
    ∧ s_order <$> sets = [10; 20; 30].
Proof.
  destruct (load_armor_series (Samples.armor_files "Hunter")) as [d|e] eqn:Hrun;
    [|by vm_compute in Hrun].
  destruct (load_armor_series_sorted _ d Hrun)
    as (sets & Hsets & _ & Hsorted & _ & Hall).
  exists d, sets.
  vm_compute in Hsets. injection Hsets as <-.
  split; [done|]. split; [|split; [exact Hsorted | reflexivity]].
  apply Hall. apply (bool_decide_unpack _). by vm_compute.
Defined.

(* ================================================================== *)
(** * Further properties of the loaders and of the rules *)
(* ================================================================== *)

Import Tree.


(** ** WeaponDataLoader: the side tables *)

Lemma foldlM_snoc {A S} (body : S → A → Py.result S) (s : S) (l : list A) (x : A) :
  foldlM body s (l ++ [x]) = foldlM body s l ≫= λ s', body s' x.
Proof.
  revert s. induction l as [|y l IH]; intros s; cbn [foldlM app].
  - cbn [mbind result_bind]. by destruct (body s x).
  - destruct (body s y) as [s'|e]; [|done]. cbn [mbind result_bind]. apply IH.
Qed.

Section side_table.
Context {E : Type} (ty : E → nat) (ident : E → Z).

#[local] Abbreviation step := (λ (acc : gmap (Load.weapon_type * Z) E) (e : E),
  index weapon_types (ty e) ≫= λ wt, Ok (<[(wt, ident e) := e]> acc)).

#[local] Abbreviation keyed := (λ (wt : Load.weapon_type) (id : Z) (e : E),
  weapon_types !! ty e = Some wt ∧ ident e = id).

Lemma side_table_ok (acc : gmap (Load.weapon_type * Z) E) (l : list E) :
  Forall (λ e, (ty e < length weapon_types)%nat) l →
  ∃ table, foldlM step acc l = Ok table
    ∧ ∀ wt id, table !! (wt, id)
               = match last (filter (keyed wt id) l) with
                 | Some e => Some e
                 | None => acc !! (wt, id)
                 end.
Proof.
  induction l as [|e l IH] using rev_ind; intros Hall.
  - exists acc. by split.
  - apply Forall_app in Hall as [Hl [He _]%Forall_cons].
    destruct (IH Hl) as (table & Hrun & Hlookup).
    rewrite foldlM_snoc, Hrun. cbn [mbind result_bind].
    destruct (lookup_lt_is_Some_2 _ _ He) as [wt Hwt].
    unfold index. rewrite Hwt. cbn [mbind result_bind].
    eexists. split; [done|]. intros wt' id.
    rewrite filter_app, (filter_cons _ e), filter_nil.
    destruct (decide (keyed wt' id e)) as [Hkey|Hne].
    + rewrite decide_True by done. destruct Hkey as [Hty <-].
      rewrite last_snoc. rewrite Hwt in Hty. injection Hty as <-.
      by rewrite lookup_insert_eq.
    + rewrite decide_False by done.
      rewrite app_nil_r, lookup_insert_ne, Hlookup; [done|].
      intros [= <- <-]. by apply Hne.
Qed.

Lemma side_table_raise (acc : gmap (Load.weapon_type * Z) E) (l : list E) :
  ¬ Forall (λ e, (ty e < length weapon_types)%nat) l →
  foldlM step acc l = Raise IndexError.
Proof.
  revert acc. induction l as [|e l IH]; intros acc Hbad.
  - destruct Hbad. constructor.
  - cbn [foldlM]. unfold index.
    destruct (weapon_types !! ty e) as [wt|] eqn:Hwt; [|done].
    cbn [mbind result_bind]. apply IH. intros Hl. apply Hbad.
    constructor; [|done]. by apply lookup_lt_Some in Hwt.
Qed.
End side_table.

(** X1. The loader is built exactly when every crafting and upgrade entry
    has one of the fourteen equip types, and then each side table holds,
    under a (weapon type, id), the last entry of its file with that key;
    otherwise the construction raises [IndexError]. *)
Theorem WeaponDataLoader_init_spec (trees : gmap Z (gmap string string))
    (crt : list EqCrtEntry) (cus : list EqCusEntry) :
  if decide (Forall (λ e, (crt_equip_type e < length weapon_types)%nat) crt
             ∧ Forall (λ u, (equip_type u < length weapon_types)%nat) cus)
  then ∃ L, WeaponDataLoader_init trees crt cus = Ok L
         ∧ weapon_trees L = trees ∧ upgrade_data L = cus
         ∧ (∀ wt id, crafting_data_map L !! (wt, id)
                     = last (filter (λ e, weapon_types !! crt_equip_type e = Some wt
                                          ∧ crt_equip_id e = id) crt))
         ∧ (∀ wt id, upgrade_data_map L !! (wt, id)
                     = last (filter (λ u, weapon_types !! equip_type u = Some wt
                                          ∧ equip_id u = id) cus))
  else WeaponDataLoader_init trees crt cus = Raise IndexError.
Proof.
  unfold WeaponDataLoader_init. case_decide as Hvalid.
  - destruct Hvalid as [Hcrt Hcus].
    destruct (side_table_ok crt_equip_type crt_equip_id ∅ crt Hcrt)
      as (cmap & Hc & Hclook).
    destruct (side_table_ok equip_type equip_id ∅ cus Hcus)
      as (umap & Hu & Hulook).
    change (foldlM index_craft ∅ crt = Ok cmap) in Hc.
    change (foldlM index_upgrade ∅ cus = Ok umap) in Hu.
    rewrite Hc. cbn [mbind result_bind]. rewrite Hu. cbn [mbind result_bind].
    eexists. split; [done|]. cbn. split; [done|]. split; [done|]. split.
    + intros wt id. rewrite Hclook. by destruct (last _).
    + intros wt id. rewrite Hulook. by destruct (last _).
  - destruct (decide (Forall (λ e, (crt_equip_type e < length weapon_types)%nat) crt))
      as [Hcrt|Hcrt].
    + destruct (side_table_ok crt_equip_type crt_equip_id ∅ crt Hcrt)
        as (cmap & Hc & _).
      change (foldlM index_craft ∅ crt = Ok cmap) in Hc.
      rewrite Hc. cbn [mbind result_bind].
      assert (foldlM index_upgrade ∅ cus = Raise IndexError) as ->; [|done].
      apply (side_table_raise equip_type equip_id). tauto.
    + assert (foldlM index_craft ∅ crt = Raise IndexError) as ->; [|done].
      by apply (side_table_raise crt_equip_type crt_equip_id).
Qed.


(** ** Weapon trees: what the first pass builds *)

Lemma Forall_od_set {K V} `{EqDecision K} (P : K * V → Prop) (k : K) (v : V)
    (d : list (K * V)) :
  Forall P d → P (k, v) → Forall P (od_set k v d).
Proof.
  intros Hd Hv. induction Hd as [|[k0 v0] d H0 Hd IH]; cbn [od_set].
  - by constructor.
  - case_decide; constructor; auto.
Qed.

Section first_pass.
Variables (L : WeaponDataLoader) (wt : Load.weapon_type)
  (text : gmap Z (gmap string string)).

(** The recipe that a node gets from a side-table entry: none when the
    primary ingredient quantity is zero. *)
#[local] Abbreviation kept_craft := (λ id : Z,
  crafting_data_map L !! (wt, id)
    ≫= λ c, if bool_decide (crt_item1_qty c = 0) then None else Some c).
#[local] Abbreviation kept_upgrade := (λ id : Z,
  upgrade_data_map L !! (wt, id)
    ≫= λ u, if bool_decide (item1_qty u = 0) then None else Some u).

(** What holds of a node when it is created, [parent] and [children] apart. *)
#[local] Abbreviation built_from := (λ (entries : list WpDatEntry)
    (kn : Z * WeaponDataNode),
  node_id kn.2 = kn.1 ∧ wtype kn.2 = wt ∧ binary kn.2 ∈ entries
  ∧ text !! wp_gmd_name_index (binary kn.2) = Some (Load.name kn.2)
  ∧ (∃ en, Load.name kn.2 !! "en" = Some en ∧ en ≠ EmptyString
           ∧ en ≠ "Invalid Message")
  ∧ Load.craft kn.2 = kept_craft kn.1 ∧ upgrade kn.2 = kept_upgrade kn.1).

Lemma create_node_spec (entries : list WpDatEntry) (b : WpDatEntry)
    (m m' : store) (wd wd' : gmap Z (nat * nat * nat * nat)) :
  create_node L wt text (m, wd) b = Ok (m', wd') →
  Forall (built_from entries) m →
  (∀ id, wd !! id = if decide (id ∈ wp_id <$> entries)
                    then descendant_slots <$> upgrade_data_map L !! (wt, id)
                    else None) →
  Forall (built_from (entries ++ [b])) m'
  ∧ (∀ id, wd' !! id = if decide (id ∈ wp_id <$> entries ++ [b])
                       then descendant_slots <$> upgrade_data_map L !! (wt, id)
                       else None).
Proof.
  intros Hstep Hnodes Hslots.
  assert (Forall (built_from (entries ++ [b])) m) as Hnodes'.
  { eapply Forall_impl; [exact Hnodes|]. intros [id n] (?&?&?&?&?&?&?).
    split_and!; try done. apply elem_of_app. by left. }
  assert (∀ id, (match upgrade_data_map L !! (wt, wp_id b) with
                 | Some u => <[wp_id b := descendant_slots u]> wd
                 | None => wd
                 end) !! id
                = if decide (id ∈ wp_id <$> entries ++ [b])
                  then descendant_slots <$> upgrade_data_map L !! (wt, id)
                  else None) as Hslots'.
  { intros id. rewrite fmap_app, (decide_ext _ _ _ _ (elem_of_app _ _ _)).
    cbn [fmap list_fmap]. destruct (decide (id = wp_id b)) as [->|Hne].
    - rewrite decide_True by (right; by left).
      destruct (upgrade_data_map L !! (wt, wp_id b)) as [u|] eqn:Hu.
      + by rewrite lookup_insert_eq.
      + rewrite Hslots. by case_decide; rewrite ?Hu.
    - assert ((if upgrade_data_map L !! (wt, wp_id b) is Some u
               then <[wp_id b := descendant_slots u]> wd else wd) !! id
              = wd !! id) as ->.
      { destruct (upgrade_data_map L !! (wt, wp_id b)); [|done].
        by rewrite lookup_insert_ne. }
      rewrite Hslots. apply decide_ext. rewrite list_elem_of_singleton. tauto. }
  unfold create_node in Hstep.
  destruct (getitem text _) as [nm|?] eqn:Hnm; [|done].
  cbn [mbind result_bind] in Hstep.
  destruct (getitem nm "en") as [en|?] eqn:Hen; [|done].
  cbn [mbind result_bind] in Hstep.
  destruct (bool_decide (en = EmptyString) || bool_decide (en = "Invalid Message"))
    eqn:Hskip.
  { injection Hstep as <- <-. by split. }
  destruct (if bool_decide (wp_tree_id b = 0) then _ else _) as [tr|?]; [|done].
  cbn [mbind result_bind] in Hstep. injection Hstep as <- <-.
  split; [|done]. apply Forall_od_set; [done|].
  apply orb_false_iff in Hskip as [H1%bool_decide_eq_false H2%bool_decide_eq_false].
  unfold getitem in Hnm, Hen.
  destruct (text !! _) as [nm'|] eqn:Hnm'; [|done]. injection Hnm as ->.
  destruct (nm !! "en") as [en'|] eqn:Hen'; [|done]. injection Hen as ->.
  cbn. split_and!; try done.
  - apply elem_of_app. right. by left.
  - by exists en.
Qed.

Lemma create_nodes_spec (entries : list WpDatEntry) (m : store)
    (wd : gmap Z (nat * nat * nat * nat)) :
  foldlM (create_node L wt text) ([], ∅) entries = Ok (m, wd) →
  Forall (built_from entries) m
  ∧ (∀ id, wd !! id = if decide (id ∈ wp_id <$> entries)
                      then descendant_slots <$> upgrade_data_map L !! (wt, id)
                      else None).
Proof.
  revert m wd. induction entries as [|b entries IH] using rev_ind; intros m wd.
  - intros [= <- <-]. split; [constructor|]. intros id.
    rewrite lookup_empty. by rewrite decide_False by apply not_elem_of_nil.
  - rewrite foldlM_snoc.
    destruct (foldlM _ _ entries) as [[m1 wd1]|?]; [|done].
    cbn [mbind result_bind]. intros Hstep.
    destruct (IH m1 wd1 eq_refl) as [Hnodes Hslots].
    by eapply create_node_spec.
Qed.
End first_pass.


(** ** Weapon trees: what the second pass changes *)

Lemma od_alter_fmap_same {K V W} `{EqDecision K} (g : V → W) (f : V → V) (k : K)
    (d : list (K * V)) :
  (∀ v, g (f v) = g v) →
  prod_map id g <$> od_alter f k d = prod_map id g <$> d.
Proof.
  intros Hsame. induction d as [|[k0 v] d IH]; [done|].
  cbn [od_alter]. case_decide; cbn; by rewrite ?Hsame, ?IH.
Qed.

Lemma slot_targets_app (L : WeaponDataLoader) (ds ds' : list nat) :
  slot_targets L (ds ++ ds') = slot_targets L ds ++ slot_targets L ds'.
Proof. apply omap_app. Qed.

Lemma slot_targets_zero (L : WeaponDataLoader) (ds : list nat) :
  forallb (λ d, bool_decide (d = 0%nat)) ds = true → slot_targets L ds = [].
Proof.
  induction ds as [|d ds IH]; [done|]. cbn [forallb].
  intros [Hd Hds]%andb_true_iff. unfold slot_targets. cbn [omap list_omap].
  rewrite Hd. by apply IH.
Qed.

Section second_pass.
Variables (L : WeaponDataLoader) (wd : gmap Z (nat * nat * nat * nat)).

(** The fields that the second pass leaves alone. *)
#[local] Abbreviation static := (λ n : WeaponDataNode,
  (binary n, wtype n, Load.name n, Load.craft n, upgrade n)).

#[local] Abbreviation resolves := (λ (m : store) (d : nat),
  d ≠ 0%nat → ∃ entry, upgrade_data L !! d = Some entry
                       ∧ is_Some (od_get (equip_id entry) m)).

#[local] Abbreviation slots_of := (λ weapon : Z,
  from_option slot_list [] (wd !! weapon)).

(** The parent of a node lists it as a child, and children are nodes. *)
#[local] Abbreviation linked := (λ m : store,
  (∀ c p, parent_of m c = Some (Some p) →
          ∃ kids, children_of m p = Some kids ∧ c ∈ kids)
  ∧ (∀ p kids c, children_of m p = Some kids → c ∈ kids →
                 is_Some (od_get c m))).

Lemma add_child_static (weapon descendant : Z) (m : store) :
  prod_map id static <$> add_child weapon descendant m = prod_map id static <$> m.
Proof. unfold add_child. by rewrite !(od_alter_fmap_same static). Qed.

Lemma add_child_linked (weapon descendant : Z) (m : store) :
  is_Some (od_get weapon m) → is_Some (od_get descendant m) →
  linked m → linked (add_child weapon descendant m).
Proof.
  intros [wn Hwn] [dn Hdn] [Hparent Hkids]. split.
  - intros c p. rewrite parent_of_add_child, !children_of_add_child.
    destruct (decide (c = descendant)) as [->|Hc].
    + unfold parent_of. rewrite Hdn. cbn. intros [= <-].
      rewrite decide_True by done. unfold children_of. rewrite Hwn. cbn.
      eexists. split; [done|]. apply elem_of_app. right. by left.
    + intros Hp. destruct (Hparent c p Hp) as (kids & Hk & Hin).
      destruct (decide (p = weapon)) as [->|Hpw]; rewrite Hk; cbn.
      * eexists. split; [done|]. apply elem_of_app. by left.
      * by eexists.
  - intros p kids c. rewrite children_of_add_child, is_Some_add_child.
    case_decide as Hp; [|apply Hkids]. subst p.
    unfold children_of at 1. rewrite Hwn. cbn. intros [= <-].
    intros [Hin| ->%list_elem_of_singleton]%elem_of_app; [|by eexists].
    eapply Hkids; [|done]. unfold children_of. by rewrite Hwn.
Qed.

Lemma set_tree_linked (t : option string) (k : Z) (m : store) :
  linked m → linked (od_alter (set_tree t) k m).
Proof.
  intros [Hparent Hkids]. split.
  - intros c p. rewrite children_of_set_tree. unfold parent_of.
    rewrite od_get_alter. intros Hp. apply Hparent. unfold parent_of.
    case_decide; [|done]. by destruct (od_get c m).
  - intros p kids c. rewrite children_of_set_tree, od_get_alter.
    intros Hk Hin. specialize (Hkids p kids c Hk Hin).
    case_decide; [|done]. by apply fmap_is_Some.
Qed.

(** One slot: what a successful attachment means. *)
Lemma attach_descendant_ok (weapon : Z) (m m' : store) (d : nat) :
  attach_descendant L weapon m d = Ok m' →
  resolves m d
  ∧ prod_map id static <$> m' = prod_map id static <$> m
  ∧ children_of m' weapon = (.++ slot_targets L [d]) <$> children_of m weapon
  ∧ (is_Some (od_get weapon m) → linked m → linked m').
Proof.
  unfold attach_descendant, slot_targets. cbn [omap list_omap].
  case_bool_decide as Hzero.
  - intros [= <-]. split; [done|]. split; [done|]. split; [|done].
    destruct (children_of m weapon); cbn; by rewrite ?app_nil_r.
  - unfold index. destruct (upgrade_data L !! d) as [entry|]; [|done].
    cbn [mbind result_bind]. unfold od_getitem.
    destruct (od_get (equip_id entry) m) as [dn|] eqn:Hdn; [|done].
    cbn [mbind result_bind]. intros [= <-]. split_and!.
    + intros _. exists entry. split; [done | by eexists].
    + apply add_child_static.
    + rewrite children_of_add_child, decide_True by done. done.
    + intros Hw. apply add_child_linked; [done | by eexists].
Qed.

Lemma attach_descendants_ok (weapon : Z) (ds : list nat) (m m' : store) :
  foldlM (attach_descendant L weapon) m ds = Ok m' →
  Forall (resolves m) ds
  ∧ prod_map id static <$> m' = prod_map id static <$> m
  ∧ children_of m' weapon = (.++ slot_targets L ds) <$> children_of m weapon
  ∧ (is_Some (od_get weapon m) → linked m → linked m').
Proof.
  revert m. induction ds as [|d ds IH]; intros m; cbn [foldlM].
  - intros [= <-]. split_and!; try done.
    destruct (children_of m weapon); cbn; by rewrite ?app_nil_r.
  - destruct (attach_descendant L weapon m d) as [m1|?] eqn:Hstep; [|done].
    cbn [mbind result_bind]. intros Hrun.
    destruct (attach_descendant_ok _ _ _ _ Hstep) as (Hd & Hs1 & Hk1 & Hl1).
    destruct (IH _ Hrun) as (Hds & Hs & Hk & Hl).
    assert (∀ id, is_Some (od_get id m1) ↔ is_Some (od_get id m)) as Hsome.
    { intros id. rewrite <- !(fmap_is_Some static), <- !od_get_fmap.
      by rewrite Hs1. }
    split_and!.
    + constructor; [done|]. eapply Forall_impl; [exact Hds|].
      intros d' Hres Hnz. destruct (Hres Hnz) as (entry & ? & ?).
      exists entry. split; [done|]. by apply Hsome.
    + by rewrite Hs, Hs1.
    + rewrite Hk, Hk1. change (d :: ds) with ([d] ++ ds).
      rewrite slot_targets_app. destruct (children_of m weapon); cbn; [|done].
      by rewrite <- app_assoc.
    + intros Hw Hlinked. apply Hl; [by apply Hsome | by apply Hl1].
Qed.

(** One node of the second pass. *)
Lemma connect_node_ok (weapon : Z) (m m' : store) :
  connect_node L wd m weapon = Ok m' →
  Forall (resolves m) (slots_of weapon)
  ∧ prod_map id static <$> m' = prod_map id static <$> m
  ∧ children_of m' weapon
    = (.++ slot_targets L (slots_of weapon)) <$> children_of m weapon
  ∧ (is_Some (od_get weapon m) → linked m → linked m').
Proof.
  unfold connect_node. destruct (forallb _ _) eqn:Hzero.
  - intros [= <-]. split_and!; try done.
    + apply Forall_forall. intros d Hd Hnz.
      rewrite forallb_forall in Hzero. apply list_elem_of_In in Hd.
      by apply Hzero, bool_decide_eq_true in Hd.
    + rewrite slot_targets_zero by done.
      destruct (children_of m weapon); cbn; by rewrite ?app_nil_r.
  - destruct (foldlM _ m _) as [m1|?] eqn:Hrun; [|done].
    cbn [mbind result_bind].
    destruct (attach_descendants_ok _ _ _ _ Hrun) as (Hds & Hs & Hk & Hl).
    case_bool_decide; [by intros [= <-]|].
    unfold od_getitem. destruct (od_get weapon m1) as [node|]; [|done].
    cbn [mbind result_bind].
    destruct (index (children node) 0) as [first|?]; [|done].
    cbn [mbind result_bind]. intros [= <-]. split_and!.
    + done.
    + by rewrite (od_alter_fmap_same static), Hs.
    + by rewrite children_of_set_tree.
    + intros Hw Hlinked. by apply set_tree_linked, Hl.
Qed.

Lemma connect_nodes_ok (weapons : list Z) (m m' : store) :
  foldlM (connect_node L wd) m weapons = Ok m' →
  NoDup weapons →
  (∀ w, w ∈ weapons → is_Some (od_get w m)) →
  Forall (λ w, Forall (resolves m) (slots_of w)) weapons
  ∧ prod_map id static <$> m' = prod_map id static <$> m
  ∧ (∀ id, children_of m' id
           = if decide (id ∈ weapons)
             then (.++ slot_targets L (slots_of id)) <$> children_of m id
             else children_of m id)
  ∧ (linked m → linked m').
Proof.
  revert m. induction weapons as [|w weapons IH]; intros m; cbn [foldlM].
  - intros [= <-] _ _. split_and!; try done.
  - destruct (connect_node L wd m w) as [m1|?] eqn:Hstep; [|done].
    cbn [mbind result_bind]. intros Hrun [Hw Hnd]%NoDup_cons Hin.
    destruct (connect_node_ok _ _ _ Hstep) as (Hres & Hs1 & Hk1 & Hl1).
    assert (∀ id, is_Some (od_get id m1) ↔ is_Some (od_get id m)) as Hsome.
    { intros id. rewrite <- !(fmap_is_Some static), <- !od_get_fmap.
      by rewrite Hs1. }
    destruct (IH _ Hrun Hnd) as (Hall & Hs & Hk & Hl).
    { intros w' Hw'. apply Hsome, Hin. by right. }
    split_and!.
    + constructor; [done|]. eapply Forall_impl; [exact Hall|].
      intros w' Hw'. eapply Forall_impl; [exact Hw'|].
      intros d Hd Hnz. destruct (Hd Hnz) as (entry & ? & ?).
      exists entry. split; [done|]. by apply Hsome.
    + by rewrite Hs, Hs1.
    + intros id. rewrite Hk. destruct (decide (id = w)) as [->|Hne].
      * rewrite decide_False, decide_True by (done || by left). done.
      * rewrite (connect_node_children L wd w id m m1) by done.
        apply decide_ext. rewrite elem_of_cons. tauto.
    + intros Hlinked. apply Hl, Hl1; [|done]. apply Hin. by left.
Qed.
End second_pass.


(** ** Weapon trees: the assembled node map *)

Lemma od_get_Some_elem_of {K V} `{EqDecision K} (k : K) (v : V) (d : list (K * V)) :
  od_get k d = Some v → (k, v) ∈ d.
Proof.
  induction d as [|[k0 v0] d IH]; [done|]. cbn [od_get].
  case_decide; [intros [= <-]; subst; by left | intros ?; right; auto].
Qed.

Lemma foldlM_raise {A S} (P : exn → Prop) (body : S → A → Py.result S)
    (s : S) (l : list A) (e : exn) :
  (∀ s x e, body s x = Raise e → P e) →
  foldlM body s l = Raise e → P e.
Proof.
  intros Hbody. revert s. induction l as [|x l IH]; intros s; [done|].
  cbn [foldlM]. destruct (body s x) as [s'|e'] eqn:Hx.
  - cbn [mbind result_bind]. apply IH.
  - intros [= <-]. by eapply Hbody.
Qed.

Section assembled.
Variables (L : WeaponDataLoader) (wt : Load.weapon_type)
  (text : gmap Z (gmap string string)) (entries : list WpDatEntry).

(** The slots that the second pass reads for a node. *)
#[local] Abbreviation slots_for := (λ id : Z,
  from_option slot_list []
    (descendant_slots <$> upgrade_data_map L !! (wt, id))).

Lemma create_nodes_parentless (es : list WpDatEntry)
    (s0 s : store * gmap Z (nat * nat * nat * nat)) :
  foldlM (create_node L wt text) s0 es = Ok s →
  (∀ id n, od_get id s0.1 = Some n → parent n = None) →
  ∀ id n, od_get id s.1 = Some n → parent n = None.
Proof.
  revert s0. induction es as [|b es IH]; intros s0; cbn [foldlM].
  - by intros [= <-].
  - destruct (create_node L wt text s0 b) as [s1|?] eqn:Hstep; [|done].
    cbn [mbind result_bind]. intros Hrun H0. apply (IH _ Hrun).
    destruct s0 as [m0 wd0]. unfold create_node in Hstep.
    destruct (getitem text _) as [nm|?]; [|done].
    cbn [mbind result_bind] in Hstep.
    destruct (getitem nm "en") as [en|?]; [|done].
    cbn [mbind result_bind] in Hstep.
    destruct (_ || _); [by injection Hstep as <-|].
    destruct (if bool_decide (wp_tree_id b = 0) then _ else _) as [tr|?];
      [|done].
    cbn [mbind result_bind] in Hstep. injection Hstep as <-.
    cbn [fst]. intros id n. rewrite od_get_od_set.
    case_decide; [by intros [= <-] | apply H0].
Qed.

(** The two passes, taken apart. *)
Lemma load_weapon_map_passes (m : store) :
  load_weapon_map L wt text entries = Ok m →
  ∃ m0 wd,
    foldlM (create_node L wt text) ([], ∅) entries = Ok (m0, wd)
    ∧ foldlM (connect_node L wd) m0 (od_keys m0) = Ok m
    ∧ NoDup (od_keys m0)
    ∧ (∀ id, is_Some (od_get id m0) → children_of m0 id = Some []
                                      ∧ parent_of m0 id = Some None)
    ∧ (∀ id, is_Some (od_get id m0) →
             from_option slot_list [] (wd !! id) = slots_for id)
    ∧ (∀ id n0, od_get id m0 = Some n0 →
         node_id n0 = id ∧ wtype n0 = wt ∧ binary n0 ∈ entries
         ∧ text !! wp_gmd_name_index (binary n0) = Some (Load.name n0)
         ∧ (∃ en, Load.name n0 !! "en" = Some en ∧ en ≠ EmptyString
                  ∧ en ≠ "Invalid Message")
         ∧ Load.craft n0
           = crafting_data_map L !! (wt, id)
               ≫= (λ c, if bool_decide (crt_item1_qty c = 0) then None else Some c)
         ∧ upgrade n0
           = upgrade_data_map L !! (wt, id)
               ≫= (λ u, if bool_decide (item1_qty u = 0) then None else Some u)).
Proof.
  unfold load_weapon_map.
  destruct (foldlM _ ([], ∅) entries) as [[m0 wd]|?] eqn:Hfirst; [|done].
  cbn [mbind result_bind]. intros Hrun. exists m0, wd.
  destruct (create_nodes_spec L wt text entries m0 wd Hfirst) as [Hbuilt Hslots].
  destruct (create_nodes_fresh _ _ _ _ _ _ _ _ Hfirst) as [Hnd Hfresh];
    [constructor | done |].
  rewrite Forall_forall in Hbuilt.
  split_and!; try done.
  - intros id [n0 Hn0]. split.
    + apply Hfresh. unfold children_of. by rewrite Hn0.
    + unfold parent_of. rewrite Hn0. cbn. f_equal.
      by apply (create_nodes_parentless _ _ _ Hfirst) with (id := id).
  - intros id [n0 Hn0]. rewrite Hslots.
    destruct (Hbuilt _ (od_get_Some_elem_of _ _ _ Hn0)) as (Hid & _ & Hin & _).
    cbn [fst snd] in Hid, Hin.
    rewrite decide_True; [done|]. apply list_elem_of_fmap. exists (binary n0).
    split; [|done]. by rewrite <- Hid.
  - intros id n0 Hn0. exact (Hbuilt _ (od_get_Some_elem_of _ _ _ Hn0)).
Qed.

(** The second pass neither adds nor renames a node. *)
Lemma load_weapon_map_keys (m : store) :
  load_weapon_map L wt text entries = Ok m →
  NoDup (od_keys m)
  ∧ ∀ id node, od_get id m = Some node →
      node_id node = id ∧ is_Some (Load.name node !! "en").
Proof.
  intros (m0 & wd & _ & Hrun & Hnd & _ & _ & Hnodes)%load_weapon_map_passes.
  destruct (connect_nodes_ok L wd _ _ _ Hrun Hnd) as (_ & Hstatic & _).
  { intros w Hw. by apply od_get_is_Some. }
  split.
  - replace (od_keys m) with (od_keys m0); [done|].
    unfold od_keys. apply (f_equal (fmap fst)) in Hstatic.
    rewrite <- !list_fmap_compose in Hstatic. exact (eq_sym Hstatic).
  - intros id node Hnode.
    apply (f_equal (od_get id)) in Hstatic. rewrite !od_get_fmap, Hnode in Hstatic.
    destruct (od_get id m0) as [n0|] eqn:Hn0; [|done].
    injection Hstatic as Hb _ Hn _ _.
    unfold node_id. rewrite Hb, Hn.
    destruct (Hnodes _ _ Hn0) as (? & _ & _ & _ & (en & ? & _) & _).
    split; [done | by exists en].
Qed.

(** X2. Every node of an assembled map is stored under its own id, comes
    from a weapon record with a usable English name, and carries a crafting
    or an upgrade recipe exactly when the side table has one for it whose
    primary ingredient quantity is not zero; no id is stored twice. *)
Theorem load_weapon_map_nodes (m : store) :
  load_weapon_map L wt text entries = Ok m →
  NoDup (od_keys m)
  ∧ ∀ id node, od_get id m = Some node →
      node_id node = id ∧ wtype node = wt ∧ binary node ∈ entries
      ∧ text !! wp_gmd_name_index (binary node) = Some (Load.name node)
      ∧ (∃ en, Load.name node !! "en" = Some en ∧ en ≠ EmptyString
               ∧ en ≠ "Invalid Message")
      ∧ Load.craft node
        = crafting_data_map L !! (wt, id)
            ≫= (λ c, if bool_decide (crt_item1_qty c = 0) then None else Some c)
      ∧ upgrade node
        = upgrade_data_map L !! (wt, id)
            ≫= (λ u, if bool_decide (item1_qty u = 0) then None else Some u).
Proof.
  intros (m0 & wd & _ & Hrun & Hnd & _ & _ & Hnodes)%load_weapon_map_passes.
  destruct (connect_nodes_ok L wd _ _ _ Hrun Hnd) as (_ & Hstatic & _).
  { intros w Hw. by apply od_get_is_Some. }
  split.
  - replace (od_keys m) with (od_keys m0); [done|].
    unfold od_keys. apply (f_equal (fmap fst)) in Hstatic.
    rewrite <- !list_fmap_compose in Hstatic. exact (eq_sym Hstatic).
  - intros id node Hnode.
    apply (f_equal (od_get id)) in Hstatic. rewrite !od_get_fmap, Hnode in Hstatic.
    destruct (od_get id m0) as [n0|] eqn:Hn0; [|done].
    injection Hstatic as Hb Hw Hn Hc Hu.
    unfold node_id. rewrite Hb, Hw, Hn, Hc, Hu. by apply Hnodes.
Qed.

(** X3. In an assembled map the children of a node are the weapons that
    the nonzero descendant slots of its upgrade entry name, in slot order
    and nothing else; each of these slots is a position of the upgrade
    table whose weapon has a node. A node without upgrade entry has no
    children. *)
Theorem load_weapon_map_children (m : store) (id : Z) (node : WeaponDataNode) :
  load_weapon_map L wt text entries = Ok m →
  od_get id m = Some node →
  children node = slot_targets L (slots_for id)
  ∧ Forall (λ d, d ≠ 0%nat →
              ∃ entry, upgrade_data L !! d = Some entry
                       ∧ is_Some (od_get (equip_id entry) m))
      (slots_for id).
Proof.
  intros (m0 & wd & _ & Hrun & Hnd & Hfresh & Hslots & _)%load_weapon_map_passes
    Hnode.
  destruct (connect_nodes_ok L wd _ _ _ Hrun Hnd) as (Hres & Hstatic & Hkids & _).
  { intros w Hw. by apply od_get_is_Some. }
  assert (∀ id, is_Some (od_get id m) ↔ is_Some (od_get id m0)) as Hsome.
  { intros id'. apply (f_equal (od_get id')) in Hstatic.
    rewrite !od_get_fmap in Hstatic.
    destruct (od_get id' m), (od_get id' m0); try done; by split; eauto. }
  assert (is_Some (od_get id m0)) as Hin by (apply Hsome; by eexists).
  split.
  - specialize (Hkids id). rewrite decide_True in Hkids by (by apply od_get_is_Some).
    rewrite (proj1 (Hfresh id Hin)), Hslots in Hkids by done.
    unfold children_of in Hkids. rewrite Hnode in Hkids. by injection Hkids.
  - rewrite Forall_forall in Hres.
    specialize (Hres id (proj1 (od_get_is_Some _ _) Hin)). rewrite Hslots in Hres by done.
    eapply Forall_impl; [exact Hres|]. intros d Hd Hnz.
    destruct (Hd Hnz) as (entry & ? & ?). exists entry. split; [done|].
    by apply Hsome.
Qed.

(** X4. In an assembled map a node that has a parent is among the children
    of that parent, and every child of a node is itself a node of the map. *)
Theorem load_weapon_map_linked (m : store) :
  load_weapon_map L wt text entries = Ok m →
  (∀ c p, parent_of m c = Some (Some p) →
          ∃ kids, children_of m p = Some kids ∧ c ∈ kids)
  ∧ (∀ p kids c, children_of m p = Some kids → c ∈ kids →
                 is_Some (od_get c m)).
Proof.
  intros (m0 & wd & _ & Hrun & Hnd & Hfresh & _)%load_weapon_map_passes.
  destruct (connect_nodes_ok L wd _ _ _ Hrun Hnd) as (_ & _ & _ & Hlinked).
  { intros w Hw. by apply od_get_is_Some. }
  apply Hlinked. split.
  - intros c p Hp. assert (is_Some (od_get c m0)) as Hc.
    { unfold parent_of in Hp. by destruct (od_get c m0). }
    destruct (Hfresh c Hc) as [_ Hnone]. congruence.
  - intros p kids c Hk Hin. assert (is_Some (od_get p m0)) as Hp.
    { unfold children_of in Hk. by destruct (od_get p m0). }
    destruct (Hfresh p Hp) as [Hnil _]. rewrite Hk in Hnil.
    injection Hnil as ->. by apply elem_of_nil in Hin.
Qed.

Lemma create_node_raise (st : store * gmap Z (nat * nat * nat * nat))
    (b : WpDatEntry) (e : exn) :
  create_node L wt text st b = Raise e → e = KeyError.
Proof.
  destruct st as [m wd]. unfold create_node, getitem.
  destruct (text !! _) as [nm|]; [|by intros [= <-]]. cbn [mbind result_bind].
  destruct (nm !! "en") as [en|]; [|by intros [= <-]]. cbn [mbind result_bind].
  destruct (_ || _); [done|].
  case_bool_decide; [done|].
  destruct (weapon_trees L !! _) as [t|]; [|by intros [= <-]].
  cbn [mbind result_bind]. by destruct (t !! "en"); [|intros [= <-]].
Qed.

Lemma connect_node_raise (wd : gmap Z (nat * nat * nat * nat)) (m : store)
    (weapon : Z) (e : exn) :
  connect_node L wd m weapon = Raise e → e = IndexError ∨ e = KeyError.
Proof.
  unfold connect_node. destruct (forallb _ _); [done|].
  destruct (foldlM _ m _) as [m1|e1] eqn:Hrun.
  - cbn [mbind result_bind]. case_bool_decide; [done|].
    unfold od_getitem. destruct (od_get weapon m1); [|intros [= <-]; by right].
    cbn [mbind result_bind]. unfold index.
    by destruct (children _ !! _); [|intros [= <-]; left].
  - cbn [mbind result_bind]. intros [= <-].
    apply (foldlM_raise (λ e, e = IndexError ∨ e = KeyError)) in Hrun; [done|].
    intros s d e. unfold attach_descendant. case_bool_decide; [done|].
    unfold index. destruct (upgrade_data L !! d); [|intros [= <-]; by left].
    cbn [mbind result_bind]. unfold od_getitem.
    by destruct (od_get _ s); [|intros [= <-]; right].
Qed.

(** X5. A descendant slot that does not resolve is fatal: when a node has an
    upgrade entry with a nonzero slot that is no position of the upgrade
    table, or a position whose weapon has no node, the assembly raises, and
    it raises nothing but [IndexError] or [KeyError]. *)
Theorem dangling_descendant_aborts (m0 : store)
    (wd : gmap Z (nat * nat * nat * nat)) (id : Z) (u : EqCusEntry) (d : nat) :
  foldlM (create_node L wt text) ([], ∅) entries = Ok (m0, wd) →
  is_Some (od_get id m0) →
  upgrade_data_map L !! (wt, id) = Some u →
  d ∈ slot_list (descendant_slots u) → d ≠ 0%nat →
  (∀ entry, upgrade_data L !! d = Some entry →
            od_get (equip_id entry) m0 = None) →
  ∃ e, load_weapon_map L wt text entries = Raise e
       ∧ (e = IndexError ∨ e = KeyError).
Proof.
  intros Hfirst Hid Hu Hd Hnz Hdangling.
  destruct (load_weapon_map L wt text entries) as [m|e] eqn:Hload.
  - exfalso. destruct Hid as [n0 Hn0].
    pose proof Hload as (m0' & wd' & Hfirst' & Hrun & Hnd & _ & Hslots & _)%load_weapon_map_passes.
    rewrite Hfirst in Hfirst'. injection Hfirst' as <- <-.
    destruct (connect_nodes_ok L wd _ _ _ Hrun Hnd) as (Hres & _).
    { intros w Hw. by apply od_get_is_Some. }
    rewrite Forall_forall in Hres.
    specialize (Hres id (proj1 (od_get_is_Some _ _) (mk_is_Some _ _ Hn0))).
    rewrite Hslots in Hres by (by eexists).
    rewrite Hu in Hres. cbn in Hres. rewrite Forall_forall in Hres.
    destruct (Hres d Hd Hnz) as (entry & Hentry & Htarget).
    rewrite (Hdangling _ Hentry) in Htarget. by destruct Htarget.
  - exists e. split; [done|]. unfold load_weapon_map in Hload.
    rewrite Hfirst in Hload. cbn [mbind result_bind] in Hload.
    apply (foldlM_raise (λ e, e = IndexError ∨ e = KeyError)) in Hload; [done|].
    intros s w e'. apply connect_node_raise.
Qed.
End assembled.


(** ** Weapon trees: the labels that the second pass copies *)

Lemma foldlM_app {A S} (body : S → A → Py.result S) (s : S) (l1 l2 : list A) :
  foldlM body s (l1 ++ l2) = foldlM body s l1 ≫= λ s', foldlM body s' l2.
Proof.
  revert s. induction l1 as [|x l1 IH]; intros s; cbn [foldlM app].
  - done.
  - destruct (body s x) as [s'|e]; [|done]. cbn [mbind result_bind]. apply IH.
Qed.

Section labels.
Variables (L : WeaponDataLoader) (wd : gmap Z (nat * nat * nat * nat)).

#[local] Abbreviation slots_of := (λ weapon : Z,
  from_option slot_list [] (wd !! weapon)).

(** The weapon that slot 0 of a node names, when it is not zero. *)
#[local] Abbreviation first_child := (λ weapon : Z,
  head (slots_of weapon)
    ≫= λ d, if bool_decide (d = 0%nat) then None
            else equip_id <$> upgrade_data L !! d).

(** One node of the second pass that has no child yet. *)
Lemma connect_node_labels (weapon : Z) (m m' : store) :
  connect_node L wd m weapon = Ok m' →
  children_of m weapon = Some [] →
  match head (slots_of weapon) with
  | Some (S d) =>
      ∃ first others,
        equip_id <$> upgrade_data L !! S d = Some first
        ∧ children_of m' weapon = Some (first :: others)
        ∧ tree_of m' first = tree_of m weapon
        ∧ ∀ id, id ≠ first → tree_of m' id = tree_of m id
  | _ => ∀ id, tree_of m' id = tree_of m id
  end.
Proof.
  intros Hstep Hfresh.
  destruct (connect_node_ok L wd _ _ _ Hstep) as (Hres & _).
  unfold children_of in Hfresh.
  destruct (od_get weapon m) as [node|] eqn:Hnode; [|done].
  injection Hfresh as Hfresh.
  destruct (wd !! weapon) as [[[[d1 d2] d3] d4]|] eqn:Hwd.
  - cbn [from_option slot_list] in Hres. cbn [from_option slot_list head].
    destruct (connect_node_propagation L wd m weapon node d1 d2 d3 d4
                Hwd Hnode Hfresh Hres) as (m1 & Hrun & Hzero & Hprop & _).
    rewrite Hstep in Hrun. injection Hrun as <-.
    destruct d1 as [|d]; [by apply Hzero|].
    destruct Hprop as (first & rest & ? & ? & Hlabel & ?); [done|].
    exists first, rest. split_and!; try done.
    rewrite Hlabel. unfold tree_of. by rewrite Hnode.
  - cbn [from_option head]. unfold connect_node in Hstep. rewrite Hwd in Hstep.
    cbn in Hstep. by injection Hstep as <-.
Qed.

Lemma connect_nodes_labels_stable (ws : list Z) (s s' : store) (id : Z) :
  foldlM (connect_node L wd) s ws = Ok s' →
  NoDup ws →
  (∀ w, w ∈ ws → children_of s w = Some []) →
  (∀ w, w ∈ ws → first_child w ≠ Some id) →
  tree_of s' id = tree_of s id.
Proof.
  revert s. induction ws as [|w ws IH]; intros s; cbn [foldlM].
  - by intros [= <-].
  - destruct (connect_node L wd s w) as [s1|?] eqn:Hstep; [|done].
    cbn [mbind result_bind]. intros Hrun [Hw Hnd]%NoDup_cons Hfresh Hother.
    rewrite (IH s1 Hrun Hnd).
    + pose proof (connect_node_labels w s s1 Hstep (Hfresh w ltac:(by left)))
        as Hlabels.
      pose proof (Hother w ltac:(by left)) as Hne. cbn beta in Hne.
      destruct (head (slots_of w)) as [[|d]|] eqn:Hhead; [done| |done].
      destruct Hlabels as (first & others & Hfirst & _ & _ & Hkept).
      apply Hkept. intros ->. apply Hne. rewrite Hhead.
      cbn [mbind option_bind]. by rewrite bool_decide_eq_false_2.
    + intros w' Hw'. rewrite (connect_node_children L wd w w' s s1 Hstep).
      * apply Hfresh. by right.
      * by intros ->.
    + intros w' Hw'. apply Hother. by right.
Qed.
End labels.

Section propagation.
Variables (L : WeaponDataLoader) (wt : Load.weapon_type)
  (text : gmap Z (gmap string string)) (entries : list WpDatEntry).

(** The descendant slots of the upgrade entry of a weapon. *)
#[local] Abbreviation slots_for := (λ id : Z,
  from_option slot_list []
    (descendant_slots <$> upgrade_data_map L !! (wt, id))).

(** The weapon that slot 0 of a weapon names, when it is not zero. *)
#[local] Abbreviation first_child := (λ weapon : Z,
  head (slots_for weapon)
    ≫= λ d, if bool_decide (d = 0%nat) then None
            else equip_id <$> upgrade_data L !! d).

(** C6 (amended). The second pass of [load_tree] visits the nodes in the
    order of the node map, each once and before it has a child. When the
    node visited has a nonzero slot 0, the label that the node has at that
    moment is copied onto its first child, the weapon that slot 0 names, and
    no other label changes; when slot 0 is zero - all four slots zero
    included - or the weapon has no upgrade entry, no label changes. So in
    the assembled tree the first child has the label that the node had when
    it was visited unless a node visited later names the child by its slot
    0, and this is the label of the node in the assembled tree unless a node
    visited then or later names the node by its slot 0; a node that no node
    names by its slot 0 keeps the label of the first pass. *)
Theorem tree_label_propagation (t : WeaponTree) :
  load_tree L wt text entries = Ok t →
  ∃ m0 wd,
    foldlM (create_node L wt text) ([], ∅) entries = Ok (m0, wd)
    ∧ (∀ visited weapon rest,
         od_keys m0 = visited ++ weapon :: rest →
         ∃ before after,
           foldlM (connect_node L wd) m0 visited = Ok before
           ∧ connect_node L wd before weapon = Ok after
           ∧ foldlM (connect_node L wd) after rest = Ok (Load.weapon_map t)
           ∧ children_of before weapon = Some []
           ∧ (head (slots_for weapon) = None ∨ head (slots_for weapon) = Some 0%nat →
              ∀ id, tree_of after id = tree_of before id)
           ∧ (∀ d1, head (slots_for weapon) = Some d1 → d1 ≠ 0%nat →
              ∃ first others,
                equip_id <$> upgrade_data L !! d1 = Some first
                ∧ children_of after weapon = Some (first :: others)
                ∧ tree_of after first = tree_of before weapon
                ∧ (∀ id, id ≠ first → tree_of after id = tree_of before id)
                ∧ ((∀ w, w ∈ rest → first_child w ≠ Some first) →
                   tree_of (Load.weapon_map t) first = tree_of before weapon)
                ∧ ((∀ w, w ∈ rest → first_child w ≠ Some first) →
                   (∀ w, w ∈ weapon :: rest → first_child w ≠ Some weapon) →
                   tree_of (Load.weapon_map t) first
                   = tree_of (Load.weapon_map t) weapon)))
    ∧ (∀ id, (∀ w, w ∈ od_keys m0 → first_child w ≠ Some id) →
             tree_of (Load.weapon_map t) id = tree_of m0 id).
Proof.
  unfold load_tree.
  destruct (load_weapon_map L wt text entries) as [m|?] eqn:Hload; [|done].
  cbn [mbind result_bind]. unfold WeaponTree_init.
  destruct (foldlM _ [] (od_values m)) as [dict|?]; [|done].
  cbn [mbind result_bind]. intros [= <-]. cbn [Load.weapon_map].
  destruct (load_weapon_map_passes L wt text entries m Hload)
    as (m0 & wd & Hfirst & Hrun & Hnd & Hfresh & Hslots & _).
  exists m0, wd. split; [done|].
  assert (∀ w id, w ∈ od_keys m0 → first_child w ≠ Some id →
            head (from_option slot_list [] (wd !! w))
              ≫= (λ d, if bool_decide (d = 0%nat) then None
                       else equip_id <$> upgrade_data L !! d) ≠ Some id)
    as Hchild.
  { intros w id Hw%od_get_is_Some Hne. by rewrite Hslots. }
  split.
  - intros visited weapon rest Hkeys.
    assert (weapon ∈ od_keys m0) as Hweapon
      by (rewrite Hkeys; apply elem_of_app; right; by left).
    pose proof Hnd as Hnd'. rewrite Hkeys in Hnd'.
    apply NoDup_app in Hnd' as (_ & Hdisj & [Hnew Hrest]%NoDup_cons).
    rewrite Hkeys, foldlM_app in Hrun.
    destruct (foldlM _ m0 visited) as [before|?] eqn:Hbefore; [|done].
    cbn [mbind result_bind foldlM] in Hrun.
    destruct (connect_node L wd before weapon) as [after|?] eqn:Hstep; [|done].
    cbn [mbind result_bind] in Hrun. exists before, after.
    assert (∀ w, w ∈ weapon :: rest → children_of before w = Some []) as Hbare.
    { intros w Hw.
      rewrite (connect_nodes_children L wd visited w m0 before Hbefore).
      - apply Hfresh, od_get_is_Some. rewrite Hkeys. apply elem_of_app. by right.
      - intros Hin. by apply (Hdisj w Hin). }
    assert (∀ w, w ∈ rest → children_of after w = Some []) as Hbare'.
    { intros w Hw.
      rewrite (connect_node_children L wd weapon w before after Hstep).
      - apply Hbare. by right.
      - by intros ->. }
    pose proof (connect_node_labels L wd weapon before after Hstep
                  (Hbare weapon ltac:(by left))) as Hlabels.
    cbn beta in Hlabels. rewrite Hslots in Hlabels by (by apply od_get_is_Some).
    split_and!; try done.
    + by apply Hbare; left.
    + intros [Hhead|Hhead]; by rewrite Hhead in Hlabels.
    + intros d1 Hhead Hd1. rewrite Hhead in Hlabels.
      destruct d1 as [|d]; [done|].
      destruct Hlabels as (first & others & Hentry & Hkids & Hlabel & Hkept).
      exists first, others. split_and!; try done.
      * intros Hlater. rewrite <- Hlabel.
        apply (connect_nodes_labels_stable L wd rest after m first Hrun Hrest Hbare').
        intros w Hw. apply Hchild; [|by apply Hlater].
        rewrite Hkeys. apply elem_of_app. right. by right.
      * intros Hlater Hself.
        rewrite (connect_nodes_labels_stable L wd rest after m first Hrun Hrest Hbare'),
          Hlabel.
        -- symmetry.
           apply (connect_nodes_labels_stable L wd (weapon :: rest) before m weapon).
           ++ cbn [foldlM]. by rewrite Hstep.
           ++ by constructor.
           ++ done.
           ++ intros w Hw. apply Hchild; [|by apply Hself].
              rewrite Hkeys. apply elem_of_app. by right.
        -- intros w Hw. apply Hchild; [|by apply Hlater].
           rewrite Hkeys. apply elem_of_app. right. by right.
  - intros id Hnone.
    apply (connect_nodes_labels_stable L wd (od_keys m0) m0 m id Hrun Hnd).
    + intros w Hw. by apply Hfresh, od_get_is_Some.
    + intros w Hw. by apply Hchild, Hnone.
Qed.
End propagation.

(** C6 (counterexample). The record of weapon 102 precedes that of 101,
    which upgrades into it: 102 is visited first and hands its empty label
    to its first child 103, then 101 hands "Ore Tree" to 102. In the
    assembled tree weapon 102 has a nonzero slot 0 and the label "Ore Tree",
    and its first child 103 has no label. *)
Lemma tree_label_not_inherited :
  ∃ t, load_tree Samples.chain_loader GREAT_SWORD Samples.sword_text
         Samples.chain_swords = Ok t
    ∧ descendant_slots
        <$> upgrade_data_map Samples.chain_loader !! (GREAT_SWORD, 102)
      = Some (2, 0, 0, 0)%nat
    ∧ children_of (Load.weapon_map t) 102 = Some [103]
    ∧ tree_of (Load.weapon_map t) 102 = Some (Some "Ore Tree")
    ∧ tree_of (Load.weapon_map t) 103 = Some None.
Proof. eexists. split; [by vm_compute|]. by vm_compute. Qed.

(** The eight great swords, visited parents first: weapon 101 has the slots
    [5,0,0,0] and 104 the slots [3,7,0,0], so 105 and 103 have the labels of
    101 and 104; the second child 107 of 104 and weapon 102 with the slots
    [0,0,0,0] keep the labels of the first pass. *)
Lemma tree_label_propagation_samples :
  ∃ t, load_tree Samples.sword_loader GREAT_SWORD Samples.sword_text
         Samples.swords = Ok t
    ∧ tree_of (Load.weapon_map t) 105 = tree_of (Load.weapon_map t) 101
    ∧ tree_of (Load.weapon_map t) 103 = tree_of (Load.weapon_map t) 104
    ∧ tree_of (Load.weapon_map t) 107 = Some None
    ∧ tree_of (Load.weapon_map t) 102 = Some None.
Proof.
  destruct (load_tree Samples.sword_loader GREAT_SWORD Samples.sword_text
              Samples.swords) as [t|e] eqn:Ht; [|by vm_compute in Ht].
  exists t. split; [done|].
  destruct (tree_label_propagation Samples.sword_loader GREAT_SWORD
              Samples.sword_text Samples.swords t Ht)
    as (m0 & wd & Hfirst & Hvisit & Hkeep).
  vm_compute in Hfirst. injection Hfirst as <- <-.
  assert (∀ (P : Z → Prop) (l : list Z), Forall P l → ∀ w, w ∈ l → P w) as Hall
    by (intros P l HP w Hw; by eapply Forall_forall).
  split_and!.
  - destruct (Hvisit [100] 101 [102; 103; 104; 105; 106; 107] eq_refl)
      as (before & after & _ & _ & _ & _ & _ & Hprop).
    destruct (Hprop 5%nat eq_refl ltac:(done))
      as (first & others & Hentry & _ & _ & _ & _ & Hsame).
    vm_compute in Hentry. injection Hentry as <-.
    apply Hsame; apply Hall; repeat constructor; by vm_compute.
  - destruct (Hvisit [100; 101; 102; 103] 104 [105; 106; 107] eq_refl)
      as (before & after & _ & _ & _ & _ & _ & Hprop).
    destruct (Hprop 3%nat eq_refl ltac:(done))
      as (first & others & Hentry & _ & _ & _ & _ & Hsame).
    vm_compute in Hentry. injection Hentry as <-.
    apply Hsame; apply Hall; repeat constructor; by vm_compute.
  - rewrite Hkeep; [by vm_compute|].
    apply Hall; repeat constructor; by vm_compute.
  - rewrite Hkeep; [by vm_compute|].
    apply Hall; repeat constructor; by vm_compute.
Defined.


(** ** Weapon trees: roots, isolated nodes and lookups *)

Lemma od_get_elem_of {K V} `{EqDecision K} (k : K) (v : V) (d : list (K * V)) :
  NoDup (od_keys d) → (k, v) ∈ d → od_get k d = Some v.
Proof.
  unfold od_keys. induction d as [|[k0 v0] d IH]; [by intros _ ?%elem_of_nil|].
  cbn [fmap list_fmap fst od_get]. intros [Hk0 Hnd]%NoDup_cons.
  intros [[= -> ->]|Hin]%elem_of_cons; [by rewrite decide_True|].
  rewrite decide_False; [by apply IH|]. intros ->. apply Hk0.
  apply list_elem_of_fmap. by exists (k0, v).
Qed.

Lemma od_values_elem_of {K V} `{EqDecision K} (v : V) (d : list (K * V)) :
  v ∈ od_values d ↔ ∃ k, (k, v) ∈ d.
Proof.
  unfold od_values. rewrite list_elem_of_fmap. split.
  - intros ([k v'] & -> & Hin). by exists k.
  - intros [k Hin]. by exists (k, v).
Qed.

(** The by-name dict: a name leads to the last node that carries it. *)
Lemma by_name_dict (nodes : list WeaponDataNode) (dict : list (string * Z))
    (en : string) :
  foldlM (λ acc weapon,
      en ← getitem (Load.name weapon) "en";
      Ok (od_set en (node_id weapon) acc)) [] nodes = Ok dict →
  od_get en dict
  = node_id <$> last (filter (λ n, Load.name n !! "en" = Some en) nodes).
Proof.
  revert dict. induction nodes as [|n nodes IH] using rev_ind; intros dict.
  - by intros [= <-].
  - rewrite foldlM_snoc. destruct (foldlM _ [] nodes) as [dict0|?]; [|done].
    cbn [mbind result_bind]. unfold getitem.
    destruct (Load.name n !! "en") as [en'|] eqn:Hen; [|done].
    cbn [mbind result_bind]. intros [= <-].
    rewrite od_get_od_set, filter_app, (filter_cons _ n), filter_nil.
    destruct (decide (en = en')) as [->|Hne].
    + rewrite decide_True by done. by rewrite last_snoc.
    + rewrite decide_False by congruence. rewrite app_nil_r. by apply IH.
Qed.

Lemma by_name_dict_ok (nodes : list WeaponDataNode) :
  Forall (λ n, is_Some (Load.name n !! "en")) nodes →
  ∃ dict, foldlM (λ acc weapon,
      en ← getitem (Load.name weapon) "en";
      Ok (od_set en (node_id weapon) acc)) [] nodes = Ok dict.
Proof.
  intros Hall. generalize ([] : list (string * Z)).
  induction Hall as [|n nodes [en Hen] _ IH]; intros acc; cbn [foldlM]; [by eauto|].
  unfold getitem. rewrite Hen. cbn [mbind result_bind]. apply IH.
Qed.

Section tree.
Variables (L : WeaponDataLoader) (wt : Load.weapon_type)
  (text : gmap Z (gmap string string)) (entries : list WpDatEntry).

(** X6. Every assembled node map becomes a tree: the construction of the
    [WeaponTree] does not fail on it. In the tree a node is a root exactly
    when it has no parent and has a tree label, and isolated exactly when it
    has neither; no node is listed twice among the roots and the isolated
    nodes. *)
Theorem load_tree_classification (m : store) :
  load_weapon_map L wt text entries = Ok m →
  ∃ t, load_tree L wt text entries = Ok t
    ∧ Load.weapon_map t = m
    ∧ (∀ id node, od_get id m = Some node →
         (id ∈ roots t ↔ parent node = None ∧ tree node ≠ None)
         ∧ (id ∈ isolated t ↔ parent node = None ∧ tree node = None))
    ∧ NoDup (roots t ++ isolated t).
Proof.
  intros Hload. destruct (load_weapon_map_keys _ _ _ _ _ Hload) as [Hnd Hnodes].
  unfold load_tree, WeaponTree_init. rewrite Hload. cbn [mbind result_bind].
  destruct (by_name_dict_ok (od_values m)) as [dict ->].
  { apply Forall_forall. intros n [id Hn]%od_values_elem_of.
    apply od_get_elem_of in Hn; [|done].
    destruct (Hnodes _ _ Hn) as (_ & [en ->]). by eexists. }
  cbn [mbind result_bind]. eexists. split; [done|]. cbn. split; [done|].
  assert (∀ (P : WeaponDataNode → Prop) `{!∀ n, Decision (P n)} id node,
            od_get id m = Some node →
            id ∈ node_id <$> filter P (od_values m) ↔ P node) as Hmem.
  { intros P HP id node Hnode. rewrite list_elem_of_fmap. split.
    - intros (n & -> & [HPn [id' Hn]%od_values_elem_of]%list_elem_of_filter).
      apply od_get_elem_of in Hn; [|done].
      destruct (Hnodes _ _ Hn) as (Hid & _). rewrite Hid in Hnode. congruence.
    - intros HPn. exists node. destruct (Hnodes _ _ Hnode) as (Hid & _).
      split; [done|]. apply list_elem_of_filter. split; [done|].
      apply od_values_elem_of. exists id. by apply od_get_Some_elem_of. }
  split.
  - intros id node Hnode. unfold isolated. cbn.
    rewrite !list_filter_filter. split; rewrite (Hmem _ _ _ _ Hnode); tauto.
  - unfold isolated. cbn. rewrite !list_filter_filter, <- fmap_app.
    assert (NoDup (node_id <$> od_values m)) as Hids.
    { replace (node_id <$> od_values m) with (od_keys m); [done|].
      unfold od_keys, od_values. rewrite <- list_fmap_compose.
      apply list_fmap_ext. intros i [id n] Hlook. cbn.
      apply list_elem_of_lookup_2, od_get_elem_of in Hlook; [|done].
      by destruct (Hnodes _ _ Hlook) as (-> & _). }
    assert (∀ x y, x ∈ od_values m → y ∈ od_values m →
                   node_id x = node_id y → x = y) as Hinj.
    { revert Hids. generalize (od_values m). intros l.
      induction l as [|n l IH]; [by intros _ x y ?%elem_of_nil|].
      cbn [fmap list_fmap]. intros [Hn Hl]%NoDup_cons x y.
      intros [->|Hx]%elem_of_cons [->|Hy]%elem_of_cons Heq; [done| | |by apply IH].
      - destruct Hn. rewrite Heq. by apply list_elem_of_fmap_2.
      - destruct Hn. rewrite <- Heq. by apply list_elem_of_fmap_2. }
    apply NoDup_fmap_1 in Hids.
    apply NoDup_fmap_2_strong.
    + intros x y [[_ Hx]%list_elem_of_filter|[_ Hx]%list_elem_of_filter]%elem_of_app
        [[_ Hy]%list_elem_of_filter|[_ Hy]%list_elem_of_filter]%elem_of_app;
        by apply Hinj.
    + apply NoDup_app. split; [by apply NoDup_filter|].
      split; [|by apply NoDup_filter].
      intros x [[Hx _] _]%list_elem_of_filter [[Hx' _] _]%list_elem_of_filter.
      done.
Qed.

(** X7. Lookups in a tree: [by_id] returns the node stored under an id and
    raises [KeyError] for any other id; [by_name] returns the last node of
    the map that carries the English name, and nothing for a name that no
    node carries. *)
Theorem load_tree_lookups (t : WeaponTree) :
  load_tree L wt text entries = Ok t →
  (∀ id, by_id t id = match od_get id (Load.weapon_map t) with
                      | Some node => Ok node
                      | None => Raise KeyError
                      end)
  ∧ (∀ en, by_name t en
           = last (filter (λ n, Load.name n !! "en" = Some en)
                          (od_values (Load.weapon_map t)))).
Proof.
  unfold load_tree.
  destruct (load_weapon_map L wt text entries) as [m|?] eqn:Hload; [|done].
  cbn [mbind result_bind]. unfold WeaponTree_init.
  destruct (foldlM _ [] (od_values m)) as [dict|?] eqn:Hdict; [|done].
  cbn [mbind result_bind]. intros [= <-]. split; [done|].
  intros en. unfold by_name. cbn. rewrite (by_name_dict _ _ en Hdict).
  destruct (load_weapon_map_keys _ _ _ _ _ Hload) as [Hnd Hnodes].
  destruct (last _) as [n|] eqn:Hlast; [|done]. cbn.
  apply last_Some_elem_of, list_elem_of_filter in Hlast as [_ Hin].
  apply od_values_elem_of in Hin as [id Hin].
  apply od_get_elem_of in Hin; [|done].
  by destruct (Hnodes _ _ Hin) as (-> & _).
Qed.
End tree.


(** ** Weapon trees: the depth-first iteration *)

Lemma has_shape_subtrees (m : store) (r : Z) (ts : list rtree) :
  has_shape m (Node r ts)
  ↔ children_of m r = Some (root <$> ts) ∧ Forall (has_shape m) ts.
Proof.
  cbn [has_shape]. apply and_iff_compat_l.
  induction ts as [|t ts IH]; cbn [foldr].
  - split; [constructor | done].
  - rewrite Forall_cons. tauto.
Qed.

Lemma crafted_loop_cons (fuel : nat) (m : store) (x : Z) (stack : list Z) :
  crafted_loop (S fuel) m (x :: stack)
  = (x ::.) <$> crafted_loop fuel m (default [] (children_of m x) ++ stack).
Proof. reflexivity. Qed.

Lemma crafted_loop_forest (m : store) (ts : list rtree) (stack : list Z)
    (fuel : nat) :
  Forall (has_shape m) ts →
  crafted_loop (sum_list (nodes <$> ts) + fuel) m ((root <$> ts) ++ stack)
  = (mjoin (preorder <$> ts) ++.) <$> crafted_loop fuel m stack.
Proof.
  assert (∀ n ts, (sum_list (nodes <$> ts) ≤ n)%nat →
            Forall (has_shape m) ts →
            crafted_loop (sum_list (nodes <$> ts) + fuel) m ((root <$> ts) ++ stack)
            = (mjoin (preorder <$> ts) ++.) <$> crafted_loop fuel m stack) as Hgen;
    [|by apply (Hgen (sum_list (nodes <$> ts)))].
  clear ts. induction n as [|n IH]; intros ts Hle Hshape.
  - destruct ts as [|[r kids] ts]; [|cbn in Hle; lia].
    cbn. by destruct (crafted_loop fuel m stack).
  - destruct ts as [|[r kids] ts].
    { cbn. by destruct (crafted_loop fuel m stack). }
    apply Forall_cons in Hshape as [[Hkids Hsub]%has_shape_subtrees Hts].
    change (nodes <$> Node r kids :: ts)
      with (S (sum_list (nodes <$> kids)) :: (nodes <$> ts)) in Hle |- *.
    change (root <$> Node r kids :: ts) with (r :: (root <$> ts)).
    change (preorder <$> Node r kids :: ts)
      with ((r :: mjoin (preorder <$> kids)) :: (preorder <$> ts)).
    change (sum_list (?x :: ?l)) with (x + sum_list l)%nat in Hle |- *.
    replace (S (sum_list (nodes <$> kids)) + sum_list (nodes <$> ts) + fuel)%nat
      with (S (sum_list (nodes <$> kids ++ ts) + fuel))
      by (rewrite fmap_app, sum_list_with_app; lia).
    cbn [app]. rewrite crafted_loop_cons, Hkids. cbn [default].
    unfold id. rewrite (assoc_L (++)), <- fmap_app.
    rewrite IH.
    + rewrite fmap_app, join_app. cbn [mjoin list_join].
      by destruct (crafted_loop fuel m stack).
    + rewrite fmap_app, sum_list_with_app. lia.
    + by apply Forall_app.
Qed.

(** X8. When the children lists below the roots of a tree form a forest,
    the iteration ends and yields the nodes in depth-first pre-order: each
    root, then its subtrees in the order of its children, root after root. *)
Theorem crafted_preorder (t : WeaponTree) (ts : list rtree) (spare : nat) :
  roots t = root <$> ts →
  Forall (has_shape (Load.weapon_map t)) ts →
  crafted (sum_list (nodes <$> ts) + spare) t = Some (mjoin (preorder <$> ts)).
Proof.
  intros Hroots Hshape. unfold crafted. rewrite Hroots.
  rewrite <- (app_nil_r (root <$> ts)), crafted_loop_forest by done.
  destruct spare; cbn; by rewrite app_nil_r.
Qed.

(** X9. When a root lies in a set of nodes each of which has a child in the
    set - a node that is its own descendant, or one from which such a node
    is reached - the iteration never ends: it is still running after any
    number of steps. *)
Theorem crafted_cycle_diverges (t : WeaponTree) (doomed : Z → Prop) (fuel : nat) :
  (∀ x, doomed x →
        ∃ kids y, children_of (Load.weapon_map t) x = Some kids
                  ∧ y ∈ kids ∧ doomed y) →
  (∃ x, x ∈ roots t ∧ doomed x) →
  crafted fuel t = None.
Proof.
  intros Hclosed. unfold crafted. generalize (roots t). intros stack.
  revert stack. induction fuel as [|fuel IH]; intros stack.
  - intros (x & Hx & _). destruct stack; [by apply elem_of_nil in Hx | done].
  - intros (x & Hx & Hdoomed). destruct stack as [|y stack];
      [by apply elem_of_nil in Hx|].
    cbn [crafted_loop]. rewrite IH; [done|].
    apply elem_of_cons in Hx as [->|Hx].
    + destruct (Hclosed _ Hdoomed) as (kids & z & -> & Hz & Hdz).
      exists z. split; [|done]. apply elem_of_app. by left.
    + exists x. split; [|done]. apply elem_of_app. by right.
Qed.


(** ** Weapon trees: the sample tables *)

(** The eight great swords: every node under its own id. *)
Lemma load_weapon_map_nodes_sample :
  ∃ m, load_weapon_map Samples.sword_loader GREAT_SWORD Samples.sword_text
         Samples.swords = Ok m
    ∧ od_keys m = [100; 101; 102; 103; 104; 105; 106; 107]
    ∧ NoDup (od_keys m)
    ∧ ∀ id node, od_get id m = Some node →
        node_id node = id ∧ wtype node = GREAT_SWORD
        ∧ Load.craft node = None
        ∧ upgrade node
          = upgrade_data_map Samples.sword_loader !! (GREAT_SWORD, id)
              ≫= (λ u, if bool_decide (item1_qty u = 0) then None else Some u).
Proof.
  destruct (load_weapon_map Samples.sword_loader GREAT_SWORD Samples.sword_text
              Samples.swords) as [m|e] eqn:Hload; [|by vm_compute in Hload].
  exists m.
  destruct (load_weapon_map_nodes Samples.sword_loader GREAT_SWORD
              Samples.sword_text Samples.swords m Hload) as [Hnd Hnodes].
  split; [done|]. split; [by vm_compute in Hload; injection Hload as <-|].
  split; [done|]. intros id node Hnode.
  destruct (Hnodes id node Hnode) as (? & ? & _ & _ & _ & Hcraft & ?).
  split_and!; by rewrite ?Hcraft.
Defined.

(** The eight great swords: weapon 104 has the slots [3,7,0,0]. *)
Lemma load_weapon_map_children_sample :
  ∃ m node, load_weapon_map Samples.sword_loader GREAT_SWORD Samples.sword_text
              Samples.swords = Ok m
    ∧ od_get 104 m = Some node
    ∧ children node = [103; 107].
Proof.
  destruct (load_weapon_map Samples.sword_loader GREAT_SWORD Samples.sword_text
              Samples.swords) as [m|e] eqn:Hload; [|by vm_compute in Hload].
  destruct (od_get 104 m) as [node|] eqn:Hnode;
    [|by vm_compute in Hload; injection Hload as <-].
  exists m, node. split; [done|]. split; [done|].
  by destruct (load_weapon_map_children Samples.sword_loader GREAT_SWORD
                 Samples.sword_text Samples.swords m 104 node Hload Hnode)
    as [-> _].
Defined.

(** The eight great swords: the parent of weapon 107 lists it. *)
Lemma load_weapon_map_linked_sample :
  ∃ m, load_weapon_map Samples.sword_loader GREAT_SWORD Samples.sword_text
         Samples.swords = Ok m
    ∧ parent_of m 107 = Some (Some 104)
    ∧ ∃ kids, children_of m 104 = Some kids ∧ 107 ∈ kids.
Proof.
  destruct (load_weapon_map Samples.sword_loader GREAT_SWORD Samples.sword_text
              Samples.swords) as [m|e] eqn:Hload; [|by vm_compute in Hload].
  exists m.
  assert (parent_of m 107 = Some (Some 104)) as Hparent
    by (by vm_compute in Hload; injection Hload as <-).
  split; [done|]. split; [done|].
  by apply (load_weapon_map_linked Samples.sword_loader GREAT_SWORD
              Samples.sword_text Samples.swords m Hload).
Defined.

(** A slot that names the entry of a weapon without record. *)
Lemma dangling_descendant_sample :
  ∃ e, load_weapon_map (MoreSamples.loader_of MoreSamples.dangling_table)
         GREAT_SWORD Samples.sword_text [Samples.sword 100 1] = Raise e
       ∧ (e = IndexError ∨ e = KeyError).
Proof.
  eapply (dangling_descendant_aborts _ _ _ _ _ _ 100 _ 1%nat).
  - by vm_compute.
  - by eexists.
  - by vm_compute.
  - by left.
  - done.
  - by intros entry [= <-].
Defined.

(** The eight great swords: two roots, two isolated weapons. *)
Lemma load_tree_classification_sample :
  ∃ t, load_tree Samples.sword_loader GREAT_SWORD Samples.sword_text
         Samples.swords = Ok t
    ∧ roots t = [101; 104] ∧ isolated t = [100; 102]
    ∧ NoDup (roots t ++ isolated t).
Proof.
  destruct (load_weapon_map Samples.sword_loader GREAT_SWORD Samples.sword_text
              Samples.swords) as [m|e] eqn:Hload; [|by vm_compute in Hload].
  destruct (load_tree_classification Samples.sword_loader GREAT_SWORD
              Samples.sword_text Samples.swords m Hload) as (t & Ht & _ & _ & Hnd).
  exists t. split; [done|]. split_and!; [| |done];
    by vm_compute in Ht; injection Ht as <-.
Defined.

(** The eight great swords: lookups by id and by name. *)
Lemma load_tree_lookups_sample :
  ∃ t, load_tree Samples.sword_loader GREAT_SWORD Samples.sword_text
         Samples.swords = Ok t
    ∧ by_id t 999 = Raise KeyError
    ∧ node_id <$> by_name t "Steel Sword" = Some 105
    ∧ by_name t "Rusted Sword" = None.
Proof.
  destruct (load_tree Samples.sword_loader GREAT_SWORD Samples.sword_text
              Samples.swords) as [t|e] eqn:Ht; [|by vm_compute in Ht].
  exists t. split; [done|].
  destruct (load_tree_lookups Samples.sword_loader GREAT_SWORD
              Samples.sword_text Samples.swords t Ht) as [Hid Hname].
  rewrite Hid, !Hname. by vm_compute in Ht; injection Ht as <-.
Defined.

(** The eight great swords in depth-first order. *)
Lemma crafted_preorder_sample :
  ∃ t, load_tree Samples.sword_loader GREAT_SWORD Samples.sword_text
         Samples.swords = Ok t
    ∧ crafted 6 t = Some [101; 105; 106; 104; 103; 107].
Proof.
  destruct (load_tree Samples.sword_loader GREAT_SWORD Samples.sword_text
              Samples.swords) as [t|e] eqn:Ht; [|by vm_compute in Ht].
  exists t. split; [done|].
  apply (crafted_preorder t MoreSamples.sword_forest 0).
  - by vm_compute in Ht; injection Ht as <-.
  - vm_compute in Ht; injection Ht as <-. repeat constructor.
Defined.

(** A tree whose root reaches two weapons that upgrade into each other. *)
Lemma crafted_cycle_sample :
  ∃ t, load_tree (MoreSamples.loader_of MoreSamples.cyclic_table) GREAT_SWORD
         Samples.sword_text MoreSamples.cyclic_swords = Ok t
    ∧ roots t = [100]
    ∧ ∀ fuel, crafted fuel t = None.
Proof.
  destruct (load_tree (MoreSamples.loader_of MoreSamples.cyclic_table)
              GREAT_SWORD Samples.sword_text MoreSamples.cyclic_swords)
    as [t|e] eqn:Ht; [|by vm_compute in Ht].
  exists t. split; [done|]. vm_compute in Ht. injection Ht as <-.
  split; [done|]. intros fuel.
  apply (crafted_cycle_diverges _ (λ x, x ∈ [100; 101; 102]) fuel).
  - intros x Hx. repeat (apply elem_of_cons in Hx as [->|Hx]);
      [| | |by apply elem_of_nil in Hx].
    + exists [101], 101. split; [done|]. split; repeat constructor.
    + exists [102], 102. split; [done|]. split; repeat constructor.
    + exists [101], 101. split; [done|]. split; repeat constructor.
  - exists 100. split; repeat constructor.
Defined.


(** ** Armor series: which records become members *)

Lemma craft_table_lookup (crt : list EqCrtEntry) (id : Z) :
  foldl (λ acc craft_entry, <[crt_equip_id craft_entry := craft_entry]> acc)
        (∅ : gmap Z EqCrtEntry) crt !! id
  = last (filter (λ e, crt_equip_id e = id) crt).
Proof.
  induction crt as [|e crt IH] using rev_ind; [done|].
  rewrite foldl_app, filter_app, (filter_cons _ e), filter_nil. cbn [foldl].
  case_decide as Hid.
  - by rewrite Hid, lookup_insert_eq, last_snoc.
  - by rewrite lookup_insert_ne, app_nil_r.
Qed.

Lemma od_set_append_values {K A} `{EqDecision K} (k : K) (x : A)
    (d : list (K * list A)) :
  mjoin (od_values (od_set k (default [] (od_get k d) ++ [x]) d))
  ≡ₚ x :: mjoin (od_values d).
Proof.
  unfold od_values. induction d as [|[k0 v0] d IH]; cbn [od_set od_get].
  - done.
  - case_decide as Hk; cbn [fmap list_fmap snd mjoin list_join default from_option id].
    + rewrite <- (assoc_L (++)). cbn [app]. symmetry. apply Permutation_middle.
    + cbn [mjoin list_join] in IH. rewrite IH. symmetry. apply Permutation_middle.
Qed.

Lemma forM_ok {A B} (f : A → Py.result B) (l : list A) :
  Forall (λ x, ∃ y, f x = Ok y) l → ∃ ys, forM f l = Ok ys.
Proof.
  induction 1 as [|x l [y Hy] _ [ys IH]]; cbn [forM]; [by eauto|].
  rewrite Hy. cbn [mbind result_bind]. rewrite IH. cbn [mbind result_bind].
  by eauto.
Qed.

Lemma foldlM_ok {A S} (body : S → A → Py.result S) (s : S) (l : list A) :
  Forall (λ x, ∀ s, ∃ s', body s x = Ok s') l → ∃ s', foldlM body s l = Ok s'.
Proof.
  intros Hall. revert s.
  induction Hall as [|x l Hx _ IH]; intros s; cbn [foldlM]; [by eauto|].
  destruct (Hx s) as [s' ->]. cbn [mbind result_bind]. apply IH.
Qed.

Lemma foldlM_ok_inv {A S} (body : S → A → Py.result S) (s s' : S) (l : list A) :
  foldlM body s l = Ok s' → Forall (λ x, ∃ s1 s2, body s1 x = Ok s2) l.
Proof.
  revert s. induction l as [|x l IH]; intros s; cbn [foldlM]; [constructor|].
  destruct (body s x) as [s1|?] eqn:Hx; [|done]. cbn [mbind result_bind].
  intros Hrun. constructor; [by eauto | by eapply IH].
Qed.

Section armor_groups.
Variable F : ArmorFiles.

(** [armor_craft_data] *)
#[local] Abbreviation crafts :=
  (foldl (λ acc craft_entry, <[crt_equip_id craft_entry := craft_entry]> acc)
         (∅ : gmap Z EqCrtEntry) (armor_crt F)).

(** The crafting entry that [armor_craft_data] holds for a record: the last
    one of the file with the id of the record. *)
#[local] Abbreviation recipe_for := (λ b : AmDatEntry,
  last (filter (λ e, crt_equip_id e = am_id b) (armor_crt F))).

(** The records that the first loop does not skip. *)
#[local] Abbreviation included := (λ b : AmDatEntry,
  default EmptyString (armor_text F !! am_gmd_name_index b ≫= (.!! "en"))
    ≠ EmptyString
  ∧ am_set_id b ≠ 0 ∧ am_type b = 0 ∧ am_gender b ≠ 0 ∧ am_order b ≠ 0
  ∧ is_Some (recipe_for b)).

#[local] Abbreviation made_from := (λ a : ArmorData,
  armor_text F !! am_gmd_name_index (a_binary a) = Some (a_name a)
  ∧ recipe_for (a_binary a) = Some (a_recipe a)).

Lemma collect_armor_step (groups groups' : list (Z * list ArmorData))
    (b : AmDatEntry) :
  collect_armor (armor_text F) crafts groups b = Ok groups' →
  if decide (included b)
  then ∃ a, a_binary a = b ∧ made_from a
            ∧ groups' = od_set (am_set_id b)
                          (default [] (od_get (am_set_id b) groups) ++ [a]) groups
  else groups' = groups.
Proof.
  unfold collect_armor, getitem. rewrite craft_table_lookup.
  destruct (armor_text F !! am_gmd_name_index b) as [nd|] eqn:Hnd; [|done].
  cbn [mbind result_bind option_bind].
  case_bool_decide as Hempty.
  { intros [= <-]. rewrite decide_False; [done|].
    intros [Hen _]. by rewrite Hempty, lookup_empty in Hen. }
  destruct (nd !! "en") as [en|] eqn:Hen; [|done].
  cbn [mbind result_bind default from_option id].
  repeat (case_bool_decide;
          [intros [= <-]; rewrite decide_False; [done | tauto]|]).
  destruct (last _) as [r|] eqn:Hr.
  - intros [= <-]. rewrite decide_True by (split_and!; try done; by eexists).
    eexists. split_and!; [| | |done]; done.
  - intros [= <-]. rewrite decide_False; [done|]. by intros (_&_&_&_&_&[? ?]).
Qed.

Lemma collect_armors_spec (dat : list AmDatEntry)
    (groups : list (Z * list ArmorData)) :
  foldlM (collect_armor (armor_text F) crafts) [] dat = Ok groups →
  (∀ set_id, a_binary <$> default [] (od_get set_id groups)
             = filter (λ b, included b ∧ am_set_id b = set_id) dat)
  ∧ (∀ set_id members, od_get set_id groups = Some members →
       members ≠ [] ∧ Forall made_from members)
  ∧ NoDup (od_keys groups)
  ∧ a_binary <$> mjoin (od_values groups) ≡ₚ filter included dat.
Proof.
  revert groups. induction dat as [|b dat IH] using rev_ind; intros groups.
  - intros [= <-]. split_and!; try done. constructor.
  - rewrite foldlM_snoc.
    destruct (foldlM _ [] dat) as [groups0|?]; [|done].
    cbn [mbind result_bind]. intros Hstep%collect_armor_step.
    destruct (IH groups0 eq_refl) as (Hmembers & Hwf & Hnd & Hperm).
    rewrite filter_app. cbn [filter list_filter].
    case_decide as Hb.
    + destruct Hstep as (a & Ha & Hmade & ->). split_and!.
      * intros set_id. rewrite od_get_od_set, filter_app.
        cbn [filter list_filter].
        destruct (decide (set_id = am_set_id b)) as [->|Hne].
        -- rewrite !decide_True by (try split; done).
           cbn [default from_option id].
           rewrite fmap_app, Hmembers. cbn [fmap list_fmap]. by rewrite Ha.
        -- rewrite !decide_False by (try intros [_ ?]; congruence).
           by rewrite app_nil_r.
      * intros set_id members. rewrite od_get_od_set.
        case_decide as Hid; [|apply Hwf]. intros [= <-]. split.
        -- by destruct (default [] _).
        -- apply Forall_app. split; [|by apply Forall_singleton].
           destruct (od_get (am_set_id b) groups0) as [ms|] eqn:Hms;
             [by apply (Hwf _ _ Hms) | apply Forall_nil_2].
      * rewrite od_keys_od_set. case_decide as Hin; [done|].
        apply NoDup_app. split_and!; [done| |apply NoDup_singleton].
        intros k Hk ->%list_elem_of_singleton. done.
      * by rewrite od_set_append_values, fmap_cons, Hperm, Ha,
          <- Permutation_cons_append.
    + subst groups. rewrite !app_nil_r. split_and!; try done.
      intros set_id. rewrite filter_app. cbn [filter list_filter].
      rewrite decide_False by tauto. by rewrite app_nil_r.
Qed.

(** X10. The sets are a partition of the armor records that pass the
    filter of the first loop - a non-empty English name, a set id, type 0,
    a gender, an order and a crafting entry. Every set carries the text of
    one set id and holds the records of that set id that pass, in file
    order, each with its own text and the last crafting entry of its id. *)
Theorem armor_sets_members (sets : list ArmorSetData) :
  sorted_armor_sets F = Ok sets →
  Forall (λ s, ∃ set_id,
            armorset_text F !! set_id = Some (s_name s)
            ∧ armors s ≠ []
            ∧ a_binary <$> armors s
              = filter (λ b, included b ∧ am_set_id b = set_id) (armor_dat F)
            ∧ Forall made_from (armors s)) sets
  ∧ a_binary <$> mjoin (armors <$> sets) ≡ₚ filter included (armor_dat F).
Proof.
  unfold sorted_armor_sets.
  destruct (foldlM _ [] (armor_dat F)) as [groups|e] eqn:Hgroups; [|done].
  cbn [mbind result_bind].
  destruct (forM _ groups) as [sets0|e] eqn:Hsets; [|done].
  cbn [mbind result_bind].
  destruct (forM _ sets0) as [keyed|e] eqn:Hkeyed; [|done].
  cbn [mbind result_bind]. intros [= <-].
  destruct (collect_armors_spec _ _ Hgroups) as (Hmembers & Hwf & Hnd & Hperm).
  apply forM_Forall2 in Hsets, Hkeyed.
  assert (keyed.*2 = sets0) as Hsnd.
  { clear -Hkeyed. induction Hkeyed as [|a ka l l' Ha _ IH]; [done|].
    cbn [fmap list_fmap]. rewrite IH. f_equal.
    destruct (rank_order a); cbn in Ha; [|done]. by injection Ha as <-. }
  assert ((sorted lt_pair fst keyed).*2 ≡ₚ sets0) as Hsorted.
  { rewrite <- Hsnd. apply fmap_Permutation, (sorted_Permutation lt_pair fst). }
  assert (Forall2 (λ g s, armorset_text F !! g.1 = Some (s_name s)
                          ∧ armors s = g.2) groups sets0) as Hinit.
  { eapply Forall2_impl; [exact Hsets|]. intros [set_id members] s.
    cbn [fst snd]. unfold getitem. destruct (armorset_text F !! set_id) as [nm|]; [|done].
    cbn [mbind result_bind]. by intros (-> & -> & _)%ArmorSetData_init_spec. }
  split.
  - rewrite Hsorted. apply Forall2_Forall_r with (1 := Hinit).
    apply Forall_forall. intros [set_id members] Hin s [Hname Harmors].
    cbn [fst snd] in *. subst members.
    assert (od_get set_id groups = Some (armors s)) as Hget.
    { apply od_get_elem_of; [done|]. exact Hin. }
    exists set_id. specialize (Hmembers set_id). rewrite Hget in Hmembers.
    destruct (Hwf _ _ Hget). by split_and!.
  - assert (armors <$> sets0 = od_values groups) as Hvalues.
    { clear -Hinit. induction Hinit as [|g s l l' [_ Hs] _ IH]; [done|].
      unfold od_values in *. cbn [fmap list_fmap]. by rewrite IH, Hs. }
    by rewrite Hsorted, Hvalues.
Qed.

Lemma collect_armor_ok (groups : list (Z * list ArmorData)) (b : AmDatEntry) :
  (∃ nd, armor_text F !! am_gmd_name_index b = Some nd
         ∧ (nd ≠ ∅ → is_Some (nd !! "en"))) →
  ∃ groups', collect_armor (armor_text F) crafts groups b = Ok groups'.
Proof.
  intros (nd & Hnd & Hen). unfold collect_armor, getitem. rewrite Hnd.
  cbn [mbind result_bind]. case_bool_decide as Hempty; [by eauto|].
  destruct (Hen Hempty) as [en ->]. cbn [mbind result_bind].
  repeat (case_bool_decide; [by eauto|]).
  destruct (crafts !! am_id b); by eauto.
Qed.

(** X12. [load_armor_series] returns a result exactly when every armor
    record has a text that is empty or has an English entry, and every
    record that passes the filter has one of the six equip slots and a set
    id whose series text has an English entry. In particular [min] never
    meets an empty member list. *)
Theorem load_armor_series_succeeds :
  (∃ d, load_armor_series F = Ok d)
  ↔ Forall (λ b, ∃ nd, armor_text F !! am_gmd_name_index b = Some nd
                       ∧ (nd ≠ ∅ → is_Some (nd !! "en"))) (armor_dat F)
    ∧ Forall (λ b, included b →
                   (am_equip_slot b < 6)%nat
                   ∧ is_Some (armorset_text F !! am_set_id b ≫= (.!! "en")))
             (armor_dat F).
Proof.
  split; [intros [d Hrun] | intros [Htext Hsets]].
  { revert Hrun. unfold load_armor_series, sorted_armor_sets.
    destruct (foldlM _ [] (armor_dat F)) as [groups|e] eqn:Hgroups; [|done].
    cbn [mbind result_bind].
    destruct (forM _ groups) as [sets0|e] eqn:Hsets0; [|done].
    cbn [mbind result_bind].
    destruct (forM _ sets0) as [keyed|e] eqn:Hkeyed; [|done].
    cbn [mbind result_bind]. intros Hdict%foldlM_ok_inv.
    destruct (collect_armors_spec _ _ Hgroups) as (Hmembers & _ & _ & _).
    apply forM_Forall2 in Hsets0, Hkeyed.
    assert (keyed.*2 = sets0) as Hsnd.
    { clear -Hkeyed. induction Hkeyed as [|a ka l l' Ha _ IH]; [done|].
      cbn [fmap list_fmap]. rewrite IH. f_equal.
      destruct (rank_order a); cbn in Ha; [|done]. by injection Ha as <-. }
    assert ((sorted lt_pair fst keyed).*2 ≡ₚ sets0) as Hsorted.
    { rewrite <- Hsnd. apply fmap_Permutation, (sorted_Permutation lt_pair fst). }
    rewrite Hsorted in Hdict. split.
    - apply foldlM_ok_inv in Hgroups. eapply Forall_impl; [exact Hgroups|].
      intros b (g1 & g2 & Hb). revert Hb. unfold collect_armor, getitem.
      destruct (armor_text F !! am_gmd_name_index b) as [nd|]; [|done].
      cbn [mbind result_bind]. intros Hb. exists nd. split; [done|].
      intros Hne. rewrite bool_decide_eq_false_2 in Hb by done.
      by destruct (nd !! "en").
    - apply Forall_forall. intros b Hdat Hinc.
      assert (b ∈ a_binary <$> default [] (od_get (am_set_id b) groups)) as Hb.
      { rewrite Hmembers. by apply list_elem_of_filter. }
      destruct (od_get (am_set_id b) groups) as [members|] eqn:Hget;
        [|by apply elem_of_nil in Hb].
      cbn [default from_option id] in Hb.
      apply list_elem_of_fmap in Hb as (a & -> & Ha).
      apply od_get_Some_elem_of in Hget.
      apply list_elem_of_lookup in Hget as [i Hi].
      destruct (Forall2_lookup_l _ _ _ _ _ Hsets0 Hi) as (s & Hs & Hinit).
      apply list_elem_of_lookup_2 in Hs.
      rewrite Forall_forall in Hdict. destruct (Hdict s Hs) as (acc & acc' & Hname).
      rewrite index_by_name_unfold in Hname.
      revert Hinit. unfold getitem.
      destruct (armorset_text F !! am_set_id (a_binary a)) as [nm|]; [|done].
      cbn [mbind result_bind option_bind]. unfold ArmorSetData_init.
      destruct (min_by order members) as [least|?]; [|done].
      cbn [mbind result_bind].
      destruct (foldlM _ [] members) as [by_part|?] eqn:Hparts; [|done].
      cbn [mbind result_bind]. intros [= <-]. cbn [s_name] in Hname.
      split; [|by destruct (nm !! "en"); eauto].
      apply foldlM_ok_inv in Hparts. rewrite Forall_forall in Hparts.
      destruct (Hparts a Ha) as (p1 & p2 & Hpart). revert Hpart.
      unfold part, index.
      destruct (_ !! am_equip_slot (a_binary a)) as [p|] eqn:Hp; [|done].
      intros _. by apply lookup_lt_Some in Hp. }
  unfold load_armor_series, sorted_armor_sets.
  destruct (foldlM_ok (collect_armor (armor_text F) crafts) [] (armor_dat F))
    as [groups Hgroups].
  { eapply Forall_impl; [exact Htext|]. intros b Hb groups.
    by apply collect_armor_ok. }
  rewrite Hgroups. cbn [mbind result_bind].
  destruct (collect_armors_spec _ _ Hgroups) as (Hmembers & Hwf & Hnd & _).
  (* the sets *)
  match goal with
  | |- context [forM ?f groups] => destruct (forM_ok f groups) as [sets0 Hsets0]
  end.
  { apply Forall_forall. intros [set_id members] Hin.
    assert (od_get set_id groups = Some members) as Hget
      by (by apply od_get_elem_of).
    destruct (Hwf _ _ Hget) as [Hne _].
    specialize (Hmembers set_id). rewrite Hget in Hmembers.
    cbn [default from_option id] in Hmembers.
    assert (∀ a, a ∈ members →
              (am_equip_slot (a_binary a) < 6)%nat
              ∧ is_Some (armorset_text F !! set_id ≫= (.!! "en"))) as Hall.
    { intros a Ha. apply (list_elem_of_fmap_2 a_binary) in Ha.
      rewrite Hmembers in Ha. apply list_elem_of_filter in Ha as [[Hinc <-] Hdat].
      rewrite Forall_forall in Hsets. by apply Hsets. }
    destruct members as [|first rest]; [by destruct Hne|].
    destruct (Hall first) as [_ [en Hen]]; [by left|].
    destruct (armorset_text F !! set_id) as [nm|] eqn:Hnm; [|done].
    unfold getitem. rewrite Hnm. cbn [mbind result_bind].
    unfold ArmorSetData_init.
    destruct (min_by_nonempty order first rest) as [least ->].
    cbn [mbind result_bind].
    match goal with
    | |- context [foldlM ?f [] ?l] => destruct (foldlM_ok f [] l) as [by_part ->]
    end; [|cbn [mbind result_bind]; by eauto].
    apply Forall_forall. intros a Ha acc.
    destruct (Hall a Ha) as [Hslot _]. unfold part, index.
    destruct (lookup_lt_is_Some_2
                ["head"; "chest"; "arms"; "waist"; "legs"; "charm"]
                (am_equip_slot (a_binary a))) as [p ->]; [done|].
    cbn [mbind result_bind]. by eauto. }
  rewrite Hsets0. cbn [mbind result_bind].
  apply forM_Forall2 in Hsets0.
  assert (Forall (λ s, armors s ≠ [] ∧ is_Some (s_name s !! "en")) sets0)
    as Hgood.
  { apply Forall2_Forall_r with (1 := Hsets0).
    apply Forall_forall. intros [set_id members] Hin s.
    assert (od_get set_id groups = Some members) as Hget
      by (by apply od_get_elem_of).
    destruct (Hwf _ _ Hget) as [Hne _].
    specialize (Hmembers set_id). rewrite Hget in Hmembers.
    cbn [default from_option id] in Hmembers.
    unfold getitem. destruct (armorset_text F !! set_id) as [nm|] eqn:Hnm; [|done].
    cbn [mbind result_bind]. intros (Hname & Harmors & _)%ArmorSetData_init_spec.
    rewrite Hname, Harmors. split; [done|].
    destruct members as [|first rest]; [by destruct Hne|].
    assert (a_binary first ∈ a_binary <$> first :: rest) as Hfirst by left.
    rewrite Hmembers in Hfirst.
    apply list_elem_of_filter in Hfirst as [[Hinc Hid] Hdat].
    rewrite Forall_forall in Hsets. destruct (Hsets _ Hdat Hinc) as [_ Hen].
    by rewrite Hid, Hnm in Hen. }
  (* the sort keys *)
  match goal with
  | |- context [forM ?f sets0] => destruct (forM_ok f sets0) as [keyed Hkeyed]
  end.
  { eapply Forall_impl; [exact Hgood|]. intros s [Hne _].
    unfold rank_order, s_rank, index. destruct (armors s); [done|].
    cbn. by eauto. }
  rewrite Hkeyed. cbn [mbind result_bind].
  apply forM_Forall2 in Hkeyed.
  assert (keyed.*2 = sets0) as Hsnd.
  { clear -Hkeyed. induction Hkeyed as [|a ka l l' Ha _ IH]; [done|].
    cbn [fmap list_fmap]. rewrite IH. f_equal.
    destruct (rank_order a); cbn in Ha; [|done]. by injection Ha as <-. }
  (* the dict *)
  apply foldlM_ok.
  assert ((sorted lt_pair fst keyed).*2 ≡ₚ sets0) as ->.
  { rewrite <- Hsnd. apply fmap_Permutation, (sorted_Permutation lt_pair fst). }
  eapply Forall_impl; [exact Hgood|]. intros s [_ [en Hen]] acc.
  rewrite index_by_name_unfold, Hen. by eauto.
Qed.
End armor_groups.


(** ** Armor series: the parts of a set *)

#[local] Instance exn_eq_dec : EqDecision exn.
Proof. solve_decision. Defined.

#[local] Instance result_eq_dec {A} `{EqDecision A} : EqDecision (Py.result A).
Proof. solve_decision. Defined.

Lemma armor_by_part_spec (members : list ArmorData)
    (acc d : list (string * ArmorData)) (partname : string) :
  foldlM (λ acc a, p ← part a; Ok (od_set p a acc)) acc members = Ok d →
  od_get partname d
  = match last (filter (λ a, part a = Ok partname) members) with
    | Some a => Some a
    | None => od_get partname acc
    end.
Proof.
  revert d. induction members as [|a members IH] using rev_ind; intros d.
  - by intros [= <-].
  - rewrite foldlM_snoc.
    destruct (foldlM _ acc members) as [d0|?]; [|done].
    cbn [mbind result_bind]. destruct (part a) as [p|?] eqn:Hp; [|done].
    cbn [mbind result_bind]. intros [= <-].
    rewrite od_get_od_set, filter_app. cbn [filter list_filter].
    rewrite Hp. destruct (decide (partname = p)) as [->|Hne].
    + rewrite decide_True by done. by rewrite last_snoc.
    + rewrite decide_False by congruence. rewrite app_nil_r. by apply IH.
Qed.

(** X11. In an assembled set [get_part] returns the last member that is of
    the part asked for - a later member takes the place of an earlier one
    of the same part - and nothing when no member is of that part. *)
Theorem get_part_last (name : gmap string string) (members : list ArmorData)
    (s : ArmorSetData) (partname : string) :
  ArmorSetData_init name members = Ok s →
  get_part s partname = last (filter (λ a, part a = Ok partname) members).
Proof.
  unfold ArmorSetData_init.
  destruct (min_by order members) as [least|e]; [|done].
  cbn [mbind result_bind].
  destruct (foldlM _ [] members) as [by_part|e] eqn:Hparts; [|done].
  cbn [mbind result_bind]. intros [= <-]. unfold get_part. cbn.
  rewrite (armor_by_part_spec _ _ _ partname Hparts). by destruct (last _).
Qed.


(** ** Armor series: the sample records *)

(** Of eight records four are skipped; the other four make two sets. *)
Lemma armor_sets_members_sample :
  ∃ sets, sorted_armor_sets MoreSamples.mixed_armor = Ok sets
    ∧ fmap (M := list) (am_id ∘ a_binary) <$> (armors <$> sets) = [[1; 2]; [7; 8]]
    ∧ am_id <$> (a_binary <$> mjoin (armors <$> sets)) ≡ₚ [1; 2; 7; 8].
Proof.
  destruct (sorted_armor_sets MoreSamples.mixed_armor) as [sets|e] eqn:Hsets;
    [|by vm_compute in Hsets].
  exists sets. split; [done|].
  destruct (armor_sets_members MoreSamples.mixed_armor sets Hsets) as [_ Hperm].
  split; [by vm_compute in Hsets; injection Hsets as <-|].
  rewrite Hperm. by vm_compute.
Defined.

(** Two helmets in one set: the later one is the head piece. *)
Lemma get_part_last_sample :
  ∃ s, ArmorSetData_init (Samples.en "Chainmail")
         [MoreSamples.helmet 7 "Chainmail Headgear";
          MoreSamples.helmet 8 "Chainmail Hood"] = Ok s
    ∧ get_part s "head" = Some (MoreSamples.helmet 8 "Chainmail Hood")
    ∧ get_part s "legs" = None.
Proof.
  eexists. split; [reflexivity|]. split.
  - by rewrite (get_part_last (Samples.en "Chainmail")
                  [MoreSamples.helmet 7 "Chainmail Headgear";
                   MoreSamples.helmet 8 "Chainmail Hood"]).
  - by rewrite (get_part_last (Samples.en "Chainmail")
                  [MoreSamples.helmet 7 "Chainmail Headgear";
                   MoreSamples.helmet 8 "Chainmail Hood"]).
Defined.


(** ** convert_recipe *)

Section convert_recipe.
Import Items.

(** The English name of an item, when the text table has one. *)
#[local] Abbreviation name_en := (λ (h : ItemTextHandler) (item_id : Z),
  _item_text h !! (item_id * 2) ≫= (.!! "en")).

(** The handler after the given ids were handed to [add]. *)
#[local] Abbreviation seen := (λ (ids : list Z) (h : ItemTextHandler),
  {| _item_text := _item_text h; encountered := encountered h ++ ids |}).

(** The ids of the ingredients with a quantity. *)
#[local] Abbreviation used := (λ slots : list (Z * Z),
  (filter (λ s, s.2 ≠ 0) slots).*1).

#[local] Abbreviation converted := (λ (h : ItemTextHandler) (i : nat)
    (s : Z * Z) (new_data : list (string * cell)),
  od_set ("item" +:+ pretty i +:+ "_qty")
         (CQty (if bool_decide (s.2 ≠ 0) then Some s.2 else None))
    (od_set ("item" +:+ pretty i +:+ "_name")
            (CName (if bool_decide (s.2 = 0) then None else name_en h s.1))
       new_data)).

Lemma seen_nil (h : ItemTextHandler) : seen [] h = h.
Proof. destruct h. cbn. by rewrite app_nil_r. Qed.

Lemma convert_slots_ok (h : ItemTextHandler) (slots : list (Z * Z)) (i : nat)
    (new_data : list (string * cell)) (ids : list Z) :
  Forall (λ s, s.2 ≠ 0 → is_Some (name_en h s.1)) slots →
  convert_slots i slots new_data (seen ids h)
  = (Ok (foldl (λ acc js, converted h js.1 js.2 acc) new_data
               (zip (seq i (length slots)) slots)),
     seen (ids ++ used slots) h).
Proof.
  intros Hall. revert i new_data ids.
  induction Hall as [|[item_id item_qty] slots Hs _ IH]; intros i new_data ids.
  - cbn. by rewrite app_nil_r.
  - cbn [convert_slots length seq zip zip_with foldl fst snd filter list_filter].
    cbn [fst snd] in Hs. case_bool_decide as Hqty.
    + destruct (decide (item_qty ≠ 0)) as [?|_]; [done|].
      by rewrite IH.
    + destruct (decide (item_qty ≠ 0)) as [_|?]; [|done].
      destruct (Hs Hqty) as [en Hen].
      unfold name_for, add, getitem. cbn [_item_text encountered].
      destruct (_item_text h !! (item_id * 2)) as [nd|] eqn:Hnd; [|done].
      cbn [mbind result_bind option_bind] in Hen |- *. rewrite Hen.
      cbn [mbind result_bind]. rewrite <- (assoc_L (++)).
      rewrite (IH _ _ (ids ++ [item_id])). cbn [fst snd fmap list_fmap].
      by rewrite <- !(assoc_L (++)).
Qed.

Lemma convert_slots_raise (h : ItemTextHandler) (pre post : list (Z * Z))
    (item_id item_qty : Z) (i : nat) (new_data : list (string * cell))
    (ids : list Z) :
  Forall (λ s, s.2 ≠ 0 → is_Some (name_en h s.1)) pre →
  item_qty ≠ 0 → name_en h item_id = None →
  convert_slots i (pre ++ (item_id, item_qty) :: post) new_data (seen ids h)
  = (Raise KeyError, seen (ids ++ used pre ++ [item_id]) h).
Proof.
  intros Hpre Hqty Hmissing. cbn beta in Hmissing. revert i new_data ids.
  induction Hpre as [|[id qty] pre Hs _ IH]; intros i new_data ids.
  - cbn [app convert_slots filter list_filter fmap list_fmap].
    rewrite bool_decide_eq_false_2 by done.
    unfold name_for, add, getitem. cbn [_item_text encountered].
    destruct (_item_text h !! (item_id * 2)) as [nd|];
      cbn [mbind result_bind option_bind] in Hmissing |- *;
      rewrite ?Hmissing; cbn [mbind result_bind app];
      by rewrite <- ?(assoc_L (++)).
  - cbn [app convert_slots filter list_filter fst snd].
    cbn [fst snd] in Hs. case_bool_decide as Hq.
    + destruct (decide (qty ≠ 0)) as [?|_]; [done|]. by rewrite IH.
    + destruct (decide (qty ≠ 0)) as [_|?]; [|done].
      destruct (Hs Hq) as [en Hen].
      unfold name_for, add, getitem. cbn [_item_text encountered].
      destruct (_item_text h !! (id * 2)) as [nd|] eqn:Hnd; [|done].
      cbn [mbind result_bind option_bind] in Hen |- *. rewrite Hen.
      cbn [mbind result_bind]. rewrite <- (assoc_L (++)).
      rewrite (IH _ _ (ids ++ [id])). cbn [fst snd fmap list_fmap].
      by rewrite <- !(assoc_L (++)).
Qed.

(** X13. When every ingredient with a quantity has an English text,
    [convert_recipe] returns the eight entries in slot order: an ingredient
    without quantity gives [None] for both its name and its quantity and
    is not looked up, and the handler has recorded the ids of the
    ingredients with a quantity, in slot order, and no other. *)
Theorem convert_recipe_spec (h : ItemTextHandler) (r : RecipeBinary) :
  Forall (λ s, s.2 ≠ 0 → is_Some (name_en h s.1)) (ingredients r) →
  convert_recipe h r
  = (Ok [ ("item1_name",
           CName (if bool_decide (item1_qty r = 0) then None
                  else name_en h (item1_id r)));
          ("item1_qty",
           CQty (if bool_decide (item1_qty r ≠ 0) then Some (item1_qty r)
                 else None));
          ("item2_name",
           CName (if bool_decide (item2_qty r = 0) then None
                  else name_en h (item2_id r)));
          ("item2_qty",
           CQty (if bool_decide (item2_qty r ≠ 0) then Some (item2_qty r)
                 else None));
          ("item3_name",
           CName (if bool_decide (item3_qty r = 0) then None
                  else name_en h (item3_id r)));
          ("item3_qty",
           CQty (if bool_decide (item3_qty r ≠ 0) then Some (item3_qty r)
                 else None));
          ("item4_name",
           CName (if bool_decide (item4_qty r = 0) then None
                  else name_en h (item4_id r)));
          ("item4_qty",
           CQty (if bool_decide (item4_qty r ≠ 0) then Some (item4_qty r)
                 else None)) ],
     seen (used (ingredients r)) h).
Proof.
  intros Hall. unfold convert_recipe.
  rewrite <- (seen_nil h) at 1. by rewrite convert_slots_ok.
Qed.

(** X14. When the first ingredient with a quantity that has no English text
    is reached, [convert_recipe] raises [KeyError]; by then the handler has
    recorded the ingredients with a quantity up to and including that one,
    and none of the later ones. *)
Theorem convert_recipe_missing_text (h : ItemTextHandler) (r : RecipeBinary)
    (pre post : list (Z * Z)) (item_id item_qty : Z) :
  ingredients r = pre ++ (item_id, item_qty) :: post →
  Forall (λ s, s.2 ≠ 0 → is_Some (name_en h s.1)) pre →
  item_qty ≠ 0 → name_en h item_id = None →
  convert_recipe h r = (Raise KeyError, seen (used pre ++ [item_id]) h).
Proof.
  intros Hr Hpre Hqty Hmissing. unfold convert_recipe.
  rewrite Hr. rewrite <- (seen_nil h) at 1.
  by rewrite convert_slots_raise.
Qed.
End convert_recipe.


(** ** validate: what is written *)



Section output.
Variables (C : Cfg) (D : Datafn) (mhdata : MHData).

(** An event that is no error line. *)
#[local] Abbreviation no_error := (λ ev : event,
  match ev with
  | Print line => startswith "ERROR: " line = false
  | EnsureWarn _ _ => True
  end).





End output.

(** ** validate_skills: what is accepted *)

Lemma bind_nil_iff {A B} (f : A → list B) (l : list A) :
  l ≫= f = [] ↔ Forall (λ x, f x = []) l.
Proof.
  induction l as [|x l IH]; [by split; [constructor|]|].
  cbn. rewrite app_nil, Forall_cons. by rewrite IH.
Qed.

(** X16. [validate_skills] reports nothing exactly when, for every skill,
    the level values are pairwise different and each lies between 0 and
    the number of levels. *)
Theorem validate_skills_accepts (mhdata : MHData) :
  validate_skills mhdata = []
  ↔ Forall (λ skill,
       NoDup (levels skill)
       ∧ Forall (λ l, 0 ≤ l ≤ Z.of_nat (length (levels skill))) (levels skill))
     (values (skill_map mhdata)).
Proof.
  unfold validate_skills. rewrite bind_nil_iff.
  apply Forall_proper; [|done]. intros skill. apply skill_errors_nil_iff.
Qed.


(** ** validate_monster_rewards: the errors *)

Section reward_errors.
Variables (C : Cfg) (mhdata : MHData).

(** The errors that one reward of a monster gives rise to. *)
#[local] Abbreviation reported := (λ (monster_name : string) (r : Reward)
    (e : string),
  ((condition_en r ∉ names (monster_reward_conditions_map mhdata) "en")
   ∧ e = ("Invalid condition " +:+ condition_en r +:+ " in monster " +:+
          monster_name))
  ∨ ((item_en r ∉ names (item_map mhdata) "en")
     ∧ e = ("Monster reward item " +:+ item_en r +:+ " doesn't exist"))
  ∨ ((rank r ∉ supported_ranks C)
     ∧ e = ("Unsupported rank " +:+ rank r +:+ " in " +:+ monster_name +:+
            " rewards"))).

Lemma check_reward_reported (n : string) (st : gset string * bool) (r : Reward)
    (e : string) :
  e ∈ (check_reward C mhdata n st r).1 ↔ e ∈ st.1 ∨ reported n r e.
Proof.
  unfold check_reward, inb.
  repeat case_bool_decide; cbn [fst]; set_solver.
Qed.

Lemma check_rewards_reported (n : string) (st : gset string * bool)
    (rs : list Reward) (e : string) :
  e ∈ (foldl (check_reward C mhdata n) st rs).1
  ↔ e ∈ st.1 ∨ ∃ r, r ∈ rs ∧ reported n r e.
Proof.
  revert st. induction rs as [|r rs IH]; intros st; cbn [foldl].
  - split; [by left|]. intros [?|(r & []%elem_of_nil & _)]; done.
  - rewrite IH, check_reward_reported. split.
    + intros [[?|?]|(r' & ? & ?)]; [by left | right | right].
      * exists r. split; [by left | done].
      * exists r'. split; [by right | done].
    + intros [?|(r' & [->|?]%elem_of_cons & ?)]; [by left; left | by left; right |].
      right. by exists r'.
Qed.

Lemma check_monster_rewards_reported (errors : gset string) (entry : Monster)
    (e : string) :
  e ∈ (check_monster_rewards C mhdata errors entry).1
  ↔ e ∈ errors
    ∨ ∃ rs r, rewards entry = Some rs ∧ r ∈ rs
              ∧ reported (name (monster_map mhdata) entry "en") r e.
Proof.
  unfold check_monster_rewards. destruct (rewards entry) as [rs|].
  - pose proof (check_rewards_reported (name (monster_map mhdata) entry "en")
                  (errors, true) rs e) as Hrs.
    destruct (foldl _ _ rs) as [errors' valid]. cbn [fst] in Hrs.
    assert ((if negb valid then mret errors'
             else for_each (check_percentage
                              (name (monster_map mhdata) entry "en"))
                    (reward_groups rs) ≫= λ _, mret errors').1 = errors')
      as -> by (destruct valid; cbn [negb]; by io_simpl).
    rewrite Hrs. split.
    + intros [?|(r & ? & ?)]; [by left | right; by exists rs, r].
    + intros [?|(rs' & r & [= <-] & ? & ?)]; [by left | right; by exists r].
  - cbn. split; [by left|]. by intros [?|(? & ? & [=] & _)].
Qed.

(** X17. The errors of [validate_monster_rewards] are those of the single
    rewards: a reward gives an error for its condition, for its item and
    for its rank, each when it does not resolve, and nothing else is an
    error - in particular no percentage sum. *)
Theorem validate_monster_rewards_errors (e : string) :
  e ∈ (validate_monster_rewards C mhdata).1
  ↔ ∃ entry rs r,
      entry ∈ values (monster_map mhdata) ∧ rewards entry = Some rs ∧ r ∈ rs
      ∧ reported (name (monster_map mhdata) entry "en") r e.
Proof.
  unfold validate_monster_rewards.
  assert (∀ l errors,
            e ∈ (foldl_io (check_monster_rewards C mhdata) errors l).1
            ↔ e ∈ errors
              ∨ ∃ entry rs r, entry ∈ l ∧ rewards entry = Some rs ∧ r ∈ rs
                  ∧ reported (name (monster_map mhdata) entry "en") r e)
    as Hgen.
  { induction l as [|entry l IH]; intros errors; cbn [foldl_io].
    - rewrite io_ret_fst. split; [by left|].
      intros [?|(? & ? & ? & []%elem_of_nil & _)]; done.
    - rewrite io_bind_fst, IH, check_monster_rewards_reported. split.
      + intros [[?|(rs & r & ? & ? & ?)]|(entry' & rs & r & ? & ? & ? & ?)].
        * by left.
        * right. exists entry, rs, r. split_and!; try done. by left.
        * right. exists entry', rs, r. split_and!; try done. by right.
      + intros [?|(entry' & rs & r & [->|?]%elem_of_cons & ? & ? & ?)].
        * by left; left.
        * left; right. by exists rs, r.
        * right. by exists entry', rs, r. }
  rewrite Hgen. split; [|by right]. intros [[]%elem_of_empty|?]; done.
Qed.
End reward_errors.


(** ** validate_armor: what is accepted *)

Lemma foldl_io_fst_snoc {A S} (body : S → A → io S) (s : S) (l : list A) (x : A) :
  (foldl_io body s (l ++ [x])).1 = (body (foldl_io body s l).1 x).1.
Proof.
  revert s. induction l as [|y l IH]; intros s; cbn [foldl_io app].
  - by io_simpl.
  - by rewrite !io_bind_fst, IH.
Qed.

Section armor_accepts.
Variables (C : Cfg) (D : Datafn) (mhdata : MHData).

(** The id that a piece name of a set stands for: that of an armor with
    this English name, unless it is 0. *)
#[local] Abbreviation armor_id := (λ armor_name : string,
  id_of (armor_map mhdata) "en" armor_name
    ≫= λ id, if bool_decide (id = 0) then None else Some id).

(** The piece names of a set, part by part. *)
#[local] Abbreviation piece_names := (λ setentry : ArmorSet,
  filter_none ((λ part, pieces setentry !! part) <$> armor_parts C)).

#[local] Abbreviation monster_known := (λ setentry : ArmorSet,
  ∀ monster_name, monster setentry = Some monster_name →
    monster_name ≠ EmptyString →
    monster_name ∈ names (monster_map mhdata) "en").

Lemma check_set_armors_spec (setname : string) (armor_names : list string)
    (errors : list string) (enc : gset Z) :
  let st := foldl (check_set_armor mhdata setname) (errors, enc) armor_names in
  st.2 = enc ∪ list_to_set (omap armor_id armor_names)
  ∧ (st.1 = []
     ↔ errors = [] ∧ Forall (λ n, is_Some (armor_id n)) armor_names
       ∧ NoDup (omap armor_id armor_names)
       ∧ ∀ id, id ∈ omap armor_id armor_names → id ∉ enc).
Proof.
  revert errors enc.
  induction armor_names as [|n armor_names IH]; intros errors enc; cbn zeta.
  - cbn. split; [set_solver|]. split; [|by intros [? _]].
    intros ->. split_and!; try done; [constructor | by intros ? ?%elem_of_nil].
  - cbn [foldl omap list_omap].
    specialize (IH (check_set_armor mhdata setname (errors, enc) n).1
                   (check_set_armor mhdata setname (errors, enc) n).2).
    rewrite <- surjective_pairing in IH. cbn zeta in IH.
    destruct IH as [-> ->]. unfold check_set_armor. cbn [fst snd].
    destruct (id_of (armor_map mhdata) "en" n) as [id|] eqn:Hid;
      cbn [mbind option_bind]; [case_bool_decide as Hzero|].
    + cbn [fst snd]. split; [done|]. split.
      * intros [Hnil _]. by destruct errors.
      * intros (_ & [Hsome _]%Forall_cons & _). cbn beta in Hsome.
        rewrite Hid in Hsome. cbn [mbind option_bind] in Hsome.
        rewrite bool_decide_eq_true_2 in Hsome by done. by destruct Hsome.
    + case_bool_decide as Hdup; cbn [fst snd].
      * split; [set_solver|]. split.
        -- intros [Hnil _]. by destruct errors.
        -- intros (_ & _ & _ & Hfresh). destruct (Hfresh id); [by left | done].
      * split; [set_solver|]. rewrite Forall_cons, NoDup_cons. split.
        -- intros (-> & Hall & Hnd & Hfresh). split_and!; try done.
           ++ rewrite Hid. cbn [mbind option_bind].
              rewrite bool_decide_eq_false_2 by done. by eexists.
           ++ intros Hin. apply (Hfresh id Hin). set_solver.
           ++ intros id' [->|Hin]%elem_of_cons; [done|].
              specialize (Hfresh id' Hin). set_solver.
        -- intros (-> & [_ Hall] & [Hnin Hnd] & Hfresh). split_and!; try done.
           intros id' Hin. specialize (Hfresh id' (list_elem_of_further _ _ _ Hin)).
           assert (id' ≠ id) by (by intros ->). set_solver.
    + cbn [fst snd]. split; [done|]. split.
      * intros [Hnil _]. by destruct errors.
      * intros (_ & [Hsome _]%Forall_cons & _). cbn beta in Hsome.
        rewrite Hid in Hsome. by destruct Hsome.
Qed.

Lemma check_armorsets_spec (sets : list ArmorSet) :
  let st := (foldl_io (check_armorset C mhdata) ([], ∅) sets).1 in
  st.2 = list_to_set (omap armor_id (sets ≫= piece_names))
  ∧ (st.1 = []
     ↔ Forall monster_known sets
       ∧ Forall (λ n, is_Some (armor_id n)) (sets ≫= piece_names)
       ∧ NoDup (omap armor_id (sets ≫= piece_names))).
Proof.
  cbn zeta. induction sets as [|setentry sets IH] using rev_ind.
  - cbn. split; [done|]. split; [|done]. intros _. split_and!; constructor.
  - rewrite foldl_io_fst_snoc.
    destruct (foldl_io _ _ sets).1 as [errors enc]. cbn [fst snd] in IH.
    destruct IH as [-> IH]. unfold check_armorset. io_simpl. cbn [fst snd].
    set (setname := name (armorset_map mhdata) setentry "en").
    match goal with
    | |- context [foldl _ (?e, _) _] => set (errors' := e)
    end.
    destruct (check_set_armors_spec setname (piece_names setentry) errors'
                (list_to_set (omap armor_id (sets ≫= piece_names))))
      as [-> ->].
    rewrite bind_app, omap_app, list_to_set_app_L. cbn [mbind list_bind].
    rewrite app_nil_r. split; [done|].
    rewrite !Forall_app, Forall_singleton, NoDup_app.
    assert (errors' = [] ↔ errors = [] ∧ monster_known setentry) as ->.
    { subst errors'. destruct (monster setentry) as [m|]; cbn [fst].
      - destruct (negb (bool_decide (m = EmptyString)) && negb (inb m _)) eqn:Hm.
        + split; [by destruct errors|]. intros [_ Hknown].
          apply andb_true_iff in Hm as [Hne Hin].
          apply negb_true_iff, bool_decide_eq_false in Hne, Hin.
          destruct Hin. by apply Hknown.
        + split; [|by intros [? _]]. intros ->. split; [done|].
          intros ? [= <-] Hne.
          apply andb_false_iff in Hm as [Hm|Hm];
            apply negb_false_iff, bool_decide_eq_true in Hm; done.
      - split; [|by intros [? _]]. intros ->. split; [done|]. by intros ? [=]. }
    rewrite IH. split.
    + intros (((Hm & Hall & Hnd) & Hknown) & Hall' & Hnd' & Hfresh).
      split_and!; try done. intros id Hin Hin'. apply (Hfresh id Hin').
      by apply elem_of_list_to_set.
    + intros ((Hm & Hknown) & (Hall & Hall') & (Hnd & Hfresh & Hnd')).
      split_and!; try done. intros id Hin' Hin%elem_of_list_to_set.
      by apply (Hfresh id).
Qed.

(** X18. [validate_armor] reports nothing exactly when: the monster of every
    set is known; every piece name of every set is the name of an armor
    with a nonzero id; no two piece names, of one set or of two, stand for
    the same armor; every armor is a piece of some set, and its recipe
    items and skills exist; and the skills of every set bonus exist. *)
Theorem validate_armor_accepts :
  (validate_armor C D mhdata).1 = []
  ↔ Forall monster_known (values (armorset_map mhdata))
    ∧ Forall (λ n, is_Some (armor_id n))
             (values (armorset_map mhdata) ≫= piece_names)
    ∧ NoDup (omap armor_id (values (armorset_map mhdata) ≫= piece_names))
    ∧ Forall (λ ie : Z * Armor,
         ie.1 ∈ omap armor_id (values (armorset_map mhdata) ≫= piece_names)
         ∧ Forall (λ iq, iq.1 ∈ names (item_map mhdata) "en")
                  (iter_armor_recipe D ie.2)
         ∧ Forall (λ sp, sp.1 ∈ names (skill_map mhdata) "en")
                  (iter_skill_points D ie.2))
        (items (armor_map mhdata))
    ∧ Forall (λ bonus_entry,
         Forall (λ sp, sp.1 ∈ names (skill_map mhdata) "en")
                (iter_setbonus_skills D bonus_entry))
        (values (armorset_bonus_map mhdata)).
Proof.
  assert (∀ (l : list (string * Z)) (known : list string) (msg : string → string),
            (l ≫= λ '(n, _), if inb n known then [] else [msg n]) = []
            ↔ Forall (λ p, p.1 ∈ known) l) as Hrefs.
  { intros l known msg. rewrite bind_nil_iff. apply Forall_proper; [|done].
    intros [n q]. unfold inb. cbn [fst]. case_bool_decide; by split. }
  pose proof (check_armorsets_spec (values (armorset_map mhdata))) as Hsets.
  cbn zeta in Hsets. unfold validate_armor. rewrite io_bind_fst.
  destruct (foldl_io _ _ (values (armorset_map mhdata))).1 as [errors enc].
  cbn [fst snd] in Hsets. destruct Hsets as [-> Hsets]. io_simpl.
  rewrite !app_nil, Hsets, bind_nil_iff.
  assert (Forall (λ ie : Z * Armor,
            armor_errors D mhdata
              (list_to_set (omap armor_id
                 (values (armorset_map mhdata) ≫= piece_names))) ie = [])
            (items (armor_map mhdata))
          ↔ Forall (λ ie : Z * Armor,
              ie.1 ∈ omap armor_id (values (armorset_map mhdata) ≫= piece_names)
              ∧ Forall (λ iq, iq.1 ∈ names (item_map mhdata) "en")
                       (iter_armor_recipe D ie.2)
              ∧ Forall (λ sp, sp.1 ∈ names (skill_map mhdata) "en")
                       (iter_skill_points D ie.2))
             (items (armor_map mhdata))) as ->.
  { apply Forall_proper; [|done]. intros [id a]. unfold armor_errors.
    rewrite !app_nil, !Hrefs. cbn [fst snd].
    case_bool_decide as Hin; rewrite elem_of_list_to_set in Hin;
      split; try tauto; by intros [[=] _]. }
  assert (((values (armorset_bonus_map mhdata)
            ≫= λ bonus_entry,
                 iter_setbonus_skills D bonus_entry
                 ≫= λ '(skill_name, _),
                      if inb skill_name (names (skill_map mhdata) "en") then []
                      else ["Skill " +:+ skill_name +:+
                            " in set bonuses does not exist"]) = [])
          ↔ Forall (λ bonus_entry,
              Forall (λ sp, sp.1 ∈ names (skill_map mhdata) "en")
                     (iter_setbonus_skills D bonus_entry))
             (values (armorset_bonus_map mhdata))) as ->.
  { rewrite bind_nil_iff. apply Forall_proper; [|done]. intros b.
    apply Hrefs. }
  tauto.
Qed.
End armor_accepts.


(** ** Weapon trees: when the assembly returns *)

Section run.
Variables (L : WeaponDataLoader) (wd : gmap Z (nat * nat * nat * nat)).

#[local] Abbreviation resolves := (λ (m : store) (d : nat),
  d ≠ 0%nat → ∃ entry, upgrade_data L !! d = Some entry
                       ∧ is_Some (od_get (equip_id entry) m)).

#[local] Abbreviation slots_of := (λ weapon : Z,
  from_option slot_list [] (wd !! weapon)).

Lemma connect_node_run (weapon : Z) (m : store) :
  is_Some (od_get weapon m) →
  Forall (resolves m) (slots_of weapon) →
  ∃ m', connect_node L wd m weapon = Ok m'
        ∧ ∀ id, is_Some (od_get id m') ↔ is_Some (od_get id m).
Proof.
  intros [node Hnode] Hres. unfold connect_node.
  destruct (forallb _ _) eqn:Hzero; [by exists m|].
  destruct (attach_descendants L weapon _ m Hres)
    as (m1 & Hrun & _ & Hsome & Hkids & _).
  rewrite Hrun. cbn [mbind result_bind].
  case_bool_decide as Hlast; [by exists m1|].
  destruct (proj2 (Hsome weapon) (mk_is_Some _ _ Hnode)) as [node1 Hnode1].
  unfold od_getitem. rewrite Hnode1. cbn [mbind result_bind].
  specialize (Hkids weapon). rewrite decide_True in Hkids by done.
  unfold children_of in Hkids. rewrite Hnode1, Hnode in Hkids.
  cbn [fmap option_fmap option_map] in Hkids. injection Hkids as Hkids.
  destruct (wd !! weapon) as [[[[d1 d2] d3] d4]|] eqn:Hwd;
    cbn [from_option slot_list] in *; [|done].
  assert (d1 ≠ 0%nat) as Hd1 by (intros ->; by apply Hlast).
  inversion_clear Hres as [|? ? Hres1 _].
  destruct (Hres1 Hd1) as (entry & Hentry & _).
  unfold slot_targets in Hkids. cbn [omap list_omap] in Hkids.
  rewrite bool_decide_eq_false_2, Hentry in Hkids by done.
  cbn [fmap option_fmap option_map] in Hkids.
  destruct (children node1) as [|first rest];
    [by destruct (children node)|].
  cbn [index lookup list_lookup].
  cbn [mbind result_bind]. eexists. split; [done|].
  intros id. rewrite od_get_alter, <- Hsome.
  destruct (decide (id = first)); [|done]. by rewrite fmap_is_Some.
Qed.

Lemma connect_nodes_run (weapons : list Z) (m : store) :
  (∀ w, w ∈ weapons → is_Some (od_get w m)) →
  Forall (λ w, Forall (resolves m) (slots_of w)) weapons →
  ∃ m', foldlM (connect_node L wd) m weapons = Ok m'.
Proof.
  revert m. induction weapons as [|w weapons IH]; intros m Hin Hall;
    cbn [foldlM]; [by eauto|].
  apply Forall_cons in Hall as [Hw Hall].
  destruct (connect_node_run w m) as (m1 & -> & Hsome); [apply Hin; by left | done |].
  cbn [mbind result_bind]. apply IH.
  - intros w' Hw'. apply Hsome, Hin. by right.
  - eapply Forall_impl; [exact Hall|]. intros w' Hw'.
    eapply Forall_impl; [exact Hw'|]. intros d Hd Hnz.
    destruct (Hd Hnz) as (entry & ? & ?). exists entry. split; [done|].
    by apply Hsome.
Qed.
End run.

Section returns.
Variables (L : WeaponDataLoader) (wt : Load.weapon_type)
  (text : gmap Z (gmap string string)).

(** A record with a text that has an English entry. *)
#[local] Abbreviation named := (λ b : WpDatEntry,
  is_Some (text !! wp_gmd_name_index b ≫= (.!! "en"))).

(** A record that becomes a node: its English name is not empty and is
    not "Invalid Message". *)
#[local] Abbreviation usable := (λ b : WpDatEntry,
  default EmptyString (text !! wp_gmd_name_index b ≫= (.!! "en"))
    ∉ [EmptyString; "Invalid Message"]).

(** The tree text of a record that becomes a node has an English entry. *)
#[local] Abbreviation labelled := (λ b : WpDatEntry,
  usable b → wp_tree_id b ≠ 0 →
  is_Some (weapon_trees L !! wp_tree_id b ≫= (.!! "en"))).

#[local] Abbreviation slots_for := (λ id : Z,
  from_option slot_list []
    (descendant_slots <$> upgrade_data_map L !! (wt, id))).

Lemma usable_spec (b : WpDatEntry) (nm : gmap string string) (en : string) :
  text !! wp_gmd_name_index b = Some nm → nm !! "en" = Some en →
  usable b
  ↔ bool_decide (en = EmptyString) || bool_decide (en = "Invalid Message") = false.
Proof.
  intros Hnm Hen. cbn beta. rewrite Hnm. cbn [mbind option_bind].
  rewrite Hen. cbn [default from_option id].
  rewrite orb_false_iff, !bool_decide_eq_false, !not_elem_of_cons.
  split; [tauto|]. intros [? ?]. split_and!; try done. apply not_elem_of_nil.
Qed.

Lemma create_node_run (st : store * gmap Z (nat * nat * nat * nat))
    (b : WpDatEntry) :
  named b → labelled b → ∃ st', create_node L wt text st b = Ok st'.
Proof.
  intros [en Hen] Hlabel. destruct st as [m wd]. unfold create_node, getitem.
  destruct (text !! wp_gmd_name_index b) as [nm|] eqn:Hnm; [|done].
  cbn [mbind result_bind option_bind] in Hen |- *. rewrite Hen.
  cbn [mbind result_bind].
  destruct (_ || _) eqn:Hskip; [by eauto|].
  apply (usable_spec b nm en Hnm Hen) in Hskip.
  cbn beta in Hskip. rewrite Hnm in Hskip.
  case_bool_decide as Htree; cbn [mbind result_bind]; [by eauto|].
  destruct (Hlabel Hskip Htree) as [label Hlabel'].
  destruct (weapon_trees L !! wp_tree_id b) as [t|]; [|done].
  cbn [mbind result_bind option_bind] in Hlabel' |- *. rewrite Hlabel'.
  cbn [mbind result_bind]. by eauto.
Qed.

Lemma create_node_inv (m m' : store) (wd wd' : gmap Z (nat * nat * nat * nat))
    (b : WpDatEntry) :
  create_node L wt text (m, wd) b = Ok (m', wd') →
  named b ∧ labelled b
  ∧ ∀ id, is_Some (od_get id m')
          ↔ is_Some (od_get id m) ∨ (usable b ∧ wp_id b = id).
Proof.
  unfold create_node, getitem.
  destruct (text !! wp_gmd_name_index b) as [nm|] eqn:Hnm; [|done].
  cbn [mbind result_bind].
  destruct (nm !! "en") as [en|] eqn:Hen; [|done]. cbn [mbind result_bind].
  pose proof (usable_spec b nm en Hnm Hen) as Husable.
  cbn beta in Husable. rewrite Hnm in Husable.
  destruct (_ || _) eqn:Hskip.
  - intros [= <- <-]. split; [|split].
    + cbn [mbind option_bind]. by rewrite Hen.
    + intros Hu. apply Husable in Hu. done.
    + intros id. split; [by left|]. intros [?|[Hu _]]; [done|].
      apply Husable in Hu. done.
  - clear Hskip. pose proof (proj2 Husable eq_refl) as Hskip.
    case_bool_decide as Htree.
    + cbn [mbind result_bind]. intros [= <- <-]. split; [|split].
      * cbn [mbind option_bind]. by rewrite Hen.
      * done.
      * intros id. rewrite od_get_od_set. case_decide as Hid.
        -- split; [right; by split | by eexists].
        -- split; [by left|]. by intros [?|[_ ?]].
    + destruct (weapon_trees L !! wp_tree_id b) as [t|] eqn:Ht; [|done].
      cbn [mbind result_bind]. destruct (t !! "en") as [label|] eqn:Hl; [|done].
      cbn [mbind result_bind]. intros [= <- <-]. split; [|split].
      * cbn [mbind option_bind]. by rewrite Hen.
      * intros _ _. cbn [mbind option_bind]. by rewrite Hl.
      * intros id. rewrite od_get_od_set. case_decide as Hid.
        -- split; [right; by split | by eexists].
        -- split; [by left|]. by intros [?|[_ ?]].
Qed.

Lemma create_nodes_keys (entries : list WpDatEntry) (m0 : store)
    (wd : gmap Z (nat * nat * nat * nat)) :
  foldlM (create_node L wt text) ([], ∅) entries = Ok (m0, wd) →
  Forall named entries ∧ Forall labelled entries
  ∧ ∀ id, is_Some (od_get id m0)
          ↔ ∃ b, b ∈ entries ∧ usable b ∧ wp_id b = id.
Proof.
  revert m0 wd. induction entries as [|b entries IH] using rev_ind; intros m0 wd.
  - intros [= <- <-]. split_and!; try constructor.
    + by intros [? ?].
    + by intros (? & []%elem_of_nil & _).
  - rewrite foldlM_snoc.
    destruct (foldlM _ _ entries) as [[m1 wd1]|?]; [|done].
    cbn [mbind result_bind]. intros (Hn & Hl & Hkeys)%create_node_inv.
    destruct (IH m1 wd1 eq_refl) as (Hnamed & Hlabelled & Hkeys1).
    rewrite !Forall_app, !Forall_singleton. split_and!; try done.
    intros id. rewrite Hkeys, Hkeys1. split.
    + intros [(b' & ? & ? & ?)|[? ?]].
      * exists b'. split; [|done]. apply elem_of_app. by left.
      * exists b. split; [|done]. apply elem_of_app. right. by left.
    + intros (b' & [?|Hb%list_elem_of_singleton]%elem_of_app & ? & ?).
      * left. by exists b'.
      * subst b'. by right.
Qed.

(** X19. The assembly of the node map returns a result exactly when every
    weapon record has a text with an English entry, every record that
    becomes a node and has a tree id has a tree text with an English
    entry, and every nonzero descendant slot of such a record is a
    position of the upgrade table whose weapon becomes a node. *)
Theorem load_weapon_map_succeeds (entries : list WpDatEntry) :
  (∃ m, load_weapon_map L wt text entries = Ok m)
  ↔ Forall named entries ∧ Forall labelled entries
    ∧ Forall (λ b, usable b →
         Forall (λ d, d ≠ 0%nat →
                   ∃ entry b', upgrade_data L !! d = Some entry
                               ∧ b' ∈ entries ∧ usable b'
                               ∧ wp_id b' = equip_id entry)
                (slots_for (wp_id b))) entries.
Proof.
  split.
  - intros [m Hload]. unfold load_weapon_map in Hload.
    destruct (foldlM _ ([], ∅) entries) as [[m0 wd]|?] eqn:Hfirst; [|done].
    cbn [mbind result_bind] in Hload.
    destruct (create_nodes_keys _ _ _ Hfirst) as (Hnamed & Hlabelled & Hkeys).
    destruct (create_nodes_spec L wt text entries m0 wd Hfirst) as [_ Hslots].
    destruct (create_nodes_fresh _ _ _ _ _ _ _ _ Hfirst) as [Hnd _];
      [constructor | done |].
    destruct (connect_nodes_ok L wd _ _ _ Hload Hnd) as (Hres & _).
    { intros w Hw. by apply od_get_is_Some. }
    split_and!; try done. apply Forall_forall. intros b Hb Hu.
    assert (is_Some (od_get (wp_id b) m0)) as Hnode by (apply Hkeys; eauto).
    rewrite Forall_forall in Hres.
    specialize (Hres (wp_id b) (proj1 (od_get_is_Some _ _) Hnode)).
    rewrite Hslots, decide_True in Hres by (by apply list_elem_of_fmap_2).
    eapply Forall_impl; [exact Hres|]. intros d Hd Hnz.
    destruct (Hd Hnz) as (entry & Hentry & (b' & ? & ? & ?)%Hkeys).
    by exists entry, b'.
  - intros (Hnamed & Hlabelled & Hres). unfold load_weapon_map.
    destruct (foldlM_ok (create_node L wt text) ([], ∅) entries)
      as [[m0 wd] Hfirst].
    { rewrite Forall_forall in Hnamed, Hlabelled. apply Forall_forall.
      intros b Hb st. apply create_node_run; auto. }
    rewrite Hfirst. cbn [mbind result_bind].
    destruct (create_nodes_keys _ _ _ Hfirst) as (_ & _ & Hkeys).
    destruct (create_nodes_spec L wt text entries m0 wd Hfirst) as [_ Hslots].
    apply connect_nodes_run.
    + intros w Hw. by apply od_get_is_Some.
    + apply Forall_forall. intros w Hw%od_get_is_Some.
      apply Hkeys in Hw as (b & Hb & Hu & <-).
      rewrite Hslots, decide_True by (by apply list_elem_of_fmap_2).
      rewrite Forall_forall in Hres.
      eapply Forall_impl; [exact (Hres b Hb Hu)|]. intros d Hd Hnz.
      destruct (Hd Hnz) as (entry & b' & Hentry & ? & ? & ?).
      exists entry. split; [done|]. apply Hkeys. by exists b'.
Qed.
End returns.


(** ** convert_recipe: the sample recipes *)

(** Item 9 has no text and no quantity: it is neither looked up nor
    recorded. *)
Lemma convert_recipe_sample :
  Items.convert_recipe MoreSamples.item_handler (MoreSamples.recipe 0)
  = (Ok [ ("item1_name", Items.CName (Some "Iron Ore"));
          ("item1_qty", Items.CQty (Some 2));
          ("item2_name", Items.CName None); ("item2_qty", Items.CQty None);
          ("item3_name", Items.CName (Some "Monster Bone S"));
          ("item3_qty", Items.CQty (Some 1));
          ("item4_name", Items.CName None); ("item4_qty", Items.CQty None) ],
     {| Items._item_text := Items._item_text MoreSamples.item_handler;
        Items.encountered := [1; 2] |}).
Proof.
  rewrite (convert_recipe_spec MoreSamples.item_handler (MoreSamples.recipe 0)).
  - reflexivity.
  - repeat constructor; cbn; intros ?; (done || by eexists).
Defined.

(** Item 9 has no text but a quantity: it is recorded, and item 2 after it
    is not. *)
Lemma convert_recipe_missing_text_sample :
  Items.convert_recipe MoreSamples.item_handler (MoreSamples.recipe 1)
  = (Raise KeyError,
     {| Items._item_text := Items._item_text MoreSamples.item_handler;
        Items.encountered := [1; 9] |}).
Proof.
  rewrite (convert_recipe_missing_text MoreSamples.item_handler
             (MoreSamples.recipe 1) [(1, 2)] [(2, 1); (0, 0)] 9 1).
  - reflexivity.
  - reflexivity.
  - repeat constructor. intros _. by eexists.
  - done.
  - reflexivity.
Defined.

(** ** validate_monsters *)

Section monsters.
Variable mhdata : MHData.

#[local] Abbreviation monster_en := (λ entry : Monster,
  name (monster_map mhdata) entry "en").

(** A large monster whose weakness entry lacks the state "normal". *)
#[local] Abbreviation lacks_normal := (λ entry : Monster,
  monster_size entry ≠ "small" ∧ is_Some (weaknesses entry)
  ∧ "normal" ∉ default [] (weaknesses entry)).

(** A large monster without weakness entry. *)
#[local] Abbreviation lacks_weaknesses := (λ entry : Monster,
  monster_size entry ≠ "small" ∧ weaknesses entry = None).

Lemma validate_monsters_loop (l : list Monster) (errors : list string) :
  foldl_io (λ errors entry,
      if bool_decide (monster_size entry = "small") then mret errors
      else
        match weaknesses entry with
        | None =>
            _ ← print ("Warning: Large monster " +:+ monster_en entry +:+
                       " does not contain a weakness entry");
            mret errors
        | Some states =>
            if inb "normal" states then mret errors
            else mret (errors ++ ["Invalid weaknesses in " +:+ monster_en entry +:+
                                  ", normal is a required state"])
        end) errors l
  = (errors ++
       ((λ entry, "Invalid weaknesses in " +:+ monster_en entry +:+
                  ", normal is a required state")
        <$> filter lacks_normal l),
     (λ entry, Print ("Warning: Large monster " +:+ monster_en entry +:+
                      " does not contain a weakness entry"))
     <$> filter lacks_weaknesses l).
Proof.
  revert errors. induction l as [|entry l IH]; intros errors; cbn [foldl_io].
  - cbn. by rewrite app_nil_r.
  - rewrite !filter_cons. case_bool_decide as Hsmall.
    + rewrite !decide_False by tauto.
      apply injective_projections; io_simpl; by rewrite IH.
    + destruct (weaknesses entry) as [states|] eqn:Hw.
      * rewrite (decide_False (P := _ ∧ Some states = None)) by (by intros [_ ?]).
        unfold inb. cbn [default from_option id]. case_bool_decide as Hnormal.
        -- rewrite decide_False by tauto.
           apply injective_projections; io_simpl; by rewrite IH.
        -- rewrite decide_True by (by split_and!).
           apply injective_projections; io_simpl; rewrite IH; cbn [fst snd];
             [by rewrite <- (assoc_L (++)) | done].
      * rewrite (decide_False (P := _ ∧ is_Some None ∧ _))
          by (by intros (_ & [? ?] & _)).
        rewrite decide_True by done.
        apply injective_projections; io_simpl; by rewrite IH.
Qed.

(** X20. [validate_monsters] reports, in the order of the monsters, the
    large monsters whose weakness entry lacks the state "normal", and
    nothing else: a small monster is never reported, and a large monster
    without weakness entry gets a printed warning, after the hitzones of
    every monster were handed to [ensure_warn]. *)
Theorem validate_monsters_spec :
  validate_monsters mhdata
  = ((λ entry, "Invalid weaknesses in " +:+ monster_en entry +:+
               ", normal is a required state")
     <$> filter lacks_normal (values (monster_map mhdata)),
     ((λ entry, EnsureWarn (has_hitzones entry)
                  ("Monster " +:+ monster_en entry +:+ " missing hitzones"))
      <$> values (monster_map mhdata))
     ++ ((λ entry, Print ("Warning: Large monster " +:+ monster_en entry +:+
                          " does not contain a weakness entry"))
         <$> filter lacks_weaknesses (values (monster_map mhdata)))).
Proof.
  unfold validate_monsters. apply injective_projections; io_simpl.
  - by rewrite validate_monsters_loop.
  - rewrite validate_monsters_loop, for_each_snd. cbn [snd]. by f_equal.
Qed.
End monsters.
